(** * jton-evolve: a shallow embedding of the JSON token-minimising codec

    The repository ships two codecs with the same public interface
    ([compress_json] / [decompress_json]):

    - [json_compressor.py]: the baseline (key abbreviation above a length
      threshold, columnar form for homogeneous object arrays of length >= 3);
    - [compressed_readable.py]: the evolved "v22" codec (every key abbreviated,
      constant / delta records, bit-packed booleans, binary-packed numbers,
      base64 strings, columnar form).

    Both are embedded below, function by function, together with a model of
    the parts of the Python standard library they call ([json], [base64],
    [struct], [str] / [int] conversions).  Python exceptions are values of
    [exn]; Python [int] is [Z]; Python [str] is a list of code points; bytes
    are integers in [0, 256).  IEEE-754 doubles are kept abstract behind the
    interface [PyFloat]. *)

From Stdlib Require Import Ascii String.
From Stdlib Require Import ZArith List Bool Lia.
From Stdlib Require Import DecimalFacts DecimalPos DecimalZ.
Import ListNotations.
Open Scope Z_scope.

Set Implicit Arguments.
Set Warnings "-register-all".

(* ================================================================== *)
(** * Python runtime model *)
(* ================================================================== *)

(** ** Exceptions and results *)

Inductive exn : Type :=
| TypeError | KeyError | IndexError | ValueError | OverflowError
| AttributeError | StructError | BinasciiError
| UnicodeEncodeError | UnicodeDecodeError | JSONDecodeError.

(** The last two are not Python outcomes.  [OutOfFuel] marks that a fuelled
    function was given too little fuel (the fuel bounds the depth of the
    recursion, where CPython has its recursion limit and raises
    [RecursionError]); [Unmodelled] marks a run that leaves
    the embedded fragment of Python (a dictionary with a key that is not a
    string, or [int] applied to text with white space, underscores or
    digits outside ASCII). *)
Inductive result (A : Type) : Type :=
| Ok (a : A)
| Raise (e : exn)
| OutOfFuel
| Unmodelled.

Arguments Ok {A} a.
Arguments Raise {A} e.
Arguments OutOfFuel {A}.
Arguments Unmodelled {A}.

Definition rbind {A B} (c : result A) (k : A -> result B) : result B :=
  match c with
  | Ok a => k a
  | Raise e => Raise e
  | OutOfFuel => OutOfFuel
  | Unmodelled => Unmodelled
  end.

Declare Scope py_scope.
Delimit Scope py_scope with py.
Open Scope py_scope.

Notation "x <~ c ;; k" := (rbind c (fun x => k))
  (at level 61, c at next level, right associativity) : py_scope.
Notation "' pat <~ c ;; k" := (rbind c (fun x => match x with pat => k end))
  (at level 61, pat pattern, c at next level, right associativity) : py_scope.

Fixpoint rmap {A B} (f : A -> result B) (l : list A) : result (list B) :=
  match l with
  | [] => Ok []
  | a :: l' => b <~ f a ;; bs <~ rmap f l' ;; Ok (b :: bs)
  end.

Definition of_option {A} (e : exn) (o : option A) : result A :=
  match o with Some a => Ok a | None => Raise e end.

(** ** Strings: sequences of code points *)

Definition pystr := list Z.

Definition ch (a : ascii) : Z := Z.of_N (N_of_ascii a).

Definition py (s : string) : pystr := map ch (list_ascii_of_string s).

Arguments ch a%_char.
Arguments py s%_string.

Fixpoint str_eqb (s t : pystr) : bool :=
  match s, t with
  | [], [] => true
  | a :: s', b :: t' => (a =? b) && str_eqb s' t'
  | _, _ => false
  end.

Definition len {A} (l : list A) : Z := Z.of_nat (length l).

(** [sep.join(parts)] *)
Fixpoint join (sep : pystr) (parts : list pystr) : pystr :=
  match parts with
  | [] => []
  | [p] => p
  | p :: rest => p ++ sep ++ join sep rest
  end.

(** [s.startswith(c)] for a one-character prefix. *)
Definition startswith (s : pystr) (c : Z) : bool :=
  match s with
  | a :: _ => a =? c
  | [] => false
  end.

(** [c in letters], membership of a character in a string. *)
Definition char_in (c : Z) (letters : pystr) : bool :=
  existsb (Z.eqb c) letters.

(** ** Decimal conversion: [str(n)] and [int(s)] *)

(** CPython refuses both conversions beyond 4300 digits ([ValueError]); the
    functions below have no such limit, and agree with CPython on every int
    and every literal within it. *)

Fixpoint uint_str (d : Decimal.uint) : pystr :=
  match d with
  | Decimal.Nil => []
  | Decimal.D0 d => ch "0" :: uint_str d
  | Decimal.D1 d => ch "1" :: uint_str d
  | Decimal.D2 d => ch "2" :: uint_str d
  | Decimal.D3 d => ch "3" :: uint_str d
  | Decimal.D4 d => ch "4" :: uint_str d
  | Decimal.D5 d => ch "5" :: uint_str d
  | Decimal.D6 d => ch "6" :: uint_str d
  | Decimal.D7 d => ch "7" :: uint_str d
  | Decimal.D8 d => ch "8" :: uint_str d
  | Decimal.D9 d => ch "9" :: uint_str d
  end.

(** [str(n)] for a Python int. *)
Definition str_int (n : Z) : pystr :=
  match Z.to_int n with
  | Decimal.Pos d => uint_str d
  | Decimal.Neg d => ch "-" :: uint_str d
  end.

Definition digit_val (c : Z) : option Z :=
  if (48 <=? c) && (c <=? 57) then Some (c - 48) else None.

Fixpoint digits_val (acc : Z) (s : pystr) : option Z :=
  match s with
  | [] => Some acc
  | c :: s' =>
      match digit_val c with
      | Some d => digits_val (10 * acc + d) s'
      | None => None
      end
  end.

(** An optional sign followed by one or more ASCII digits. *)
Definition int_literal (s : pystr) : result Z :=
  match s with
  | [] => Raise ValueError
  | c :: s' =>
      if c =? ch "-" then
        match s' with
        | [] => Raise ValueError
        | _ => z <~ of_option ValueError (digits_val 0 s') ;; Ok (- z)
        end
      else if c =? ch "+" then
        match s' with
        | [] => Raise ValueError
        | _ => of_option ValueError (digits_val 0 s')
        end
      else of_option ValueError (digits_val 0 s)
  end.

(** Printable ASCII other than the space and the underscore. *)
Definition plain_char (c : Z) : bool :=
  (33 <=? c) && (c <=? 126) && negb (c =? ch "_").

(** [int(s)].  On plain ASCII text Python accepts exactly the literals
    above.  It also tolerates white space around the literal, underscores
    between digits and digits outside ASCII; such texts are left out of the
    model. *)
Definition int_of_str (s : pystr) : result Z :=
  if forallb plain_char s then int_literal s else Unmodelled.

(** ** Floating point, kept abstract

    The codec only moves doubles around, subtracts neighbours, rounds the
    differences and packs them; none of the properties below depends on how
    IEEE-754 arithmetic rounds, so the operations are an interface. *)

Class PyFloat : Type := {
  float : Type;
  float_of_int : Z -> option float;        (* float(n); None is OverflowError *)
  float_add : float -> float -> float;
  float_sub : float -> float -> float;
  float_mul : float -> float -> float;
  float_eqb : float -> float -> bool;      (* x == y *)
  float_eqb_int : float -> Z -> bool;      (* x == n, compared exactly *)
  float_round : float -> Z -> float;       (* round(x, ndigits) *)
  float_json : float -> pystr;             (* text written by json.dumps *)
  float_of_literal : pystr -> option float; (* float(s); None is ValueError *)
  float_pack : float -> list Z;            (* struct.pack('d', x): 8 bytes *)
  float_unpack : list Z -> option float    (* struct.unpack('d', b) on 8 bytes *)
}.

(** The integer fragment: no double exists, so every float operation is
    unreachable.  Used to run the codec on inputs without floats. *)
Definition IntegerOnly : PyFloat := {|
  float := Empty_set;
  float_of_int := fun _ => None;
  float_add := fun x _ => x;
  float_sub := fun x _ => x;
  float_mul := fun x _ => x;
  float_eqb := fun _ _ => true;
  float_eqb_int := fun _ _ => false;
  float_round := fun x _ => x;
  float_json := fun x => match x with end;
  float_of_literal := fun _ => None;
  float_pack := fun _ => [];
  float_unpack := fun _ => None
|}.

(** ** Dictionaries: insertion-ordered association lists *)

Section Dict.
Context {A : Type}.

(** [d.get(k)] / [d[k]] *)
Fixpoint dict_get (k : pystr) (d : list (pystr * A)) : option A :=
  match d with
  | [] => None
  | (k', v) :: d' => if str_eqb k k' then Some v else dict_get k d'
  end.

(** [k in d] *)
Definition dict_mem (k : pystr) (d : list (pystr * A)) : bool :=
  match dict_get k d with Some _ => true | None => false end.

(** [d[k] = v]: an existing key keeps its position, a new key goes last. *)
Fixpoint dict_set (k : pystr) (v : A) (d : list (pystr * A)) : list (pystr * A) :=
  match d with
  | [] => [(k, v)]
  | (k', v') :: d' =>
      if str_eqb k k' then (k', v) :: d' else (k', v') :: dict_set k v d'
  end.

Definition keys (d : list (pystr * A)) : list pystr := map fst d.

End Dict.

(** [k in ks] for a list (or set) of strings. *)
Definition str_mem (k : pystr) (ks : list pystr) : bool := existsb (str_eqb k) ks.

(** [set(a) == set(b)] *)
Definition keyset_eqb (a b : list pystr) : bool :=
  forallb (fun k => str_mem k b) a && forallb (fun k => str_mem k a) b.

(** ** JSON values *)

Section Values.
Context {F : PyFloat}.

Inductive json : Type :=
| JNull
| JBool (b : bool)
| JInt (n : Z)
| JFloat (x : float)
| JStr (s : pystr)
| JArr (items : list json)
| JObj (fields : list (pystr * json)).

Definition is_dict (v : json) : bool := match v with JObj _ => true | _ => false end.
Definition is_bool (v : json) : bool := match v with JBool _ => true | _ => false end.
Definition is_str (v : json) : bool := match v with JStr _ => true | _ => false end.

(** The fields of an object, used where [isinstance(v, dict)] is known. *)
Definition fields_of (v : json) : list (pystr * json) :=
  match v with JObj fields => fields | _ => [] end.

(** Nesting depth, the fuel the recursive walks need. *)
Fixpoint depth (v : json) : nat :=
  match v with
  | JArr items => S (fold_right (fun x m => Nat.max (depth x) m) O items)
  | JObj fields => S (fold_right (fun kv m => Nat.max (depth (snd kv)) m) O fields)
  | _ => O
  end.

(** ** Numbers: [int] (with [bool] as its subclass) and [float] *)

Inductive num : Type :=
| NInt (n : Z)
| NFloat (x : float).

(** [isinstance(v, (int, float))], which holds of [True] and [False] too. *)
Definition as_num (v : json) : option num :=
  match v with
  | JBool b => Some (NInt (if b then 1 else 0))
  | JInt n => Some (NInt n)
  | JFloat x => Some (NFloat x)
  | _ => None
  end.

Definition is_number (v : json) : bool :=
  match as_num v with Some _ => true | None => false end.

Definition json_of_num (a : num) : json :=
  match a with NInt n => JInt n | NFloat x => JFloat x end.

Definition to_float (a : num) : result float :=
  match a with
  | NInt n => of_option OverflowError (float_of_int n)
  | NFloat x => Ok x
  end.

(** Binary arithmetic: exact on two ints, in doubles otherwise. *)
Definition num_binop (fi : Z -> Z -> Z) (ff : float -> float -> float)
  (a b : num) : result num :=
  match a, b with
  | NInt m, NInt n => Ok (NInt (fi m n))
  | _, _ => x <~ to_float a ;; y <~ to_float b ;; Ok (NFloat (ff x y))
  end.

Definition num_add := num_binop Z.add float_add.
Definition num_sub := num_binop Z.sub float_sub.
Definition num_mul := num_binop Z.mul float_mul.

(** [a == b] on numbers. *)
Definition num_eqb (a b : num) : bool :=
  match a, b with
  | NInt m, NInt n => m =? n
  | NInt m, NFloat y => float_eqb_int y m
  | NFloat x, NInt n => float_eqb_int x n
  | NFloat x, NFloat y => float_eqb x y
  end.

(** [round(d, ndigits)]: an int is returned as it is. *)
Definition num_round (a : num) (ndigits : Z) : num :=
  match a with
  | NInt n => NInt n
  | NFloat x => NFloat (float_round x ndigits)
  end.

(** [a == b] on values.  Numbers compare across [bool], [int] and [float];
    dictionaries compare as mappings, whatever the order of their keys. *)
Fixpoint py_eq (a b : json) {struct a} : bool :=
  match a, b with
  | JNull, JNull => true
  | JStr s, JStr t => str_eqb s t
  | JArr xs, JArr ys =>
      (fix go (xs ys : list json) {struct xs} : bool :=
         match xs, ys with
         | [], [] => true
         | x :: xs', y :: ys' => py_eq x y && go xs' ys'
         | _, _ => false
         end) xs ys
  | JObj fa, JObj fb =>
      (length fa =? length fb)%nat &&
      (fix go (fa : list (pystr * json)) : bool :=
         match fa with
         | [] => true
         | (k, v) :: fa' =>
             match dict_get k fb with
             | Some w => py_eq v w && go fa'
             | None => false
             end
         end) fa
  | JNull, _ | JStr _, _ | JArr _, _ | JObj _, _ => false
  | _, _ =>
      match as_num a, as_num b with
      | Some m, Some n => num_eqb m n
      | _, _ => false
      end
  end.

End Values.

(** ** [base64]: RFC 4648 encoding, and the lenient decoder of [binascii] *)

Definition b64chars : pystr :=
  py "ABCDEFGHIJKLMNOPQRSTUVWXYZabcdefghijklmnopqrstuvwxyz0123456789+/".

Definition b64_char (i : Z) : Z := nth (Z.to_nat i) b64chars 0.

Definition pad_char : Z := ch "=".

(** [base64.b64encode(bs).decode('ascii')] *)
Fixpoint b64encode (bs : list Z) : pystr :=
  match bs with
  | [] => []
  | [a] => [b64_char (a / 4); b64_char (a mod 4 * 16); pad_char; pad_char]
  | [a; b] =>
      [b64_char (a / 4); b64_char (a mod 4 * 16 + b / 16);
       b64_char (b mod 16 * 4); pad_char]
  | a :: b :: c :: rest =>
      b64_char (a / 4) :: b64_char (a mod 4 * 16 + b / 16)
      :: b64_char (b mod 16 * 4 + c / 64) :: b64_char (c mod 64)
      :: b64encode rest
  end.

(** The decoding table: the 6-bit value of an alphabet character. *)
Definition b64_index (c : Z) : option Z :=
  if (ch "A" <=? c) && (c <=? ch "Z") then Some (c - 65)
  else if (ch "a" <=? c) && (c <=? ch "z") then Some (c - 71)
  else if (ch "0" <=? c) && (c <=? ch "9") then Some (c + 4)
  else if c =? ch "+" then Some 62
  else if c =? ch "/" then Some 63
  else None.

(** [binascii.a2b_base64] in its default, non-strict mode: characters outside
    the alphabet are skipped, a complete pad sequence stops the scan, and an
    incomplete final quad is an error. *)
Fixpoint a2b_base64 (s : pystr) (quad_pos leftchar pads : Z) : result (list Z) :=
  match s with
  | [] => if quad_pos =? 0 then Ok [] else Raise BinasciiError
  | c :: s' =>
      if c =? pad_char then
        if (2 <=? quad_pos) && (4 <=? quad_pos + (pads + 1)) then Ok []
        else a2b_base64 s' quad_pos leftchar (if 2 <=? quad_pos then pads + 1 else pads)
      else
        match b64_index c with
        | None => a2b_base64 s' quad_pos leftchar pads
        | Some v =>
            if quad_pos =? 0 then a2b_base64 s' 1 v 0
            else if quad_pos =? 1 then
              out <~ a2b_base64 s' 2 (v mod 16) 0 ;; Ok ((leftchar * 4 + v / 16) :: out)
            else if quad_pos =? 2 then
              out <~ a2b_base64 s' 3 (v mod 4) 0 ;; Ok ((leftchar * 16 + v / 4) :: out)
            else
              out <~ a2b_base64 s' 0 0 0 ;; Ok ((leftchar * 64 + v) :: out)
        end
  end.

(** [base64.b64decode(s)] on a [str] argument, which must be ASCII. *)
Definition b64decode (s : pystr) : result (list Z) :=
  if forallb (fun c => c <? 128) s then a2b_base64 s 0 0 0 else Raise ValueError.

(** ** UTF-8 *)

Definition utf8_char (c : Z) : result (list Z) :=
  if (c <? 0) then Raise UnicodeEncodeError
  else if c <? 128 then Ok [c]
  else if c <? 2048 then Ok [192 + c / 64; 128 + c mod 64]
  else if c <? 65536 then
    if (55296 <=? c) && (c <=? 57343) then Raise UnicodeEncodeError
    else Ok [224 + c / 4096; 128 + c / 64 mod 64; 128 + c mod 64]
  else if c <? 1114112 then
    Ok [240 + c / 262144; 128 + c / 4096 mod 64; 128 + c / 64 mod 64; 128 + c mod 64]
  else Raise UnicodeEncodeError.

(** [s.encode('utf-8')]: a lone surrogate cannot be encoded. *)
Fixpoint utf8_encode (s : pystr) : result (list Z) :=
  match s with
  | [] => Ok []
  | c :: s' => bs <~ utf8_char c ;; rest <~ utf8_encode s' ;; Ok (bs ++ rest)
  end.

Definition in_range (lo hi b : Z) : bool := (lo <=? b) && (b <=? hi).

(** [bs.decode('utf-8')], strict. *)
Fixpoint utf8_decode (bs : list Z) : result pystr :=
  match bs with
  | [] => Ok []
  | b0 :: r =>
      if in_range 0 127 b0 then s <~ utf8_decode r ;; Ok (b0 :: s)
      else if in_range 194 223 b0 then
        match r with
        | b1 :: r1 =>
            if in_range 128 191 b1
            then s <~ utf8_decode r1 ;; Ok (((b0 - 192) * 64 + (b1 - 128)) :: s)
            else Raise UnicodeDecodeError
        | _ => Raise UnicodeDecodeError
        end
      else if in_range 224 239 b0 then
        match r with
        | b1 :: b2 :: r2 =>
            if in_range (if b0 =? 224 then 160 else 128) (if b0 =? 237 then 159 else 191) b1
               && in_range 128 191 b2
            then s <~ utf8_decode r2 ;;
                 Ok (((b0 - 224) * 4096 + (b1 - 128) * 64 + (b2 - 128)) :: s)
            else Raise UnicodeDecodeError
        | _ => Raise UnicodeDecodeError
        end
      else if in_range 240 244 b0 then
        match r with
        | b1 :: b2 :: b3 :: r3 =>
            if in_range (if b0 =? 240 then 144 else 128) (if b0 =? 244 then 143 else 191) b1
               && in_range 128 191 b2 && in_range 128 191 b3
            then s <~ utf8_decode r3 ;;
                 Ok (((b0 - 240) * 262144 + (b1 - 128) * 4096
                      + (b2 - 128) * 64 + (b3 - 128)) :: s)
            else Raise UnicodeDecodeError
        | _ => Raise UnicodeDecodeError
        end
      else Raise UnicodeDecodeError
  end.

(** ** [struct]: fixed-width packing, native little-endian layout *)

(** The [size] low bytes of [n], least significant first (two's complement). *)
Fixpoint le_bytes (size : nat) (n : Z) : list Z :=
  match size with
  | O => []
  | S k => n mod 256 :: le_bytes k (n / 256)
  end.

(** One integer field of [size] bytes; out of range is [struct.error]. *)
Definition pack_int (size : nat) (n : Z) : result (list Z) :=
  let half := 2 ^ (8 * Z.of_nat size - 1) in
  if (- half <=? n) && (n <? half) then Ok (le_bytes size n) else Raise StructError.

(** [struct.pack(f'{len(ns)}b' | 'h' | 'i', *ns)] for ints. *)
Fixpoint pack_ints (size : nat) (ns : list Z) : result (list Z) :=
  match ns with
  | [] => Ok []
  | n :: ns' => b <~ pack_int size n ;; bs <~ pack_ints size ns' ;; Ok (b ++ bs)
  end.

Definition le_value (bs : list Z) : Z :=
  fold_right (fun b acc => b + 256 * acc) 0 bs.

Definition signed (size : nat) (u : Z) : Z :=
  if u <? 2 ^ (8 * Z.of_nat size - 1) then u else u - 2 ^ (8 * Z.of_nat size).

(** [struct.unpack(f'{len(bs)}b', bs)] *)
Definition unpack_b (bs : list Z) : list Z := map (signed 1) bs.

(** [struct.unpack(f'{len(bs)//2}h', bs)]: the buffer must be whole fields. *)
Fixpoint unpack_h (bs : list Z) : result (list Z) :=
  match bs with
  | [] => Ok []
  | b0 :: b1 :: r => ns <~ unpack_h r ;; Ok (signed 2 (le_value [b0; b1]) :: ns)
  | _ => Raise StructError
  end.

(** [struct.unpack(f'{len(bs)//4}i', bs)] *)
Fixpoint unpack_i (bs : list Z) : result (list Z) :=
  match bs with
  | [] => Ok []
  | b0 :: b1 :: b2 :: b3 :: r =>
      ns <~ unpack_i r ;; Ok (signed 4 (le_value [b0; b1; b2; b3]) :: ns)
  | _ => Raise StructError
  end.

(** ** [json.dumps(v, separators=(',', ':'))] *)

Definition quote_char : Z := 34.
Definition backslash : Z := 92.

Definition hex_digit (d : Z) : Z := if d <? 10 then 48 + d else 87 + d.

Definition hex4 (n : Z) : pystr :=
  [hex_digit (n / 4096 mod 16); hex_digit (n / 256 mod 16);
   hex_digit (n / 16 mod 16); hex_digit (n mod 16)].

Definition u_escape (n : Z) : pystr := backslash :: ch "u" :: hex4 n.

(** One character under [ensure_ascii=True]: everything outside the printable
    ASCII range is escaped, astral code points as a surrogate pair. *)
Definition escape_char (c : Z) : pystr :=
  if c =? quote_char then [backslash; quote_char]
  else if c =? backslash then [backslash; backslash]
  else if c =? 10 then [backslash; ch "n"]
  else if c =? 13 then [backslash; ch "r"]
  else if c =? 9 then [backslash; ch "t"]
  else if c =? 12 then [backslash; ch "f"]
  else if c =? 8 then [backslash; ch "b"]
  else if (32 <=? c) && (c <=? 126) then [c]
  else if c <? 65536 then u_escape c
  else u_escape (55296 + (c - 65536) / 1024) ++ u_escape (56320 + (c - 65536) mod 1024).

Definition dumps_str (s : pystr) : pystr :=
  quote_char :: flat_map escape_char s ++ [quote_char].

Section Dumps.
Context {F : PyFloat}.

(** The text [json.dumps(v)] returns.  [json.dumps] itself raises on an int
    of more than 4300 digits ([ValueError]) and on nesting beyond the
    recursion limit of the interpreter ([RecursionError]); [dumps] is the
    text of the values it accepts. *)
Fixpoint dumps (v : json) : pystr :=
  match v with
  | JNull => py "null"
  | JBool true => py "true"
  | JBool false => py "false"
  | JInt n => str_int n
  | JFloat x => float_json x
  | JStr s => dumps_str s
  | JArr items => ch "[" :: join [ch ","] (map dumps items) ++ [ch "]"]
  | JObj fields =>
      ch "{" :: join [ch ","]
                  (map (fun kv => dumps_str (fst kv) ++ ch ":" :: dumps (snd kv)) fields)
             ++ [ch "}"]
  end.

End Dumps.

(** ** [json.loads] *)

Definition is_ws (c : Z) : bool :=
  (c =? 32) || (c =? 9) || (c =? 10) || (c =? 13).

Fixpoint skip_ws (s : pystr) : pystr :=
  match s with
  | c :: r => if is_ws c then skip_ws r else s
  | [] => []
  end.

(** [s] without the prefix [p], when it starts with it. *)
Fixpoint strip_prefix (p s : pystr) : option pystr :=
  match p, s with
  | [], _ => Some s
  | a :: p', b :: s' => if a =? b then strip_prefix p' s' else None
  | _ :: _, [] => None
  end.

Definition is_digit (c : Z) : bool := (48 <=? c) && (c <=? 57).

(** The longest run of digits at the head of [s], and what follows. *)
Fixpoint take_digits (s : pystr) : pystr * pystr :=
  match s with
  | c :: r => if is_digit c then let (ds, rest) := take_digits r in (c :: ds, rest) else ([], s)
  | [] => ([], [])
  end.

Definition hex_val (c : Z) : option Z :=
  if is_digit c then Some (c - 48)
  else if (ch "a" <=? c) && (c <=? ch "f") then Some (c - 87)
  else if (ch "A" <=? c) && (c <=? ch "F") then Some (c - 55)
  else None.

Definition hex4_val (h1 h2 h3 h4 : Z) : option Z :=
  match hex_val h1, hex_val h2, hex_val h3, hex_val h4 with
  | Some a, Some b, Some c, Some d => Some (a * 4096 + b * 256 + c * 16 + d)
  | _, _, _, _ => None
  end.

(** The character a one-letter escape stands for. *)
Definition simple_escape (e : Z) : option Z :=
  if e =? quote_char then Some quote_char
  else if e =? backslash then Some backslash
  else if e =? ch "/" then Some (ch "/")
  else if e =? ch "b" then Some 8
  else if e =? ch "f" then Some 12
  else if e =? ch "n" then Some 10
  else if e =? ch "r" then Some 13
  else if e =? ch "t" then Some 9
  else None.

(** The low half of a surrogate pair written as a second escape, if any. *)
Definition low_surrogate (s : pystr) : option (Z * pystr) :=
  match s with
  | b :: u :: h1 :: h2 :: h3 :: h4 :: r =>
      if (b =? backslash) && (u =? ch "u") then
        match hex4_val h1 h2 h3 h4 with
        | Some lo => if in_range 56320 57343 lo then Some (lo, r) else None
        | None => None
        end
      else None
  | _ => None
  end.

(** [scanstring], after the opening quote: the text and what follows the
    closing quote.  Control characters are rejected (strict mode). *)
Fixpoint scanstring (s : pystr) : result (pystr * pystr) :=
  match s with
  | [] => Raise JSONDecodeError
  | c :: r =>
      if c =? quote_char then Ok ([], r)
      else if c =? backslash then
        match r with
        | [] => Raise JSONDecodeError
        | e :: r1 =>
            if e =? ch "u" then
              match r1 with
              | h1 :: h2 :: h3 :: h4 :: r2 =>
                  match hex4_val h1 h2 h3 h4 with
                  | None => Raise JSONDecodeError
                  | Some uni =>
                      if in_range 55296 56319 uni then
                        match r2 with
                        | b :: u :: l1 :: l2 :: l3 :: l4 :: r3 =>
                            match low_surrogate r2 with
                            | Some (lo, _) =>
                                '(t, rest) <~ scanstring r3 ;;
                                Ok ((65536 + (uni - 55296) * 1024 + (lo - 56320)) :: t, rest)
                            | None => '(t, rest) <~ scanstring r2 ;; Ok (uni :: t, rest)
                            end
                        | _ => '(t, rest) <~ scanstring r2 ;; Ok (uni :: t, rest)
                        end
                      else '(t, rest) <~ scanstring r2 ;; Ok (uni :: t, rest)
                  end
              | _ => Raise JSONDecodeError
              end
            else
              match simple_escape e with
              | Some x => '(t, rest) <~ scanstring r1 ;; Ok (x :: t, rest)
              | None => Raise JSONDecodeError
              end
        end
      else if c <? 32 then Raise JSONDecodeError
      else '(t, rest) <~ scanstring r ;; Ok (c :: t, rest)
  end.

(** The integer part, fraction and exponent of a number literal. *)
Definition scan_number_parts (s : pystr) : option (pystr * pystr * pystr) :=
  let (sign, s1) := match s with
                    | c :: r => if c =? ch "-" then ([c], r) else ([], s)
                    | [] => ([], s)
                    end in
  match s1 with
  | c :: r =>
      if is_digit c then
        let (int_digits, s2) := if c =? ch "0" then ([c], r) else take_digits s1 in
        let (frac, s3) :=
          match s2 with
          | dot :: d :: _ =>
              if (dot =? ch ".") && is_digit d
              then let (ds, rest) := take_digits (tl s2) in (dot :: ds, rest)
              else ([], s2)
          | _ => ([], s2)
          end in
        let (expo, s4) :=
          match s3 with
          | e :: r3 =>
              if (e =? ch "e") || (e =? ch "E") then
                match r3 with
                | sg :: d :: _ =>
                    if ((sg =? ch "+") || (sg =? ch "-")) && is_digit d
                    then let (ds, rest) := take_digits (tl r3) in (e :: sg :: ds, rest)
                    else if is_digit sg
                    then let (ds, rest) := take_digits r3 in (e :: ds, rest)
                    else ([], s3)
                | [d] =>
                    if is_digit d then (e :: [d], []) else ([], s3)
                | [] => ([], s3)
                end
              else ([], s3)
          | [] => ([], s3)
          end in
        Some (sign ++ int_digits, frac ++ expo, s4)
      else None
  | [] => None
  end.

Section Loads.
Context {F : PyFloat}.

Definition parse_float (text : pystr) : result json :=
  x <~ of_option ValueError (float_of_literal text) ;; Ok (JFloat x).

Definition scan_number (s : pystr) : result (json * pystr) :=
  match scan_number_parts s with
  | Some (integer, [], rest) => n <~ int_of_str integer ;; Ok (JInt n, rest)
  | Some (integer, frac_exp, rest) => x <~ parse_float (integer ++ frac_exp) ;; Ok (x, rest)
  | None => Raise JSONDecodeError
  end.

(** A literal keyword at the head of [s]. *)
Definition keyword (word : pystr) (v : result json) (s : pystr) : result (json * pystr) :=
  match strip_prefix word s with
  | Some rest => x <~ v ;; Ok (x, rest)
  | None => Raise JSONDecodeError
  end.

(** [scan_once] with the array and object loops; every call consumes at
    least one character, so the length of the text bounds the fuel. *)
Fixpoint scan_once (fuel : nat) (s : pystr) : result (json * pystr) :=
  match fuel with
  | O => OutOfFuel
  | S fuel' =>
      match s with
      | [] => Raise JSONDecodeError
      | c :: r =>
          if c =? quote_char then '(t, rest) <~ scanstring r ;; Ok (JStr t, rest)
          else if c =? ch "{" then
            match skip_ws r with
            | c' :: r' =>
                if c' =? ch "}" then Ok (JObj [], r')
                else '(fields, rest) <~ scan_members fuel' (skip_ws r) [] ;; Ok (JObj fields, rest)
            | [] => Raise JSONDecodeError
            end
          else if c =? ch "[" then
            match skip_ws r with
            | c' :: r' =>
                if c' =? ch "]" then Ok (JArr [], r')
                else '(items, rest) <~ scan_items fuel' (skip_ws r) [] ;; Ok (JArr items, rest)
            | [] => Raise JSONDecodeError
            end
          else if c =? ch "n" then keyword (py "null") (Ok JNull) s
          else if c =? ch "t" then keyword (py "true") (Ok (JBool true)) s
          else if c =? ch "f" then keyword (py "false") (Ok (JBool false)) s
          else if c =? ch "N" then keyword (py "NaN") (parse_float (py "NaN")) s
          else if c =? ch "I" then keyword (py "Infinity") (parse_float (py "Infinity")) s
          else if (c =? ch "-") && startswith r (ch "I")
          then keyword (py "-Infinity") (parse_float (py "-Infinity")) s
          else scan_number s
      end
  end

with scan_items (fuel : nat) (s : pystr) (acc : list json) : result (list json * pystr) :=
  match fuel with
  | O => OutOfFuel
  | S fuel' =>
      '(value, rest) <~ scan_once fuel' s ;;
      match skip_ws rest with
      | c :: r =>
          if c =? ch "]" then Ok (acc ++ [value], r)
          else if c =? ch "," then scan_items fuel' (skip_ws r) (acc ++ [value])
          else Raise JSONDecodeError
      | [] => Raise JSONDecodeError
      end
  end

with scan_members (fuel : nat) (s : pystr) (acc : list (pystr * json))
  : result (list (pystr * json) * pystr) :=
  match fuel with
  | O => OutOfFuel
  | S fuel' =>
      match s with
      | q :: r =>
          if q =? quote_char then
            '(key, rest) <~ scanstring r ;;
            match skip_ws rest with
            | colon :: r1 =>
                if colon =? ch ":" then
                  '(value, rest1) <~ scan_once fuel' (skip_ws r1) ;;
                  match skip_ws rest1 with
                  | c :: r2 =>
                      if c =? ch "}" then Ok (dict_set key value acc, r2)
                      else if c =? ch ","
                      then scan_members fuel' (skip_ws r2) (dict_set key value acc)
                      else Raise JSONDecodeError
                  | [] => Raise JSONDecodeError
                  end
                else Raise JSONDecodeError
            | [] => Raise JSONDecodeError
            end
          else Raise JSONDecodeError
      | [] => Raise JSONDecodeError
      end
  end.

Definition json_loads (s : pystr) : result json :=
  '(value, rest) <~ scan_once (S (length s)) (skip_ws s) ;;
  match skip_ws rest with
  | [] => Ok value
  | _ => Raise JSONDecodeError
  end.

End Loads.

(** ** Dynamically typed operations the decoders apply to parsed values *)

Section Dynamic.
Context {F : PyFloat}.

(** [bool(v)] *)
Definition py_truthy (v : json) : bool :=
  match v with
  | JNull => false
  | JBool b => b
  | JInt n => negb (n =? 0)
  | JFloat x => negb (float_eqb_int x 0)
  | JStr s => negb (len s =? 0)
  | JArr items => negb (len items =? 0)
  | JObj fields => negb (len fields =? 0)
  end.

(** [len(v)] *)
Definition py_len (v : json) : result Z :=
  match v with
  | JStr s => Ok (len s)
  | JArr items => Ok (len items)
  | JObj fields => Ok (len fields)
  | _ => Raise TypeError
  end.

(** [v[i]] for an index [i >= 0]. *)
Definition py_getitem (v : json) (i : Z) : result json :=
  match v with
  | JArr items => of_option IndexError (nth_error items (Z.to_nat i))
  | JStr s => c <~ of_option IndexError (nth_error s (Z.to_nat i)) ;; Ok (JStr [c])
  | JObj _ => Raise KeyError
  | _ => Raise TypeError
  end.

(** [list(v)]: the elements a [for] loop visits. *)
Definition py_iter (v : json) : result (list json) :=
  match v with
  | JArr items => Ok items
  | JStr s => Ok (map (fun c => JStr [c]) s)
  | JObj fields => Ok (map JStr (keys fields))
  | _ => Raise TypeError
  end.

(** An operand that must be an [int] ([bool] included). *)
Definition py_index (n : json) : result Z :=
  match n with
  | JInt z => Ok z
  | JBool b => Ok (if b then 1 else 0)
  | _ => Raise TypeError
  end.

Definition range (n : Z) : list Z := map Z.of_nat (seq 0 (Z.to_nat n)).

(** [list(range(n))] *)
Definition py_range (n : json) : result (list Z) :=
  z <~ py_index n ;; Ok (range z).

(** [[v] * n] *)
Definition py_repeat (v : json) (n : json) : result json :=
  z <~ py_index n ;; Ok (JArr (repeat v (Z.to_nat z))).

(** [i * v] for an int [i]. *)
Definition py_mul_int (i : Z) (v : json) : result json :=
  match v with
  | JStr s => Ok (JStr (concat (repeat s (Z.to_nat i))))
  | JArr items => Ok (JArr (concat (repeat items (Z.to_nat i))))
  | JNull | JObj _ => Raise TypeError
  | _ =>
      match as_num v with
      | Some n => r <~ num_mul (NInt i) n ;; Ok (json_of_num r)
      | None => Raise TypeError
      end
  end.

(** [a + b] *)
Definition py_add (a b : json) : result json :=
  match a, b with
  | JStr s, JStr t => Ok (JStr (s ++ t))
  | JArr xs, JArr ys => Ok (JArr (xs ++ ys))
  | _, _ =>
      match as_num a, as_num b with
      | Some m, Some n => r <~ num_add m n ;; Ok (json_of_num r)
      | _, _ => Raise TypeError
      end
  end.

(** [[start + i * delta for i in range(count)]] *)
Definition delta_run (start delta count : json) : result json :=
  indices <~ py_range count ;;
  items <~ rmap (fun i => step <~ py_mul_int i delta ;; py_add start step) indices ;;
  Ok (JArr items).

(** [{v: k for k, v in key_map.items()}].  Lists and dictionaries are not
    hashable; an entry whose value is another non-string is kept out of the
    model, since only strings are ever looked up in the result. *)
Definition reverse_map (key_map : json) : result (list (pystr * pystr)) :=
  match key_map with
  | JObj fields =>
      fold_left (fun acc (kv : pystr * json) =>
        m <~ acc ;;
        match snd kv with
        | JStr v => Ok (dict_set v (fst kv) m)
        | JArr _ | JObj _ => Raise TypeError
        | _ => Ok m
        end) fields (Ok [])
  | _ => Raise AttributeError
  end.

(** [key_map.get(short_key, short_key)] for a key taken from parsed data. *)
Definition original_key (key_map : list (pystr * pystr)) (short_key : json) : result pystr :=
  match short_key with
  | JStr k => Ok (match dict_get k key_map with Some orig => orig | None => k end)
  | JArr _ | JObj _ => Raise TypeError
  | _ => Unmodelled
  end.

(** [struct.unpack(f'{len(bs)//8}d', bs)] *)
Fixpoint unpack_d (bs : list Z) : result (list float) :=
  match bs with
  | [] => Ok []
  | b0 :: b1 :: b2 :: b3 :: b4 :: b5 :: b6 :: b7 :: r =>
      xs <~ unpack_d r ;;
      x <~ of_option StructError (float_unpack [b0; b1; b2; b3; b4; b5; b6; b7]) ;;
      Ok (x :: xs)
  | _ => Raise StructError
  end.

End Dynamic.

(** [s.split(':', 1)]: the text before the first colon and, when there is a
    colon, the text after it. *)
Fixpoint split_colon (s : pystr) : pystr * option pystr :=
  match s with
  | [] => ([], None)
  | c :: r =>
      if c =? ch ":" then ([], Some r)
      else let (before, after) := split_colon r in (c :: before, after)
  end.

(** ** State threading: the mutable attributes of a compressor instance *)

Definition M (S A : Type) : Type := S -> result (A * S).

Definition ret {S A} (a : A) : M S A := fun st => Ok (a, st).

Definition bind {S A B} (c : M S A) (k : A -> M S B) : M S B :=
  fun st =>
    match c st with
    | Ok (a, st') => k a st'
    | Raise e => Raise e
    | OutOfFuel => OutOfFuel
    | Unmodelled => Unmodelled
    end.

Definition lift {S A} (r : result A) : M S A :=
  fun st => rbind r (fun a => Ok (a, st)).

Notation "x <- c ;; k" := (bind c (fun x => k))
  (at level 61, c at next level, right associativity) : py_scope.

Fixpoint mapM {S A B} (f : A -> M S B) (l : list A) : M S (list B) :=
  match l with
  | [] => ret []
  | a :: l' => b <- f a ;; bs <- mapM f l' ;; ret (b :: bs)
  end.

Fixpoint foldM {S A B} (f : B -> A -> M S B) (l : list A) (b : B) : M S B :=
  match l with
  | [] => ret b
  | a :: l' => b' <- f b a ;; foldM f l' b'
  end.

(** ** [_encode_base62], the same method in both compressor classes *)

Definition base62_chars : pystr :=
  py "0123456789ABCDEFGHIJKLMNOPQRSTUVWXYZabcdefghijklmnopqrstuvwxyz".

(** The [while num:] loop; [num] strictly decreases, so [num] itself bounds
    the number of iterations. *)
Fixpoint base62_loop (fuel : nat) (num : Z) (result : pystr) : pystr :=
  match fuel with
  | O => result
  | S fuel' =>
      if num =? 0 then result
      else base62_loop fuel' (num / 62)
             (result ++ [nth (Z.to_nat (num mod 62)) base62_chars 0])
  end.

Definition _encode_base62 (num : Z) : pystr :=
  if num =? 0 then [nth 0 base62_chars 0]
  else rev (base62_loop (Z.to_nat num) num []).

(* ================================================================== *)
(** * json_compressor.py: the baseline codec *)
(* ================================================================== *)

Module JsonCompressor.

(** The instance attributes set by [__init__]. *)
Record state : Type := {
  key_map : list (pystr * pystr);
  reverse_key_map : list (pystr * pystr);
  key_counter : Z;
  min_key_length : Z
}.

Definition init : state :=
  {| key_map := []; reverse_key_map := []; key_counter := 0; min_key_length := 6 |}.

Definition _get_short_key (original_key : pystr) : M state pystr :=
  fun st =>
    if len original_key <=? min_key_length st then Ok (original_key, st)
    else
      match dict_get original_key (key_map st) with
      | Some short_key => Ok (short_key, st)
      | None =>
          let short_key := _encode_base62 (key_counter st) in
          Ok (short_key,
              {| key_map := dict_set original_key short_key (key_map st);
                 reverse_key_map := dict_set short_key original_key (reverse_key_map st);
                 key_counter := key_counter st + 1;
                 min_key_length := min_key_length st |})
      end.

Section Codec.
Context {F : PyFloat}.

(** [columns[short_key].append(value)] *)
Definition column_append (short_key : pystr) (value : json)
  (columns : list (pystr * list json)) : result (list (pystr * list json)) :=
  col <~ of_option KeyError (dict_get short_key columns) ;;
  Ok (dict_set short_key (col ++ [value]) columns).

(** The body of [_compress_array]; [compress_value] is [self._compress_value]. *)
Definition _compress_array (compress_value : json -> M state json)
  (arr : list json) : M state json :=
  let regular := items <- mapM compress_value arr ;; ret (JArr items) in
  match arr with
  | [] => ret (JArr arr)
  | first :: _ =>
      if forallb is_dict arr then
        let first_keys := keys (fields_of first) in
        if forallb (fun item => keyset_eqb (keys (fields_of item)) first_keys) arr then
          if 3 <=? len arr then
            let keys := keys (fields_of first) in
            short_keys <- mapM _get_short_key keys ;;
            let columns0 := fold_left (fun cols sk => dict_set sk [] cols) short_keys [] in
            columns <-
              foldM (fun cols item =>
                foldM (fun cols (ks : pystr * pystr) =>
                  let (orig_key, short_key) := ks in
                  v <- lift (of_option KeyError (dict_get orig_key (fields_of item))) ;;
                  value <- compress_value v ;;
                  lift (column_append short_key value cols))
                  (combine keys short_keys) cols)
                arr columns0 ;;
            d <- lift (rmap (fun sk => col <~ of_option KeyError (dict_get sk columns) ;;
                                       Ok (JArr col)) short_keys) ;;
            ret (JObj [(py "t", JStr (py "a"));
                       (py "k", JArr (map JStr short_keys));
                       (py "d", JArr d)])
          else regular
        else regular
      else regular
  end.

(** The body of [_compress_object]. *)
Definition _compress_object (compress_value : json -> M state json)
  (obj : list (pystr * json)) : M state json :=
  compressed <-
    foldM (fun compressed (kv : pystr * json) =>
      let (key, value) := kv in
      short_key <- _get_short_key key ;;
      v <- compress_value value ;;
      ret (dict_set short_key v compressed))
      obj [] ;;
  ret (JObj compressed).

Fixpoint _compress_value (fuel : nat) (value : json) : M state json :=
  match fuel with
  | O => fun _ => OutOfFuel
  | S fuel' =>
      match value with
      | JObj obj => _compress_object (_compress_value fuel') obj
      | JArr arr => _compress_array (_compress_value fuel') arr
      | JNull => ret JNull
      | JBool _ => ret value
      | JInt _ | JFloat _ => ret value
      | JStr _ => ret value
      end
  end.

(** [compress]: the dictionary restarts from empty at every call. *)
Definition compress (data : json) : M state json :=
  fun st =>
    let st0 := {| key_map := []; reverse_key_map := []; key_counter := 0;
                  min_key_length := min_key_length st |} in
    match _compress_value (S (depth data)) data st0 with
    | Ok (compressed_data, st') =>
        let result := [(py "d", compressed_data)] in
        let result :=
          match key_map st' with
          | [] => result
          | _ => result ++ [(py "m", JObj (map (fun kv => (fst kv, JStr (snd kv))) (key_map st')))]
          end in
        Ok (JObj result, st')
    | Raise e => Raise e
    | OutOfFuel => OutOfFuel
    | Unmodelled => Unmodelled
    end.

Definition compress_json (data : json) : result pystr :=
  let original_str := dumps data in
  '(compressed, _) <~ compress data init ;;
  let compressed_str := dumps compressed in
  if len compressed_str <? len original_str then Ok compressed_str
  else Ok original_str.

(** The body of [_decompress_object]. *)
Definition _decompress_object (decompress_value : json -> result json)
  (obj : list (pystr * json)) (key_map : list (pystr * pystr)) : result json :=
  decompressed <~
    fold_left (fun acc (kv : pystr * json) =>
      decompressed <~ acc ;;
      let (short_key, value) := kv in
      original_key <~ original_key key_map (JStr short_key) ;;
      v <~ decompress_value value ;;
      Ok (dict_set original_key v decompressed))
      obj (Ok []) ;;
  Ok (JObj decompressed).

(** The body of [_decompress_array]: columns back to rows. *)
Definition _decompress_array (decompress_value : json -> result json)
  (arr_data : list (pystr * json)) (key_map : list (pystr * pystr)) : result json :=
  short_keys <~ of_option KeyError (dict_get (py "k") arr_data) ;;
  columns <~ of_option KeyError (dict_get (py "d") arr_data) ;;
  num_rows <~ (if py_truthy columns
               then first <~ py_getitem columns 0 ;; py_len first
               else Ok 0) ;;
  result <~
    rmap (fun i =>
      short_keys <~ py_iter short_keys ;;
      obj <~
        fold_left (fun acc (js : Z * json) =>
          obj <~ acc ;;
          let (j, short_key) := js in
          original_key <~ original_key key_map short_key ;;
          column <~ py_getitem columns j ;;
          cell <~ py_getitem column i ;;
          value <~ decompress_value cell ;;
          Ok (dict_set original_key value obj))
          (combine (range (len short_keys)) short_keys) (Ok []) ;;
      Ok (JObj obj))
      (range num_rows) ;;
  Ok (JArr result).

Fixpoint _decompress_value (fuel : nat) (value : json) (key_map : list (pystr * pystr))
  : result json :=
  match fuel with
  | O => OutOfFuel
  | S fuel' =>
      match value with
      | JObj fields =>
          if match dict_get (py "t") fields with
             | Some t => py_eq t (JStr (py "a"))
             | None => false
             end
          then _decompress_array (fun v => _decompress_value fuel' v key_map) fields key_map
          else _decompress_object (fun v => _decompress_value fuel' v key_map) fields key_map
      | JArr items => items' <~ rmap (fun item => _decompress_value fuel' item key_map) items ;;
                      Ok (JArr items')
      | _ => Ok value
      end
  end.

Definition decompress (fuel : nat) (compressed : list (pystr * json)) : result json :=
  reverse_map <~ match dict_get (py "m") compressed with
                 | Some key_map => reverse_map key_map
                 | None => Ok []
                 end ;;
  d <~ of_option KeyError (dict_get (py "d") compressed) ;;
  _decompress_value fuel d reverse_map.

Definition decompress_json (fuel : nat) (compressed_str : pystr) : result json :=
  data <~ json_loads compressed_str ;;
  match data with
  | JObj fields => if dict_mem (py "d") fields then decompress fuel fields else Ok data
  | _ => Ok data
  end.

End Codec.
End JsonCompressor.

(* ================================================================== *)
(** * compressed_readable.py: the evolved codec (v22) *)
(* ================================================================== *)

Module CompressedReadable.

Record state : Type := {
  key_map : list (pystr * pystr);
  key_counter : Z
}.

Definition init : state := {| key_map := []; key_counter := 0 |}.

(** "Generate ultra-compact keys - compress ALL keys." *)
Definition _get_short_key (original_key : pystr) : M state pystr :=
  fun st =>
    let st' :=
      if dict_mem original_key (key_map st) then st
      else {| key_map := dict_set original_key (_encode_base62 (key_counter st)) (key_map st);
              key_counter := key_counter st + 1 |} in
    match dict_get original_key (key_map st') with
    | Some short_key => Ok (short_key, st')
    | None => Raise KeyError
    end.

(** [byte_array[i] |= mask]; an index out of range is an [IndexError]. *)
Fixpoint byte_or (i : nat) (mask : Z) (byte_array : list Z) : result (list Z) :=
  match byte_array, i with
  | [], _ => Raise IndexError
  | b :: rest, O => Ok (Z.lor b mask :: rest)
  | b :: rest, S i' => rest' <~ byte_or i' mask rest ;; Ok (b :: rest')
  end.

(** The [for i, b in enumerate(bools)] loop of [_pack_booleans], from index [i]. *)
Fixpoint pack_loop (i : Z) (bools : list bool) (byte_array : list Z) : result (list Z) :=
  match bools with
  | [] => Ok byte_array
  | b :: bools' =>
      byte_array' <~ (if b then
                        let byte_idx := i / 8 in
                        let bit_idx := i mod 8 in
                        byte_or (Z.to_nat byte_idx) (Z.shiftl 1 bit_idx) byte_array
                      else Ok byte_array) ;;
      pack_loop (i + 1) bools' byte_array'
  end.

Definition _pack_booleans (bools : list bool) : result pystr :=
  let bytes_needed := (len bools + 7) / 8 in
  let byte_array := repeat 0 (Z.to_nat bytes_needed) in
  byte_array <~ pack_loop 0 bools byte_array ;;
  Ok (ch "T" :: b64encode byte_array ++ ch ":" :: str_int (len bools)).

Section Codec.
Context {F : PyFloat}.

(** [all(isinstance(x, bool) for x in arr)], with the elements. *)
Fixpoint as_bools (arr : list json) : option (list bool) :=
  match arr with
  | [] => Some []
  | JBool b :: arr' => option_map (cons b) (as_bools arr')
  | _ :: _ => None
  end.

(** [all(isinstance(x, (int, float)) for x in arr)], with the elements. *)
Fixpoint as_nums (arr : list json) : option (list num) :=
  match arr with
  | [] => Some []
  | x :: arr' =>
      match as_num x, as_nums arr' with
      | Some n, Some ns => Some (n :: ns)
      | _, _ => None
      end
  end.

Definition int_in (lo hi : Z) (n : num) : bool :=
  match n with NInt z => (lo <=? z) && (z <=? hi) | NFloat _ => false end.

Definition is_int (n : num) : bool :=
  match n with NInt _ => true | NFloat _ => false end.

Definition int_of (n : num) : Z :=
  match n with NInt z => z | NFloat _ => 0 end.

(** The conversion [struct.pack] applies to an argument of the format [d]:
    an int too large for a double is a [struct.error]. *)
Definition pack_double (a : num) : result float :=
  match a with
  | NInt n => of_option StructError (float_of_int n)
  | NFloat x => Ok x
  end.

(** [struct.pack(f'{len(numbers)}d', *numbers)]: every argument is converted
    to a double first. *)
Definition pack_doubles (numbers : list num) : result (list Z) :=
  xs <~ rmap pack_double numbers ;; Ok (flat_map float_pack xs).

Definition _pack_numbers (numbers : list num) : result pystr :=
  if forallb (int_in (-128) 127) numbers then
    packed <~ pack_ints 1 (map int_of numbers) ;;
    Ok (ch "B" :: b64encode packed)
  else if forallb (int_in (-32768) 32767) numbers then
    packed <~ pack_ints 2 (map int_of numbers) ;;
    Ok (ch "H" :: b64encode packed)
  else if forallb is_int numbers then
    packed <~ pack_ints 4 (map int_of numbers) ;;
    Ok (ch "I" :: b64encode packed)
  else
    packed <~ pack_doubles numbers ;;
    Ok (ch "D" :: b64encode packed).

(** [set(xs)] under [==], and its size. *)
Definition set_of (xs : list num) : list num :=
  fold_left (fun acc x => if existsb (num_eqb x) acc then acc else acc ++ [x]) xs [].

Definition _is_sequential (numbers : list json) : result bool :=
  if len numbers <? 3 then Ok false
  else
    match as_nums numbers with
    | None => Ok false
    | Some ns =>
        deltas <~ rmap (fun p => num_sub (snd p) (fst p)) (combine ns (tl ns)) ;;
        let unique_deltas := set_of (map (fun d => num_round d 10) deltas) in
        Ok (len unique_deltas =? 1)
    end.

Definition _is_constant (values : list json) : bool :=
  match values with
  | [] => false
  | first :: _ => forallb (fun v => py_eq v first) values
  end.

(** [{"c": value, "n": count}] *)
Definition constant_record (value : json) (count : Z) : json :=
  JObj [(py "c", value); (py "n", JInt count)].

(** [{"s": values[0], "d": values[1] - values[0], "n": len(values)}] *)
Definition delta_record (values : list json) : result json :=
  match values with
  | v0 :: v1 :: _ =>
      match as_num v0, as_num v1 with
      | Some a, Some b =>
          d <~ num_sub b a ;;
          Ok (JObj [(py "s", v0); (py "d", json_of_num d); (py "n", JInt (len values))])
      | _, _ => Raise TypeError
      end
  | _ => Raise IndexError
  end.

(** One column of the columnar form. *)
Definition compress_column (compress_value : json -> M state json)
  (col_values : list json) : M state json :=
  if _is_constant col_values then
    c <- compress_value (hd JNull col_values) ;;
    ret (constant_record c (len col_values))
  else
    seq <- lift (_is_sequential col_values) ;;
    if seq then lift (delta_record col_values)
    else
      match as_bools col_values, as_nums col_values with
      | Some bools, _ =>
          if 3 <=? len col_values
          then s <- lift (_pack_booleans bools) ;; ret (JStr s)
          else items <- mapM compress_value col_values ;; ret (JArr items)
      | None, Some nums =>
          if 3 <=? len col_values
          then s <- lift (_pack_numbers nums) ;; ret (JStr s)
          else items <- mapM compress_value col_values ;; ret (JArr items)
      | None, None => items <- mapM compress_value col_values ;; ret (JArr items)
      end.

Definition _compress_array (compress_value : json -> M state json)
  (arr : list json) : M state json :=
  let elementwise := items <- mapM compress_value arr ;; ret (JArr items) in
  let objects :=
    if forallb is_dict arr then
      let first_keys := keys (fields_of (hd JNull arr)) in
      if forallb (fun item => keyset_eqb (keys (fields_of item)) first_keys) arr then
        let keys := keys (fields_of (hd JNull arr)) in
        short_keys <- mapM _get_short_key keys ;;
        columns <-
          mapM (fun orig_key =>
            col_values <-
              lift (rmap (fun item => of_option KeyError (dict_get orig_key (fields_of item)))
                      arr) ;;
            compress_column compress_value col_values)
            keys ;;
        ret (JObj [(py "a", JInt 1);
                   (py "k", JArr (map JStr short_keys));
                   (py "d", JArr columns)])
      else elementwise
    else elementwise in
  let numeric :=
    match as_nums arr with
    | Some nums =>
        seq <- lift (_is_sequential arr) ;;
        if seq then lift (delta_record arr)
        else if _is_constant arr then ret (constant_record (hd JNull arr) (len arr))
        else if 3 <=? len arr then s <- lift (_pack_numbers nums) ;; ret (JStr s)
        else objects
    | None => objects
    end in
  match arr with
  | [] => ret (JArr arr)
  | _ =>
      match as_bools arr with
      | Some bools =>
          if _is_constant arr then ret (constant_record (hd JNull arr) (len arr))
          else if 3 <=? len arr then s <- lift (_pack_booleans bools) ;; ret (JStr s)
          else numeric
      | None => numeric
      end
  end.

Definition _compress_object (compress_value : json -> M state json)
  (obj : list (pystr * json)) : M state json :=
  compressed <-
    foldM (fun compressed (kv : pystr * json) =>
      let (key, value) := kv in
      short_key <- _get_short_key key ;;
      v <- compress_value value ;;
      ret (dict_set short_key v compressed))
      obj [] ;;
  ret (JObj compressed).

(** The [str] branch of [_compress_value]. *)
Definition compress_str (value : pystr) : result json :=
  if 20 <? len value then
    bytes <~ utf8_encode value ;;
    let encoded := b64encode bytes in
    if len encoded <? len value then Ok (JStr (ch "S" :: encoded))
    else Ok (JStr value)
  else Ok (JStr value).

Fixpoint _compress_value (fuel : nat) (value : json) : M state json :=
  match fuel with
  | O => fun _ => OutOfFuel
  | S fuel' =>
      match value with
      | JObj obj => _compress_object (_compress_value fuel') obj
      | JArr arr => _compress_array (_compress_value fuel') arr
      | JNull | JBool _ => ret value
      | JInt _ | JFloat _ => ret value
      | JStr s => lift (compress_str s)
      end
  end.

Definition compress (data : json) : M state json :=
  fun _ =>
    match _compress_value (S (depth data)) data init with
    | Ok (compressed_data, st') =>
        let result := [(py "d", compressed_data)] in
        let result :=
          match key_map st' with
          | [] => result
          | _ => result ++ [(py "m", JObj (map (fun kv => (fst kv, JStr (snd kv))) (key_map st')))]
          end in
        Ok (JObj result, st')
    | Raise e => Raise e
    | OutOfFuel => OutOfFuel
    | Unmodelled => Unmodelled
    end.

Definition compress_json (data : json) : result pystr :=
  let original_str := dumps data in
  '(compressed, _) <~ compress data init ;;
  let compressed_str := dumps compressed in
  if len compressed_str <? len original_str then Ok compressed_str
  else Ok original_str.

Definition _unpack_numbers (packed_str : pystr) : result json :=
  type_char <~ of_option IndexError (nth_error packed_str 0) ;;
  packed <~ b64decode (tl packed_str) ;;
  if type_char =? ch "B" then Ok (JArr (map JInt (unpack_b packed)))
  else if type_char =? ch "H" then ns <~ unpack_h packed ;; Ok (JArr (map JInt ns))
  else if type_char =? ch "I" then ns <~ unpack_i packed ;; Ok (JArr (map JInt ns))
  else xs <~ unpack_d packed ;; Ok (JArr (map JFloat xs)).

Definition _unpack_booleans (packed_str : pystr) : result json :=
  let (part0, part1) := split_colon (tl packed_str) in
  byte_data <~ b64decode part0 ;;
  count_str <~ of_option IndexError part1 ;;
  count <~ int_of_str count_str ;;
  result <~
    rmap (fun i =>
      let byte_idx := i / 8 in
      let bit_idx := i mod 8 in
      byte <~ of_option IndexError (nth_error byte_data (Z.to_nat byte_idx)) ;;
      Ok (JBool (negb (Z.land byte (Z.shiftl 1 bit_idx) =? 0))))
      (range count) ;;
  Ok (JArr result).

Definition _decompress_object (decompress_value : json -> result json)
  (obj : list (pystr * json)) (key_map : list (pystr * pystr)) : result json :=
  decompressed <~
    fold_left (fun acc (kv : pystr * json) =>
      decompressed <~ acc ;;
      let (short_key, value) := kv in
      original_key <~ original_key key_map (JStr short_key) ;;
      v <~ decompress_value value ;;
      Ok (dict_set original_key v decompressed))
      obj (Ok []) ;;
  Ok (JObj decompressed).

(** One pass of the [for col in columns] loop of [_decompress_array]: what,
    if anything, is appended to [expanded_columns]. *)
Definition expand_column (decompress_value : json -> result json) (col : json)
  : result (list json) :=
  match col with
  | JObj fields =>
      if dict_mem (py "c") fields then
        c <~ of_option KeyError (dict_get (py "c") fields) ;;
        val <~ decompress_value c ;;
        n <~ of_option KeyError (dict_get (py "n") fields) ;;
        column <~ py_repeat val n ;;
        Ok [column]
      else if dict_mem (py "s") fields then
        start <~ of_option KeyError (dict_get (py "s") fields) ;;
        delta <~ of_option KeyError (dict_get (py "d") fields) ;;
        count <~ of_option KeyError (dict_get (py "n") fields) ;;
        column <~ delta_run start delta count ;;
        Ok [column]
      else Ok []
  | JStr s =>
      c0 <~ of_option IndexError (nth_error s 0) ;;
      if char_in c0 (py "BHIDT") then column <~ decompress_value col ;; Ok [column]
      else Ok [col]
  | _ => Ok [col]
  end.

Definition _decompress_array (decompress_value : json -> result json)
  (arr_data : list (pystr * json)) (key_map : list (pystr * pystr)) : result json :=
  short_keys <~ of_option KeyError (dict_get (py "k") arr_data) ;;
  columns <~ of_option KeyError (dict_get (py "d") arr_data) ;;
  columns <~ py_iter columns ;;
  expanded_columns <~
    fold_left (fun acc col =>
      expanded <~ acc ;;
      more <~ expand_column decompress_value col ;;
      Ok (expanded ++ more))
      columns (Ok []) ;;
  num_rows <~ match expanded_columns with
              | first :: _ => py_len first
              | [] => Ok 0
              end ;;
  result <~
    rmap (fun i =>
      short_keys <~ py_iter short_keys ;;
      obj <~
        fold_left (fun acc (js : Z * json) =>
          obj <~ acc ;;
          let (j, short_key) := js in
          original_key <~ original_key key_map short_key ;;
          column <~ of_option IndexError (nth_error expanded_columns (Z.to_nat j)) ;;
          cell <~ py_getitem column i ;;
          value <~ decompress_value cell ;;
          Ok (dict_set original_key value obj))
          (combine (range (len short_keys)) short_keys) (Ok []) ;;
      Ok (JObj obj))
      (range num_rows) ;;
  Ok (JArr result).

(** The [str] branch of [_decompress_value]: the first character is a tag. *)
Definition decompress_str (value : pystr) : result json :=
  if startswith value (ch "S") then
    bytes <~ b64decode (tl value) ;;
    text <~ utf8_decode bytes ;;
    Ok (JStr text)
  else if startswith value (ch "T") then _unpack_booleans value
  else
    c0 <~ of_option IndexError (nth_error value 0) ;;
    if char_in c0 (py "BHID") then _unpack_numbers value
    else Ok (JStr value).

Fixpoint _decompress_value (fuel : nat) (value : json) (key_map : list (pystr * pystr))
  : result json :=
  match fuel with
  | O => OutOfFuel
  | S fuel' =>
      match value with
      | JObj fields =>
          if dict_mem (py "c") fields && dict_mem (py "n") fields then
            c <~ of_option KeyError (dict_get (py "c") fields) ;;
            n <~ of_option KeyError (dict_get (py "n") fields) ;;
            indices <~ py_range n ;;
            items <~ rmap (fun _ => _decompress_value fuel' c key_map) indices ;;
            Ok (JArr items)
          else if dict_mem (py "s") fields && dict_mem (py "d") fields
                  && dict_mem (py "n") fields then
            start <~ of_option KeyError (dict_get (py "s") fields) ;;
            delta <~ of_option KeyError (dict_get (py "d") fields) ;;
            count <~ of_option KeyError (dict_get (py "n") fields) ;;
            delta_run start delta count
          else if match dict_get (py "a") fields with
                  | Some a => py_eq a (JInt 1)
                  | None => false
                  end
          then _decompress_array (fun v => _decompress_value fuel' v key_map) fields key_map
          else _decompress_object (fun v => _decompress_value fuel' v key_map) fields key_map
      | JArr items => items' <~ rmap (fun item => _decompress_value fuel' item key_map) items ;;
                      Ok (JArr items')
      | JStr s => decompress_str s
      | _ => Ok value
      end
  end.

Definition decompress (fuel : nat) (compressed : list (pystr * json)) : result json :=
  reverse_map <~ match dict_get (py "m") compressed with
                 | Some key_map => reverse_map key_map
                 | None => Ok []
                 end ;;
  d <~ of_option KeyError (dict_get (py "d") compressed) ;;
  _decompress_value fuel d reverse_map.

Definition decompress_json (fuel : nat) (compressed_str : pystr) : result json :=
  data <~ json_loads compressed_str ;;
  match data with
  | JObj fields => if dict_mem (py "d") fields then decompress fuel fields else Ok data
  | _ => Ok data
  end.

End Codec.
End CompressedReadable.

(* ================================================================== *)
(** * Vocabulary of the statements *)
(* ================================================================== *)

(** A code point of Unicode text: in range and not a surrogate. *)
Definition is_scalar (c : Z) : bool :=
  (0 <=? c) && (c <? 1114112) && negb ((55296 <=? c) && (c <=? 57343)).

Definition valid_text (s : pystr) : Prop := forallb is_scalar s = true.

Definition is_byte (b : Z) : Prop := 0 <= b < 256.

(** Bit [j] of a byte buffer: eight per byte, least significant first. *)
Definition bit_of (bytes : list Z) (j : Z) : bool :=
  Z.testbit (nth (Z.to_nat (j / 8)) bytes 0) (j mod 8).

(** A character of base64 text: ASCII, and not the colon that
    [_pack_booleans] writes before the count. *)
Definition b64_text_char (c : Z) : Prop := (c <? 128) = true /\ (c =? ch ":") = false.

(** The signed range of a [size]-byte integer field. *)
Definition fits (size : nat) (z : Z) : Prop :=
  - 2 ^ (8 * Z.of_nat size - 1) <= z < 2 ^ (8 * Z.of_nat size - 1).

(** Successive differences all equal to the first one. *)
Definition is_progression (zs : list Z) : bool :=
  match zs with
  | z0 :: z1 :: _ => forallb (fun p => snd p - fst p =? z1 - z0) (combine zs (tl zs))
  | _ => true
  end.

(** A result that Python itself can produce: a value or an exception. *)
Definition python_outcome {A} (r : result A) : Prop :=
  match r with
  | Ok _ | Raise _ => True
  | OutOfFuel | Unmodelled => False
  end.

(** A stateful computation that ends in a Python outcome from every state. *)
Definition runs {S A} (c : M S A) : Prop := forall st, python_outcome (c st).

(** A state property kept by a computation whenever it returns. *)
Definition preserves {S A} (P : S -> Prop) (c : M S A) : Prop :=
  forall st a st', P st -> c st = Ok (a, st') -> P st'.

(** Under threshold [t]: every key of [key_map] is longer than [t]. *)
Definition long_keys (t : Z) (st : JsonCompressor.state) : Prop :=
  JsonCompressor.min_key_length st = t /\
  forall k, In k (keys (JsonCompressor.key_map st)) -> t < len k.

Section Shapes.
Context {F : PyFloat}.

(** The columnar marker of [json_compressor.py]: ["t": "a"]. *)
Definition columnar_t (node : json) : Prop :=
  exists fields, node = JObj fields /\ dict_get (py "t") fields = Some (JStr (py "a")).

(** The columnar marker of [compressed_readable.py]: ["a": 1]. *)
Definition columnar_a (node : json) : Prop :=
  exists fields, node = JObj fields /\ dict_get (py "a") fields = Some (JInt 1).

(** An array of objects that all have the key set of the first one. *)
Definition homogeneous (arr : list json) : Prop :=
  forallb is_dict arr = true /\
  forallb (fun item => keyset_eqb (keys (fields_of item)) (keys (fields_of (hd JNull arr))))
    arr = true.

(** Fuel above the nesting depth of every element. *)
Definition within_fuel (fuel : nat) (arr : list json) : Prop :=
  Forall (fun v => (depth v < fuel)%nat) arr.

(** What [compress_json] does with the envelope once [compress] returned. *)
Definition smaller_of (v env : json) (t : pystr) : Prop :=
  len t <= len (dumps v) /\
  (len (dumps env) < len (dumps v) -> t = dumps env) /\
  (len (dumps v) <= len (dumps env) -> t = dumps v).

(** Every column named by [short_keys] exists in [columns]. *)
Definition has_columns (short_keys : list pystr) (columns : list (pystr * list json)) : Prop :=
  forall sk, In sk short_keys -> exists col, dict_get sk columns = Some col.

(** The values [_compress_array] hands to [self._compress_value]: the
    elements, and the fields of the elements that are objects. *)
Definition reached (arr : list json) (v : json) : Prop :=
  In v arr \/ exists item k, In item arr /\ dict_get k (fields_of item) = Some v.

Definition returns_on (P : json -> Prop) (cv : json -> M JsonCompressor.state json) : Prop :=
  forall v st, P v -> exists r st', cv v st = Ok (r, st').

(** Nesting of objects on a path from the root; arrays do not count. *)
Fixpoint dict_depth (v : json) : nat :=
  match v with
  | JArr items => fold_right (fun x m => Nat.max (dict_depth x) m) O items
  | JObj fields => S (fold_right (fun kv m => Nat.max (dict_depth (snd kv)) m) O fields)
  | _ => O
  end.

(** A decoding step that never adds object nesting. *)
Definition flattening (dec : json -> result json) : Prop :=
  forall v r, dec v = Ok r -> (dict_depth r <= dict_depth v)%nat.

(** An all-integer list that is neither constant nor arithmetic, with one
    element above 2^31 - 1. *)
Definition wide_ints : list json := [JInt 0; JInt 1; JInt 3000000000].

End Shapes.

(** User data with a field [d], small enough for the size fallback. *)
Definition user_d : @json IntegerOnly := JObj [(py "d", JInt 1)].

(** A five-character string that the encoder passes through, inside an
    array whose other element makes the envelope the shorter text. *)
Definition tagged_like : @json IntegerOnly :=
  JArr [JArr (map JInt (range 20)); JStr (py "SQUJD")].

(* ------------------------------------------------------------------ *)
(** ** Dictionaries, restorable data and the later variants *)
(* ------------------------------------------------------------------ *)

(** The position of a character in the base62 alphabet (62 when absent). *)
Fixpoint index_of (c : Z) (letters : pystr) : Z :=
  match letters with
  | [] => 0
  | a :: letters' => if c =? a then 0 else 1 + index_of c letters'
  end.

(** The number a base62 numeral stands for, most significant digit first. *)
Definition base62_value (s : pystr) : Z :=
  fold_left (fun acc c => 62 * acc + index_of c base62_chars) s 0.

(** The dictionary as [_get_short_key] grows it: the codes are the numerals
    of 0, 1, 2, ... in the order the keys arrived, the counter is the number
    of entries, and no key is listed twice. *)
Definition numbered (key_map : list (pystr * pystr)) (key_counter : Z) : Prop :=
  key_counter = len key_map /\
  map snd key_map = map _encode_base62 (range (len key_map)) /\
  NoDup (keys key_map).

(** The ["m"] field of an envelope, as [compress] writes it. *)
Definition mapping_of {F : PyFloat} (key_map : list (pystr * pystr)) : json :=
  JObj (map (fun kv => (fst kv, JStr (snd kv))) key_map).

(** The reverse mapping [decompress] derives from an envelope. *)
Definition reverse_of {F : PyFloat} (env : json) : result (list (pystr * pystr)) :=
  match dict_get (py "m") (fields_of env) with
  | Some key_map => reverse_map key_map
  | None => Ok []
  end.

Definition cr_numbered (st : CompressedReadable.state) : Prop :=
  numbered (CompressedReadable.key_map st) (CompressedReadable.key_counter st).

Fixpoint nodupb (l : list pystr) : bool :=
  match l with
  | [] => true
  | k :: l' => negb (str_mem k l') && nodupb l'
  end.

Fixpoint strs_eqb (a b : list pystr) : bool :=
  match a, b with
  | [], [] => true
  | x :: a', y :: b' => str_eqb x y && strs_eqb a' b'
  | _, _ => false
  end.

Section Restorable.
Context {F : PyFloat}.

(** [p] holds of a value and of every value nested in it. *)
Fixpoint every (p : json -> bool) (v : json) : bool :=
  p v &&
  match v with
  | JArr items => forallb (every p) items
  | JObj fields => forallb (fun kv => every p (snd kv)) fields
  | _ => true
  end.

(** The keys of all the objects nested in a value. *)
Fixpoint all_keys (v : json) : list pystr :=
  match v with
  | JArr items => flat_map all_keys items
  | JObj fields => flat_map (fun kv => fst kv :: all_keys (snd kv)) fields
  | _ => []
  end.

(** The name [_get_short_key] gives a key that the dictionary of [st]
    already knows: the key itself up to the threshold, its code above. *)
Definition short_name (st : JsonCompressor.state) (k : pystr) : pystr :=
  if len k <=? JsonCompressor.min_key_length st then k
  else match dict_get k (JsonCompressor.key_map st) with
       | Some code => code
       | None => k
       end.

(** No two keys of the data are given the same name. *)
Definition distinct_names (st : JsonCompressor.state) (data : json) : bool :=
  let ks := all_keys data in
  forallb (fun k1 =>
    forallb (fun k2 => implb (str_eqb (short_name st k1) (short_name st k2)) (str_eqb k1 k2))
      ks) ks.

(** An object no key of which is listed twice (every Python dict is one). *)
Definition unique_keys (v : json) : bool :=
  match v with
  | JObj fields => nodupb (keys fields)
  | _ => true
  end.

(** An object of the data that carries the columnar marker once its keys
    are renamed: a field named [t] whose value is the string [a]. *)
Definition looks_columnar (st : JsonCompressor.state) (v : json) : bool :=
  match v with
  | JObj fields =>
      existsb (fun kv => str_eqb (short_name st (fst kv)) (py "t")
                         && match snd kv with
                            | JStr s => str_eqb s (py "a")
                            | _ => false
                            end) fields
  | _ => false
  end.

(** The arrays [_compress_array] turns into columns: three or more objects
    with the key set of the first. *)
Definition columnar_input (v : json) : bool :=
  match v with
  | JArr arr =>
      forallb is_dict arr
      && forallb (fun item => keyset_eqb (keys (fields_of item))
                                (keys (fields_of (hd JNull arr)))) arr
      && (3 <=? len arr)
  | _ => false
  end.

(** Rows with at least one field, all listing their keys in the order of
    the first row. *)
Definition ordered_rows (v : json) : bool :=
  match v with
  | JArr arr =>
      negb (len (fields_of (hd JNull arr)) =? 0)
      && forallb (fun item => strs_eqb (keys (fields_of item))
                                (keys (fields_of (hd JNull arr)))) arr
  | _ => true
  end.

(** What the decoder of [json_compressor.py] needs of every nested value
    to give it back. *)
Definition restorable (st : JsonCompressor.state) (v : json) : bool :=
  unique_keys v && negb (looks_columnar st v)
  && (if columnar_input v then ordered_rows v else true).

End Restorable.

(** [st'] is a later state of the same run: same threshold, and every entry of
    the dictionary of [st] is still there. *)
Definition extends (st st' : JsonCompressor.state) : Prop :=
  JsonCompressor.min_key_length st' = JsonCompressor.min_key_length st /\
  forall k code, dict_get k (JsonCompressor.key_map st) = Some code ->
                 dict_get k (JsonCompressor.key_map st') = Some code.

(** The dictionary invariant of [json_compressor.py]; the attribute
    [reverse_key_map] mirrors [key_map]. *)
Definition jc_numbered (st : JsonCompressor.state) : Prop :=
  numbered (JsonCompressor.key_map st) (JsonCompressor.key_counter st) /\
  JsonCompressor.reverse_key_map st
  = map (fun kv => (snd kv, fst kv)) (JsonCompressor.key_map st).

Section Restoring.
Context {F : PyFloat}.

(** [c] decodes to [v] under the reverse mapping [rev], whatever fuel above
    the depth of [v] the decoder is given. *)
Definition restores (rev : list (pystr * pystr)) (c v : json) : Prop :=
  forall fd, (depth v < fd)%nat -> JsonCompressor._decompress_value fd c rev = Ok v.

(** No key of the data short enough to be kept as it is doubles as a code
    of the dictionary. *)
Definition no_code_clash (st : JsonCompressor.state) (data : json) : bool :=
  forallb (fun k => negb ((len k <=? JsonCompressor.min_key_length st)
                          && str_mem k (map snd (JsonCompressor.key_map st))))
    (all_keys data).

(** The cell of column [k] that row [item] contributes. *)
Definition cell_of (rev : list (pystr * pystr)) (k : pystr) (item c : json) : Prop :=
  exists v, dict_get k (fields_of item) = Some v /\ restores rev c v.

End Restoring.

(** In the final state [stf], key [k] has the name [s], is in the dictionary
    when it is long, and is no code of the dictionary when it is short. *)
Definition named (stf : JsonCompressor.state) (k s : pystr) : Prop :=
  short_name stf k = s /\
  (len k <= JsonCompressor.min_key_length stf ->
   ~ In k (map snd (JsonCompressor.key_map stf))) /\
  (len k <= JsonCompressor.min_key_length stf
   \/ dict_get k (JsonCompressor.key_map stf) = Some s).

(** The sample of the module's own [__main__] block. *)
Definition sample_data : @json IntegerOnly :=
  let user (i : Z) (name email : pystr) (active : bool) :=
    JObj [(py "user_id", JInt i); (py "username", JStr name);
          (py "email", JStr email); (py "active", JBool active)] in
  JObj [(py "users",
         JArr [user 1 (py "alice") (py "alice@example.com") true;
               user 2 (py "bob") (py "bob@example.com") false;
               user 3 (py "charlie") (py "charlie@example.com") true]);
        (py "metadata",
         JObj [(py "total_count", JInt 3); (py "page_number", JInt 1);
               (py "items_per_page", JInt 10)])].


Section PlainData.
Context {F : PyFloat}.


End PlainData.

(** ** versions/v26.py: common prefix of a string column *)

Module V26.

(** [s.startswith(prefix)] *)
Fixpoint startswith (s prefix : pystr) {struct prefix} : bool :=
  match prefix, s with
  | [], _ => true
  | a :: prefix', b :: s' => (a =? b) && startswith s' prefix'
  | _ :: _, [] => false
  end.

(** The loop [while not s.startswith(prefix): prefix = prefix[:-1]; if not
    prefix: return].  [None] is the early return.  Every pass removes one
    character, so the length of the prefix bounds the number of passes. *)
Fixpoint shrink (fuel : nat) (s prefix : pystr) : option pystr :=
  if startswith s prefix then Some prefix
  else match fuel with
       | O => None
       | S fuel' =>
           let prefix := removelast prefix in
           match prefix with
           | [] => None
           | _ => shrink fuel' s prefix
           end
       end.

(** The loop [for s in strings[1:]]. *)
Fixpoint scan (rest : list pystr) (prefix : pystr) : option pystr :=
  match rest with
  | [] => Some prefix
  | s :: rest' =>
      match shrink (length prefix) s prefix with
      | Some prefix => scan rest' prefix
      | None => None
      end
  end.

Definition _common_prefix (strings : list pystr) : pystr * list pystr :=
  if (len strings =? 0) || (len strings <? 2) then ([], strings)
  else
    match scan (tl strings) (hd [] strings) with
    | None => ([], strings)
    | Some prefix =>
        if 3 <=? len prefix
        then (prefix, map (fun s => skipn (length prefix) s) strings)
        else ([], strings)
    end.

(** [sum(len(s) for s in strings)] *)
Definition total_len (strings : list pystr) : Z :=
  fold_right (fun s acc => len s + acc) 0 strings.

(** The prefix step of [_compress_array] on an all-string array: the record
    [{"p": prefix, "x": suffixes}] when a prefix was found and the record
    has fewer characters, nothing otherwise. *)
Definition prefix_record (arr : list pystr) : option (pystr * list pystr) :=
  let (prefix, suffixes) := _common_prefix arr in
  if negb (len prefix =? 0) && (total_len suffixes + len prefix <? total_len arr)
  then Some (prefix, suffixes)
  else None.

(** The decoder's [[v["p"] + suffix for suffix in v["x"]]]. *)
Definition expand_prefix (p : pystr) (x : list pystr) : list pystr :=
  map (fun suffix => p ++ suffix) x.

End V26.

Section IntTables.
Context {F : PyFloat}.

(** The int a row holds under key [k]. *)
Definition cell_int (k : pystr) (item : json) : Z :=
  match dict_get k (fields_of item) with
  | Some (JInt z) => z
  | _ => 0
  end.

(** A row of a table of ints: an object with the keys [ks], in that order,
    whose values are ints in the signed 32-bit range. *)
Definition int_row (ks : list pystr) (item : json) : bool :=
  match item with
  | JObj fs =>
      strs_eqb (keys fs) ks
      && forallb (fun kv => match snd kv with
                            | JInt z => (- 2147483648 <=? z) && (z <=? 2147483647)
                            | _ => false
                            end) fs
  | _ => false
  end.

(** A table of ints: at least one row, at least one key, no key twice, and
    every row an [int_row] for the keys of the first. *)
Definition int_table (arr : list json) : bool :=
  let ks := keys (fields_of (hd JNull arr)) in
  negb (len arr =? 0) && negb (len ks =? 0) && nodupb ks && forallb (int_row ks) arr.

End IntTables.

Section FlatObjects.
Context {F : PyFloat}.

(** A value without members: [None], a bool, a number or a string. *)
Definition is_leaf (v : json) : bool :=
  match v with
  | JArr _ | JObj _ => false
  | _ => true
  end.

(** An object without nesting: no key twice, every value a leaf. *)
Definition flat_object (fs : list (pystr * json)) : bool :=
  nodupb (keys fs) && forallb (fun kv => is_leaf (snd kv)) fs.

End FlatObjects.

(* ================================================================== *)
(** * Properties *)
(* ================================================================== *)

(** ** Monadic bookkeeping *)

Lemma rbind_ok A B (c : result A) (k : A -> result B) b :
  rbind c k = Ok b -> exists a, c = Ok a /\ k a = Ok b.
Proof.
  destruct c; simpl; intros H; try discriminate.
  exists a; auto.
Qed.

Lemma bind_ok S A B (c : M S A) (k : A -> M S B) st b st' :
  bind c k st = Ok (b, st') ->
  exists a st1, c st = Ok (a, st1) /\ k a st1 = Ok (b, st').
Proof.
  unfold bind. destruct (c st) as [[a st1]| | |]; intros H; try discriminate.
  exists a, st1; auto.
Qed.

Lemma lift_ok S A (r : result A) (st : S) a st' :
  lift r st = Ok (a, st') -> r = Ok a /\ st' = st.
Proof.
  unfold lift. destruct r; simpl; intros H; inversion H; auto.
Qed.

Lemma preserves_ret S A (P : S -> Prop) (a : A) : preserves P (ret a).
Proof. intros st a' st' HP H. inversion H; subst; auto. Qed.

Lemma preserves_lift S A (P : S -> Prop) (r : result A) : preserves P (lift r).
Proof. intros st a st' HP H. apply lift_ok in H as [_ ->]. auto. Qed.

Lemma preserves_bind S A B (P : S -> Prop) (c : M S A) (k : A -> M S B) :
  preserves P c -> (forall a, preserves P (k a)) -> preserves P (bind c k).
Proof.
  intros Hc Hk st b st' HP H.
  apply bind_ok in H as (a & st1 & H1 & H2).
  eapply Hk; [eapply Hc|]; eauto.
Qed.

Lemma preserves_mapM S A B (P : S -> Prop) (f : A -> M S B) l :
  (forall a, In a l -> preserves P (f a)) -> preserves P (mapM f l).
Proof.
  induction l as [|a l IH]; intros Hf; simpl.
  - apply preserves_ret.
  - apply preserves_bind; [apply Hf; left; auto|].
    intros b. apply preserves_bind; [apply IH; intros; apply Hf; right; auto|].
    intros bs. apply preserves_ret.
Qed.

Lemma preserves_foldM S A B (P : S -> Prop) (f : B -> A -> M S B) l :
  (forall b a, In a l -> preserves P (f b a)) -> forall b, preserves P (foldM f l b).
Proof.
  induction l as [|a l IH]; intros Hf b; simpl.
  - apply preserves_ret.
  - apply preserves_bind; [apply Hf; left; auto|].
    intros b'. apply IH. intros; apply Hf; right; auto.
Qed.

(** ** Strings and dictionaries *)

Lemma str_eqb_eq s t : str_eqb s t = true <-> s = t.
Proof.
  revert t; induction s as [|a s IH]; intros [|b t]; simpl; split; intros H;
    try discriminate; auto.
  - apply andb_true_iff in H as [H1 H2]. apply Z.eqb_eq in H1. apply IH in H2. congruence.
  - inversion H; subst. rewrite Z.eqb_refl. simpl. apply IH; auto.
Qed.

Lemma str_eqb_refl s : str_eqb s s = true.
Proof. apply str_eqb_eq; auto. Qed.

Lemma str_eqb_neq s t : str_eqb s t = false <-> s <> t.
Proof.
  split; intros H.
  - intros E. apply str_eqb_eq in E. congruence.
  - destruct (str_eqb s t) eqn:E; auto. apply str_eqb_eq in E. contradiction.
Qed.

Lemma dict_get_set_same A k (v : A) d : dict_get k (dict_set k v d) = Some v.
Proof.
  induction d as [|[k' v'] d IH]; simpl.
  - rewrite str_eqb_refl; auto.
  - destruct (str_eqb k k') eqn:E; simpl; rewrite E; auto.
Qed.

Lemma dict_get_set_other A k k' (v : A) d :
  k <> k' -> dict_get k (dict_set k' v d) = dict_get k d.
Proof.
  intros Hne. induction d as [|[k0 v0] d IH]; simpl.
  - apply str_eqb_neq in Hne. rewrite Hne; auto.
  - destruct (str_eqb k' k0) eqn:E; simpl.
    + apply str_eqb_eq in E; subst. apply str_eqb_neq in Hne. rewrite Hne; auto.
    + destruct (str_eqb k k0); auto.
Qed.

Lemma dict_get_in_keys A k (d : list (pystr * A)) :
  str_mem k (keys d) = true -> exists v, dict_get k d = Some v.
Proof.
  induction d as [|[k' v'] d IH]; simpl; intros H; try discriminate.
  destruct (str_eqb k k') eqn:E; simpl in *; eauto.
Qed.

Lemma dict_get_In A k (d : list (pystr * A)) v : dict_get k d = Some v -> In (k, v) d.
Proof.
  induction d as [|[k' v'] d IH]; simpl; intros H; try discriminate.
  destruct (str_eqb k k') eqn:E.
  - apply str_eqb_eq in E. inversion H; subst. left; auto.
  - right; auto.
Qed.

Lemma str_mem_In k ks : str_mem k ks = true <-> In k ks.
Proof.
  unfold str_mem. rewrite existsb_exists. split.
  - intros (x & Hx & E). apply str_eqb_eq in E; subst; auto.
  - intros H. exists k; split; auto. apply str_eqb_refl.
Qed.

Lemma dict_set_keys A k (v : A) d k' :
  In k' (keys (dict_set k v d)) <-> k' = k \/ In k' (keys d).
Proof.
  induction d as [|[k0 v0] d IH]; simpl.
  - intuition.
  - destruct (str_eqb k k0) eqn:E; simpl.
    + apply str_eqb_eq in E; subst. intuition.
    + rewrite IH. intuition.
Qed.

Lemma in_keys_get A k (d : list (pystr * A)) :
  In k (keys d) -> exists v, dict_get k d = Some v.
Proof. intros H. apply dict_get_in_keys. apply str_mem_In; auto. Qed.

Lemma get_in_keys A k (d : list (pystr * A)) v : dict_get k d = Some v -> In k (keys d).
Proof. intros H. apply dict_get_In in H. unfold keys. apply (in_map fst) in H. auto. Qed.

(** ** Totality helpers *)

Lemma mapM_total S A B (f : A -> M S B) l :
  (forall a st, In a l -> exists b st', f a st = Ok (b, st')) ->
  forall st, exists bs st', mapM f l st = Ok (bs, st') /\ length bs = length l.
Proof.
  induction l as [|a l IH]; intros Hf st; simpl.
  - exists [], st; auto.
  - destruct (Hf a st) as (b & st1 & Hb); [left; auto|].
    destruct (IH (fun a st H => Hf a st (or_intror H)) st1) as (bs & st2 & Hbs & Hlen).
    exists (b :: bs), st2. unfold bind. rewrite Hb, Hbs. simpl. auto.
Qed.

Lemma foldM_total S A B (I : B -> Prop) (f : B -> A -> M S B) l :
  (forall b a st, In a l -> I b -> exists b' st', f b a st = Ok (b', st') /\ I b') ->
  forall b st, I b -> exists b' st', foldM f l b st = Ok (b', st') /\ I b'.
Proof.
  induction l as [|a l IH]; intros Hf b st Hb; simpl.
  - exists b, st; auto.
  - destruct (Hf b a st) as (b1 & st1 & H1 & Hb1); [left; auto|auto|].
    destruct (IH (fun b a st H => Hf b a st (or_intror H)) b1 st1 Hb1) as (b2 & st2 & H2 & Hb2).
    exists b2, st2. unfold bind. rewrite H1. auto.
Qed.

Lemma rmap_total A B (f : A -> result B) l :
  (forall a, In a l -> exists b, f a = Ok b) -> exists bs, rmap f l = Ok bs.
Proof.
  induction l as [|a l IH]; intros Hf; simpl.
  - eauto.
  - destruct (Hf a) as (b & Hb); [left; auto|].
    destruct IH as (bs & Hbs); [intros; apply Hf; right; auto|].
    rewrite Hb, Hbs. simpl. eauto.
Qed.

Section DepthFacts.
Context {F : PyFloat}.

Lemma depth_item items v : In v items -> (depth v < depth (JArr items))%nat.
Proof.
  simpl. induction items as [|x items IH]; simpl; intros H; [contradiction|].
  destruct H as [->|H]; [lia|]. specialize (IH H). lia.
Qed.

Lemma depth_field fields k v : In (k, v) fields -> (depth v < depth (JObj fields))%nat.
Proof.
  simpl. induction fields as [|x fields IH]; simpl; intros H; [contradiction|].
  destruct H as [->|H]; [simpl; lia|]. specialize (IH H). lia.
Qed.

Lemma homogeneous_get arr item k :
  homogeneous arr -> In item arr -> In k (keys (fields_of (hd JNull arr))) ->
  exists v, dict_get k (fields_of item) = Some v.
Proof.
  intros [_ H] Hin Hk. rewrite forallb_forall in H. specialize (H item Hin).
  unfold keyset_eqb in H. apply andb_true_iff in H as [_ H].
  rewrite forallb_forall in H. specialize (H k Hk).
  apply dict_get_in_keys; auto.
Qed.

End DepthFacts.

(* ------------------------------------------------------------------ *)
(** ** json_compressor.py: the key dictionary and the columnar trigger *)
(* ------------------------------------------------------------------ *)

Lemma bind_run S A B (c : M S A) (k : A -> M S B) st a st1 :
  c st = Ok (a, st1) -> bind c k st = k a st1.
Proof. intros H. unfold bind. rewrite H. reflexivity. Qed.

Arguments bind_run {S A B c} k {st a st1} _.

Section BaselineProperties.
Context {F : PyFloat}.

Lemma jc_get_short_key_total k (st : JsonCompressor.state) :
  exists r st', JsonCompressor._get_short_key k st = Ok (r, st').
Proof.
  unfold JsonCompressor._get_short_key.
  destruct (len k <=? _); eauto.
  destruct (dict_get k _); eauto.
Qed.

Lemma columns0_has_columns short_keys (acc : list (pystr * list json)) :
  forall sk, In sk short_keys \/ In sk (keys acc) ->
  exists col, dict_get sk (fold_left (fun cols sk => dict_set sk [] cols) short_keys acc)
              = Some col.
Proof.
  revert acc. induction short_keys as [|k ks IH]; intros acc sk H; simpl.
  - destruct H as [[]|H]. apply in_keys_get; auto.
  - apply IH. destruct H as [[->|H]|H]; auto.
    + right. apply dict_set_keys; auto.
    + right. apply dict_set_keys; auto.
Qed.

Lemma column_append_total sk value short_keys columns :
  has_columns short_keys columns -> In sk short_keys ->
  exists columns', JsonCompressor.column_append sk value columns = Ok columns'
                   /\ has_columns short_keys columns'.
Proof.
  intros Hc Hin. unfold JsonCompressor.column_append.
  destruct (Hc sk Hin) as (col & ->). simpl.
  eexists; split; eauto.
  intros k Hk. destruct (list_eq_dec Z.eq_dec k sk) as [->|Hne].
  - rewrite dict_get_set_same; eauto.
  - rewrite dict_get_set_other; auto.
Qed.

Lemma jc_regular_total cv arr st :
  returns_on (reached arr) cv ->
  exists items st', bind (mapM cv arr) (fun items => ret (JArr items)) st = Ok (JArr items, st').
Proof.
  intros Hcv.
  destruct (@mapM_total _ _ _ cv arr) with (st := st) as (bs & st' & H & _).
  { intros a st0 Ha. apply Hcv. left; auto. }
  exists bs, st'. unfold bind. rewrite H. reflexivity.
Qed.

(** With at least three objects of one key set the columnar form is built. *)
Lemma jc_compress_array_columnar cv arr st :
  returns_on (reached arr) cv -> homogeneous arr -> 3 <= len arr ->
  exists node st', JsonCompressor._compress_array cv arr st = Ok (node, st')
                   /\ columnar_t node.
Proof.
  intros Hcv Hhom Hlen.
  destruct arr as [|first rest]; [unfold len in Hlen; simpl in Hlen; lia|].
  unfold JsonCompressor._compress_array. cbv beta match zeta.
  assert (Hfirst : hd JNull (first :: rest) = first) by auto.
  set (arr := first :: rest) in *.
  destruct Hhom as [Hd Hk]. rewrite Hd.
  rewrite Hfirst in Hk. rewrite Hk.
  apply Z.leb_le in Hlen. rewrite Hlen.
  set (ks := keys (fields_of first)).
  destruct (@mapM_total _ _ _ JsonCompressor._get_short_key ks) with (st := st)
    as (sks & st1 & Hsks & Hl).
  { intros; apply jc_get_short_key_total. }
  unfold bind at 1. rewrite Hsks.
  set (columns0 := fold_left _ sks []).
  assert (H0 : has_columns sks columns0).
  { intros sk Hsk. apply columns0_has_columns; auto. }
  match goal with
  | |- context [bind (foldM ?f arr columns0)] =>
      destruct (@foldM_total _ _ _ (has_columns sks) f arr) with (b := columns0) (st := st1)
        as (cols & st2 & Hcols & Hinv); auto
  end.
  { intros cols item st0 Hitem Hc.
    apply foldM_total; auto.
    intros cols' [ok sk] st3 Hin Hc'.
    assert (Hok : In ok ks) by (eapply in_combine_l; eauto).
    assert (Hsk : In sk sks) by (eapply in_combine_r; eauto).
    assert (Hhom : homogeneous arr) by (split; auto; rewrite Hfirst; auto).
    destruct (@homogeneous_get _ arr item ok Hhom Hitem) as (v & Hv).
    { rewrite Hfirst; auto. }
    destruct (Hcv v st3) as (value & st4 & Hvalue).
    { right. exists item, ok; auto. }
    destruct (@column_append_total sk value sks cols') as (cols'' & Happ & Hc''); auto.
    exists cols'', st4. split; auto.
    unfold bind, lift. rewrite Hv. simpl. rewrite Hvalue. rewrite Happ. reflexivity. }
  unfold bind at 1. rewrite Hcols.
  destruct (@rmap_total _ _
              (fun sk => col <~ of_option KeyError (dict_get sk cols) ;; Ok (JArr col)) sks)
    as (d & Hd').
  { intros sk Hsk. destruct (Hinv sk Hsk) as (col & ->). simpl. eauto. }
  unfold bind, lift. rewrite Hd'. simpl.
  eexists _, _. split; [reflexivity|].
  eexists; split; [reflexivity|]. reflexivity.
Qed.

(** With fewer than three elements the result is a plain array. *)
Lemma jc_compress_array_short cv arr st :
  returns_on (reached arr) cv -> len arr < 3 ->
  exists items st', JsonCompressor._compress_array cv arr st = Ok (JArr items, st').
Proof.
  intros Hcv Hlen.
  destruct arr as [|first rest]; [exists [], st; reflexivity|].
  unfold JsonCompressor._compress_array. cbv beta match zeta.
  set (arr := first :: rest) in *.
  apply Z.ltb_lt in Hlen. rewrite Z.ltb_antisym in Hlen.
  apply negb_true_iff in Hlen. rewrite Hlen.
  destruct (forallb is_dict arr); [destruct (forallb _ arr)|];
    apply jc_regular_total; auto.
Qed.

Lemma jc_compress_array_total cv arr st :
  returns_on (reached arr) cv ->
  exists node st', JsonCompressor._compress_array cv arr st = Ok (node, st').
Proof.
  intros Hcv.
  destruct (3 <=? len arr) eqn:Hlen.
  2:{ destruct (@jc_compress_array_short cv arr st) as (i & s & H); auto.
      { apply Z.leb_gt in Hlen; auto. }
      exists (JArr i), s. exact H. }
  destruct arr as [|first rest]; [exists (JArr []), st; reflexivity|].
  pose proof (@jc_compress_array_columnar cv (first :: rest) st) as Hcol.
  unfold JsonCompressor._compress_array in *. cbv beta match zeta in *.
  set (arr := first :: rest) in *.
  destruct (forallb is_dict arr) eqn:Hd;
    [destruct (forallb (fun item => keyset_eqb (keys (fields_of item))
                                      (keys (fields_of first))) arr) eqn:Hk|].
  - destruct Hcol as (node & st' & H & _); auto.
    { split; auto. }
    { apply Z.leb_le; auto. }
    rewrite Hlen in H. rewrite Hlen. exists node, st'. exact H.
  - destruct (@jc_regular_total cv arr st Hcv) as (i & s & H). exists (JArr i), s. exact H.
  - destruct (@jc_regular_total cv arr st Hcv) as (i & s & H). exists (JArr i), s. exact H.
Qed.

Lemma jc_compress_object_total cv obj st :
  (forall k v st, In (k, v) obj -> exists r st', cv v st = Ok (r, st')) ->
  exists node st', JsonCompressor._compress_object cv obj st = Ok (node, st').
Proof.
  intros Hcv. unfold JsonCompressor._compress_object.
  match goal with
  | |- context [foldM ?f obj []] =>
      destruct (@foldM_total _ _ _ (fun _ => True) f obj) with (b := @nil (pystr * json))
        (st := st) as (c & st' & Hc & _); auto
  end.
  { intros b [k v] st0 Hin _.
    destruct (jc_get_short_key_total k st0) as (sk & st1 & Hsk).
    destruct (Hcv k v st1 Hin) as (r & st2 & Hr).
    exists (dict_set sk r b), st2. split; auto.
    rewrite (bind_run _ Hsk), (bind_run _ Hr). reflexivity. }
  rewrite (bind_run _ Hc). eexists _, _. reflexivity.
Qed.

(** The baseline encoder never raises: with fuel above the nesting depth it
    returns. *)
Lemma jc_compress_value_total fuel :
  forall v st, (depth v < fuel)%nat ->
  exists r st', JsonCompressor._compress_value fuel v st = Ok (r, st').
Proof.
  induction fuel as [|fuel IH]; intros v st Hd; [lia|].
  destruct v; simpl; try (eexists _, _; reflexivity).
  - apply jc_compress_array_total.
    intros v st0 [Hin|(item & k & Hin & Hget)]; apply IH.
    + apply depth_item in Hin. lia.
    + apply depth_item in Hin. destruct item; simpl in Hget; try discriminate.
      apply dict_get_In in Hget. apply depth_field in Hget. lia.
  - apply jc_compress_object_total.
    intros k v st0 Hin. apply IH. apply depth_field in Hin. lia.
Qed.

End BaselineProperties.

(** *** The dictionary only holds keys longer than the threshold *)

Section BaselineDictionary.
Context {F : PyFloat}.

Lemma jc_get_short_key_long_keys t k :
  preserves (long_keys t) (JsonCompressor._get_short_key k).
Proof.
  intros st r st' [Ht Hk] H. unfold JsonCompressor._get_short_key in H.
  destruct (len k <=? JsonCompressor.min_key_length st) eqn:E.
  - inversion H; subst; split; auto.
  - destruct (dict_get k (JsonCompressor.key_map st)).
    + inversion H; subst; split; auto.
    + inversion H; subst; clear H. split; simpl; auto.
      intros k' Hk'. apply dict_set_keys in Hk' as [->|Hk']; auto.
      apply Z.leb_gt in E. auto.
Qed.

Lemma jc_compress_array_preserves (P : JsonCompressor.state -> Prop) cv arr :
  (forall k, preserves P (JsonCompressor._get_short_key k)) ->
  (forall v, preserves P (cv v)) ->
  preserves P (JsonCompressor._compress_array cv arr).
Proof.
  intros Hk Hcv. unfold JsonCompressor._compress_array.
  assert (Hreg : preserves P (bind (mapM cv arr) (fun items => ret (JArr items)))).
  { apply preserves_bind; [apply preserves_mapM; auto|intros; apply preserves_ret]. }
  destruct arr as [|first rest]; [apply preserves_ret|].
  cbv beta match zeta. set (arr := first :: rest) in *.
  destruct (forallb is_dict arr); auto.
  destruct (forallb _ arr); auto.
  destruct (3 <=? len arr); auto.
  apply preserves_bind; [apply preserves_mapM; auto|]. intros sks.
  apply preserves_bind.
  { apply preserves_foldM. intros cols item _.
    apply preserves_foldM. intros cols' [ok sk] _.
    apply preserves_bind; [apply preserves_lift|]. intros v.
    apply preserves_bind; [apply Hcv|]. intros value. apply preserves_lift. }
  intros cols. apply preserves_bind; [apply preserves_lift|]. intros d.
  apply preserves_ret.
Qed.

Lemma jc_compress_object_preserves (P : JsonCompressor.state -> Prop) cv obj :
  (forall k, preserves P (JsonCompressor._get_short_key k)) ->
  (forall v, preserves P (cv v)) ->
  preserves P (JsonCompressor._compress_object cv obj).
Proof.
  intros Hk Hcv. unfold JsonCompressor._compress_object.
  apply preserves_bind; [|intros; apply preserves_ret].
  apply preserves_foldM. intros c [k v] _.
  apply preserves_bind; [apply Hk|]. intros sk.
  apply preserves_bind; [apply Hcv|]. intros r. apply preserves_ret.
Qed.

Lemma jc_compress_value_preserves (P : JsonCompressor.state -> Prop) fuel :
  (forall k, preserves P (JsonCompressor._get_short_key k)) ->
  forall v, preserves P (JsonCompressor._compress_value fuel v).
Proof.
  intros Hk. induction fuel as [|fuel IH]; intros v; simpl.
  - intros st a st' _ H. discriminate.
  - destruct v; try apply preserves_ret.
    + apply jc_compress_array_preserves; auto.
    + apply jc_compress_object_preserves; auto.
Qed.

End BaselineDictionary.

(* ------------------------------------------------------------------ *)
(** ** compressed_readable.py: dictionary and columnar form *)
(* ------------------------------------------------------------------ *)

Section EvolvedShapes.
Context {F : PyFloat}.

(** Every key, whatever its length, receives a code and enters the
    dictionary. *)
Lemma cr_get_short_key_assigns k st :
  exists code st',
    CompressedReadable._get_short_key k st = Ok (code, st') /\
    dict_get k (CompressedReadable.key_map st') = Some code.
Proof.
  unfold CompressedReadable._get_short_key, dict_mem.
  destruct (dict_get k (CompressedReadable.key_map st)) as [code|] eqn:E.
  - cbv beta match zeta. rewrite E. exists code, st. auto.
  - cbv beta match zeta. simpl. rewrite dict_get_set_same.
    eexists _, _. split; [reflexivity|]. simpl. apply dict_get_set_same.
Qed.

Lemma as_bools_not_dict arr bools :
  arr <> [] -> CompressedReadable.as_bools arr = Some bools -> forallb is_dict arr = false.
Proof.
  destruct arr as [|[] arr]; simpl; intros Hne H; try discriminate; auto. congruence.
Qed.

Lemma as_nums_not_dict arr nums :
  arr <> [] -> CompressedReadable.as_nums arr = Some nums -> forallb is_dict arr = false.
Proof.
  destruct arr as [|[] arr]; simpl; intros Hne H; try discriminate; auto. congruence.
Qed.

(** A non-empty array of objects with one key set is always sent to the
    columnar form, whatever its length. *)
Lemma cr_compress_array_columnar cv arr st node st' :
  arr <> [] -> homogeneous arr ->
  CompressedReadable._compress_array cv arr st = Ok (node, st') ->
  columnar_a node.
Proof.
  intros Hne [Hd Hk] H. unfold CompressedReadable._compress_array in H.
  destruct arr as [|first rest]; [congruence|].
  cbv beta match zeta in H. set (arr := first :: rest) in *.
  destruct (CompressedReadable.as_bools arr) eqn:Eb.
  { apply as_bools_not_dict in Eb; congruence. }
  destruct (CompressedReadable.as_nums arr) eqn:En.
  { apply as_nums_not_dict in En; congruence. }
  rewrite Hd, Hk in H.
  apply bind_ok in H as (sks & st1 & _ & H).
  apply bind_ok in H as (cols & st2 & _ & H).
  inversion H; subst. eexists; split; reflexivity.
Qed.

End EvolvedShapes.

Lemma dict_get_none A k (d : list (pystr * A)) : ~ In k (keys d) -> dict_get k d = None.
Proof.
  intros H. destruct (dict_get k d) eqn:E; auto.
  apply get_in_keys in E. contradiction.
Qed.

(* ------------------------------------------------------------------ *)
(** ** The size fallback of [compress_json] *)
(* ------------------------------------------------------------------ *)

Section Fallback.
Context {F : PyFloat}.

Lemma smaller_of_choice v env :
  smaller_of v env (if len (dumps env) <? len (dumps v) then dumps env else dumps v).
Proof.
  unfold smaller_of. destruct (len (dumps env) <? len (dumps v)) eqn:E.
  - apply Z.ltb_lt in E. repeat split; auto; lia.
  - apply Z.ltb_ge in E. repeat split; auto; lia.
Qed.

(** With [dumps] the text [json.dumps] returns, the baseline [compress_json]
    returns a text. *)
Lemma jc_compress_json_total v : exists t, JsonCompressor.compress_json v = Ok t.
Proof.
  unfold JsonCompressor.compress_json, JsonCompressor.compress.
  match goal with
  | |- context [JsonCompressor._compress_value ?f v ?s] =>
      destruct (@jc_compress_value_total _ f v s) as (r & st' & H); [lia|rewrite H]
  end.
  simpl. destruct (_ <? _); eauto.
Qed.

End Fallback.

(** C2.  Both [compress_json] functions return a text that is never longer
    than the plain compact serialisation of the input: the envelope when it
    is strictly shorter, the plain serialisation otherwise (ties included). *)
Theorem compress_json_never_longer {F : PyFloat} (v : json) (t : pystr) :
  (CompressedReadable.compress_json v = Ok t ->
   exists env st,
     CompressedReadable.compress v CompressedReadable.init = Ok (env, st) /\
     smaller_of v env t)
  /\
  (JsonCompressor.compress_json v = Ok t ->
   exists env st,
     JsonCompressor.compress v JsonCompressor.init = Ok (env, st) /\
     smaller_of v env t).
Proof.
  split; intros H.
  - unfold CompressedReadable.compress_json in H.
    apply rbind_ok in H as ([env st] & Hc & H).
    exists env, st. split; auto.
    assert (E : t = if len (dumps env) <? len (dumps v) then dumps env else dumps v).
    { destruct (_ <? _); congruence. }
    rewrite E. apply smaller_of_choice.
  - unfold JsonCompressor.compress_json in H.
    apply rbind_ok in H as ([env st] & Hc & H).
    exists env, st. split; auto.
    assert (E : t = if len (dumps env) <? len (dumps v) then dumps env else dumps v).
    { destruct (_ <? _); congruence. }
    rewrite E. apply smaller_of_choice.
Qed.

Section FallbackRuns.
#[local] Existing Instance IntegerOnly.

(** The minimal input [{"a":1}] of the specification: both codecs fall back
    to the seven characters of the plain text. *)
Lemma compress_json_never_longer_witness :
  let v := JObj [(py "a", JInt 1)] in
  (exists env st,
     CompressedReadable.compress v CompressedReadable.init = Ok (env, st) /\
     smaller_of v env (dumps v))
  /\
  (exists env st,
     JsonCompressor.compress v JsonCompressor.init = Ok (env, st) /\
     smaller_of v env (dumps v)).
Proof.
  intros v.
  pose proof (@compress_json_never_longer IntegerOnly v (dumps v)) as [H1 H2].
  split; [apply H1 | apply H2]; vm_compute; reflexivity.
Defined.

End FallbackRuns.

(* ------------------------------------------------------------------ *)
(** ** Columnar trigger *)
(* ------------------------------------------------------------------ *)

Lemma within_fuel_reached {F : PyFloat} fuel arr v :
  within_fuel fuel arr -> reached arr v -> (depth v < fuel)%nat.
Proof.
  unfold within_fuel. rewrite Forall_forall. intros Hf [Hin|(item & k & Hin & Hget)].
  - auto.
  - specialize (Hf item Hin). destruct item; simpl in Hget; try discriminate.
    apply dict_get_In in Hget. apply depth_field in Hget. lia.
Qed.

(** C6, as the code has it.  In [json_compressor.py] an array of objects
    with one key set becomes columnar (marker ["t":"a"]) from three elements
    on, and an array of exactly two stays a plain array.  In
    [compressed_readable.py] there is no length test: whenever the encoding
    of a non-empty array of such objects returns, the node carries the
    columnar marker ["a":1], for one or two elements too. *)
Theorem columnar_trigger {F : PyFloat} (arr : list json) (fuel : nat) :
  homogeneous arr -> within_fuel fuel arr ->
  (3 <= len arr ->
   forall st, exists node st',
     JsonCompressor._compress_array (JsonCompressor._compress_value fuel) arr st
       = Ok (node, st') /\ columnar_t node)
  /\
  (len arr = 2 ->
   forall st, exists node st',
     JsonCompressor._compress_array (JsonCompressor._compress_value fuel) arr st
       = Ok (node, st') /\ ~ columnar_t node)
  /\
  (arr <> [] ->
   forall st node st',
     CompressedReadable._compress_array (CompressedReadable._compress_value fuel) arr st
       = Ok (node, st') -> columnar_a node).
Proof.
  intros Hhom Hfuel.
  assert (Hcv : returns_on (reached arr) (JsonCompressor._compress_value fuel)).
  { intros v st Hv. apply jc_compress_value_total. eapply within_fuel_reached; eauto. }
  repeat split.
  - intros Hlen st. apply jc_compress_array_columnar; auto.
  - intros Hlen st.
    destruct (@jc_compress_array_short _ _ arr st Hcv) as (items & st' & H); [lia|].
    exists (JArr items), st'. split; auto.
    intros (fields & E & _). discriminate.
  - intros Hne st node st' H. eapply cr_compress_array_columnar; eauto.
Qed.

Section ColumnarRuns.
#[local] Existing Instance IntegerOnly.

(** Three, then two, objects with the fields [id] and [name]. *)
Lemma columnar_trigger_witness :
  let row i := JObj [(py "id", JInt i); (py "name", JStr (py "n"))] in
  (exists node st',
     JsonCompressor._compress_array (JsonCompressor._compress_value 2)
       [row 1; row 5; row 7] JsonCompressor.init = Ok (node, st') /\ columnar_t node)
  /\
  (exists node st',
     JsonCompressor._compress_array (JsonCompressor._compress_value 2)
       [row 1; row 5] JsonCompressor.init = Ok (node, st') /\ ~ columnar_t node).
Proof.
  intros row. split.
  - refine (proj1 (@columnar_trigger IntegerOnly [row 1; row 5; row 7] 2 _ _) _ _).
    + split; reflexivity.
    + repeat constructor.
    + vm_compute. discriminate.
  - refine (proj1 (proj2 (@columnar_trigger IntegerOnly [row 1; row 5] 2 _ _)) _ _).
    + split; reflexivity.
    + repeat constructor.
    + reflexivity.
Defined.

(** C6 as stated fails on [compressed_readable.py]: two objects with one
    key set are encoded as a columnar node. *)
Lemma columnar_trigger_counterexample :
  let arr := [JObj [(py "id", JInt 1)]; JObj [(py "id", JInt 5)]] in
  len arr = 2 /\ homogeneous arr /\
  CompressedReadable._compress_array (CompressedReadable._compress_value 1) arr
    CompressedReadable.init
  = Ok (JObj [(py "a", JInt 1); (py "k", JArr [JStr (py "0")]);
              (py "d", JArr [JArr [JInt 1; JInt 5]])],
        {| CompressedReadable.key_map := [(py "id", py "0")];
           CompressedReadable.key_counter := 1 |})
  /\ columnar_a (JObj [(py "a", JInt 1); (py "k", JArr [JStr (py "0")]);
                       (py "d", JArr [JArr [JInt 1; JInt 5]])]).
Proof.
  intros arr.
  split; [reflexivity|]. split; [split; reflexivity|]. split; [reflexivity|].
  eexists; split; reflexivity.
Qed.

End ColumnarRuns.

(* ------------------------------------------------------------------ *)
(** ** Dictionary minimality *)
(* ------------------------------------------------------------------ *)

Lemma jc_get_short_key_short k st :
  len k <= JsonCompressor.min_key_length st ->
  JsonCompressor._get_short_key k st = Ok (k, st).
Proof.
  intros H. unfold JsonCompressor._get_short_key.
  apply Z.leb_le in H. rewrite H. reflexivity.
Qed.

Lemma jc_compress_long_keys {F : PyFloat} data st env st' :
  JsonCompressor.compress data st = Ok (env, st') ->
  long_keys (JsonCompressor.min_key_length st) st' /\
  forall m, dict_get (py "m") (fields_of env) = Some (JObj m) ->
            keys m = keys (JsonCompressor.key_map st').
Proof.
  unfold JsonCompressor.compress. intros H.
  match type of H with
  | context [JsonCompressor._compress_value ?f data ?s] =>
      destruct (JsonCompressor._compress_value f data s) as [[cd st1]| | |] eqn:E;
        try discriminate;
      pose proof (@jc_compress_value_preserves _
                    (long_keys (JsonCompressor.min_key_length st)) f
                    (@jc_get_short_key_long_keys _) data s cd st1) as Hinv
  end.
  assert (Hst1 : long_keys (JsonCompressor.min_key_length st) st1).
  { apply Hinv; auto. split; simpl; auto. intros k []. }
  inversion H; subst; clear H. split; auto.
  intros m Hm. destruct (JsonCompressor.key_map st'); simpl in Hm; try discriminate.
  inversion Hm; subst. simpl. f_equal.
  unfold keys. rewrite map_map. reflexivity.
Qed.

(** C7, as the code has it.  In [json_compressor.py], whose threshold is
    [min_key_length], a key at or below the threshold is returned unchanged
    without touching the dictionary, is absent from the dictionary at the end
    of [compress], and is absent from the emitted ["m"] mapping.  In
    [compressed_readable.py] there is no threshold: every key receives a
    code and enters the dictionary. *)
Theorem dictionary_minimality {F : PyFloat}
  (data : json) (st : JsonCompressor.state) (env : json) (st' : JsonCompressor.state) :
  JsonCompressor.compress data st = Ok (env, st') ->
  (forall k, len k <= JsonCompressor.min_key_length st ->
     (forall st0, JsonCompressor.min_key_length st0 = JsonCompressor.min_key_length st ->
                  JsonCompressor._get_short_key k st0 = Ok (k, st0)) /\
     dict_get k (JsonCompressor.key_map st') = None /\
     (forall m, dict_get (py "m") (fields_of env) = Some (JObj m) -> dict_get k m = None))
  /\
  (forall k st0, exists code st1,
     CompressedReadable._get_short_key k st0 = Ok (code, st1) /\
     dict_get k (CompressedReadable.key_map st1) = Some code).
Proof.
  intros H. apply jc_compress_long_keys in H as [[Ht Hk] Hm].
  split; [|intros; apply cr_get_short_key_assigns].
  intros k Hlen.
  assert (Hnot : ~ In k (keys (JsonCompressor.key_map st'))).
  { intros Hin. apply Hk in Hin. lia. }
  repeat split.
  - intros st0 E. apply jc_get_short_key_short. lia.
  - apply dict_get_none; auto.
  - intros m Hget. apply dict_get_none. rewrite (Hm m Hget). auto.
Qed.

Section DictionaryRuns.
#[local] Existing Instance IntegerOnly.

(** The keys of the repository's own test [test_short_keys_not_compressed]:
    [id] stays out of the mapping that abbreviates the long key. *)
Lemma dictionary_minimality_witness :
  let data := JObj
                [(py "id", JInt 1);
                 (py "very_long_key_name_that_should_be_compressed", JStr (py "value"))] in
  exists env st',
    JsonCompressor.compress data JsonCompressor.init = Ok (env, st') /\
    dict_get (py "m") (fields_of env)
      = Some (JObj [(py "very_long_key_name_that_should_be_compressed", JStr (py "0"))]) /\
    dict_get (py "id") (JsonCompressor.key_map st') = None.
Proof.
  intros data.
  destruct (JsonCompressor.compress data JsonCompressor.init) as [[env st']| | |] eqn:E;
    try (vm_compute in E; discriminate).
  exists env, st'. split; [reflexivity|]. split.
  - vm_compute in E. inversion E; subst. reflexivity.
  - refine (proj1 (proj2 (proj1 (@dictionary_minimality IntegerOnly data _ env st' E)
                            (py "id") _))).
    vm_compute. discriminate.
Defined.

(** C7 as stated fails on [compressed_readable.py]: the two-character key
    [id] is given the code [0] and is listed in the emitted ["m"] mapping. *)
Lemma dictionary_minimality_counterexample :
  len (py "id") <= JsonCompressor.min_key_length JsonCompressor.init /\
  CompressedReadable.compress (JObj [(py "id", JInt 1)]) CompressedReadable.init
  = Ok (JObj [(py "d", JObj [(py "0", JInt 1)]);
              (py "m", JObj [(py "id", JStr (py "0"))])],
        {| CompressedReadable.key_map := [(py "id", py "0")];
           CompressedReadable.key_counter := 1 |}).
Proof.
  split; [vm_compute; discriminate | reflexivity].
Qed.

End DictionaryRuns.

(* ------------------------------------------------------------------ *)
(** ** Round trip, tags and the envelope test of [decompress_json] *)
(* ------------------------------------------------------------------ *)

Section EnvelopeDispatch.
Context {F : PyFloat}.

Lemma decompress_json_passthrough fuel text data :
  json_loads text = Ok data ->
  (forall fields, data = JObj fields -> dict_mem (py "d") fields = false) ->
  CompressedReadable.decompress_json fuel text = Ok data.
Proof.
  intros Hl Hd. unfold CompressedReadable.decompress_json. rewrite Hl. simpl.
  destruct data; auto. rewrite (Hd fields eq_refl). reflexivity.
Qed.

Lemma decompress_json_envelope fuel text fields :
  json_loads text = Ok (JObj fields) -> dict_mem (py "d") fields = true ->
  CompressedReadable.decompress_json fuel text = CompressedReadable.decompress fuel fields.
Proof.
  intros Hl Hd. unfold CompressedReadable.decompress_json. rewrite Hl. simpl.
  rewrite Hd. reflexivity.
Qed.

End EnvelopeDispatch.

Section RoundTripRuns.
#[local] Existing Instance IntegerOnly.

Lemma user_d_fallback :
  CompressedReadable.compress_json user_d = Ok (dumps user_d) /\
  json_loads (dumps user_d) = Ok user_d.
Proof. split; reflexivity. Qed.

Lemma user_d_decodes fuel :
  CompressedReadable.decompress_json (S fuel) (dumps user_d) = Ok (JInt 1).
Proof. reflexivity. Qed.

(** C1, evaluated at the failing input: [{"d": 1}] is emitted verbatim by the
    size fallback and decoded as an envelope, so no amount of fuel makes
    [decompress_json] return the original value; it returns [1]. *)
Theorem round_trip_fails_on_d_field :
  exists text,
    CompressedReadable.compress_json user_d = Ok text /\
    (forall fuel, CompressedReadable.decompress_json (S fuel) text = Ok (JInt 1)) /\
    (forall fuel, CompressedReadable.decompress_json fuel text <> Ok user_d) /\
    py_eq (JInt 1) user_d = false.
Proof.
  exists (dumps user_d). split; [reflexivity|]. split; [reflexivity|]. split; [|reflexivity].
  intros [|fuel] H; vm_compute in H; discriminate.
Qed.

(** C4, evaluated at the failing input: the passthrough string [SQUJD] takes
    the base64 branch of the decoder and comes back as [ABC]. *)
Theorem passthrough_string_taken_for_tag :
  CompressedReadable.compress_str (py "SQUJD") = Ok (JStr (py "SQUJD")) /\
  (forall fuel key_map,
     CompressedReadable._decompress_value (S fuel) (JStr (py "SQUJD")) key_map
     = Ok (JStr (py "ABC"))) /\
  exists text,
    CompressedReadable.compress_json tagged_like = Ok text /\
    text <> dumps tagged_like /\
    forall fuel,
      CompressedReadable.decompress_json (S (S (S fuel))) text
      = Ok (JArr [JArr (map JInt (range 20)); JStr (py "ABC")]).
Proof.
  split; [reflexivity|]. split; [reflexivity|].
  eexists. split; [vm_compute; reflexivity|]. split; [vm_compute; discriminate|].
  intros fuel. reflexivity.
Qed.

(** The baseline codec has the same envelope test and the same outcome. *)
Lemma baseline_round_trip_fails_on_d_field :
  JsonCompressor.compress_json user_d = Ok (dumps user_d) /\
  forall fuel, JsonCompressor.decompress_json (S fuel) (dumps user_d) = Ok (JInt 1).
Proof. split; [reflexivity | intros; reflexivity]. Qed.

(** The other tag letters collide as well: the name [Bob] of the
    specification's scenario starts with the tag of 8-bit packing, and its
    remainder is no base64 text. *)
Lemma passthrough_name_raises fuel key_map :
  CompressedReadable.compress_str (py "Bob") = Ok (JStr (py "Bob")) /\
  CompressedReadable._decompress_value (S fuel) (JStr (py "Bob")) key_map
  = Raise BinasciiError.
Proof. split; reflexivity. Qed.

End RoundTripRuns.

(** *** Decoding never adds object nesting

    This is what makes the envelope test observable: the value decoded from
    the field [d] of an object is nested in objects less deeply than the
    object itself, so it can never be that object. *)

Lemma fold_result_stuck A B (f : result B -> A -> result B) l (r0 : result B) :
  (forall a, f r0 a = r0) -> fold_left f l r0 = r0.
Proof. intros H. induction l as [|a l IH]; simpl; auto. rewrite H. auto. Qed.

Lemma fold_result_inv A B (I : B -> Prop) (step : B -> A -> result B) l :
  (forall b a b', In a l -> I b -> step b a = Ok b' -> I b') ->
  forall init r,
    I init ->
    fold_left (fun acc a => rbind acc (fun b => step b a)) l (Ok init) = Ok r -> I r.
Proof.
  induction l as [|a l IH]; intros Hstep init r Hi H; simpl in H.
  - inversion H; subst; auto.
  - destruct (step init a) as [b'| | |] eqn:E.
    + apply (IH (fun b a0 b' Hin => Hstep b a0 b' (or_intror Hin)) b' r); auto.
      eapply Hstep; eauto. left; auto.
    + rewrite fold_result_stuck in H by reflexivity. discriminate.
    + rewrite fold_result_stuck in H by reflexivity. discriminate.
    + rewrite fold_result_stuck in H by reflexivity. discriminate.
Qed.

Lemma rmap_Forall A B (P : B -> Prop) (f : A -> result B) l rs :
  (forall a b, In a l -> f a = Ok b -> P b) -> rmap f l = Ok rs -> Forall P rs.
Proof.
  revert rs. induction l as [|a l IH]; intros rs Hf H; simpl in H.
  - inversion H; constructor.
  - apply rbind_ok in H as (b & Hb & H). apply rbind_ok in H as (bs & Hbs & H).
    inversion H; subst. constructor.
    + eapply Hf; eauto. left; auto.
    + apply IH; auto. intros; eapply Hf; eauto. right; auto.
Qed.

Lemma dict_set_Forall A (P : pystr * A -> Prop) k v d :
  (forall k', P (k', v)) -> Forall P d -> Forall P (dict_set k v d).
Proof.
  intros Hv. induction d as [|[k0 v0] d IH]; intros H; simpl.
  - constructor; auto.
  - inversion H; subst. destruct (str_eqb k k0); constructor; auto.
Qed.

Section ObjectNesting.
Context {F : PyFloat}.

Lemma dict_depth_arr items n :
  (dict_depth (JArr items) <= n)%nat <-> Forall (fun v => (dict_depth v <= n)%nat) items.
Proof.
  simpl. induction items as [|x items IH]; simpl.
  - split; [constructor | lia].
  - split.
    + intros H. constructor; [lia | apply IH; lia].
    + intros H. inversion H; subst. apply IH in H3. lia.
Qed.

Lemma dict_depth_obj fields n :
  (1 <= n)%nat ->
  Forall (fun kv : pystr * json => (S (dict_depth (snd kv)) <= n)%nat) fields ->
  (dict_depth (JObj fields) <= n)%nat.
Proof.
  intros Hn H. simpl. induction H as [|x fields Hx _ IH]; simpl; lia.
Qed.

Lemma dict_depth_field fields k v :
  In (k, v) fields -> (S (dict_depth v) <= dict_depth (JObj fields))%nat.
Proof.
  simpl. induction fields as [|x fields IH]; simpl; intros H; [contradiction|].
  destruct H as [->|H]; [simpl; lia|]. specialize (IH H). lia.
Qed.

Lemma dict_depth_get fields k v :
  dict_get k fields = Some v -> (S (dict_depth v) <= dict_depth (JObj fields))%nat.
Proof. intros H. apply dict_get_In in H. eapply dict_depth_field; eauto. Qed.

Lemma dict_depth_item items v :
  In v items -> (dict_depth v <= dict_depth (JArr items))%nat.
Proof.
  intros H. pose proof (proj1 (dict_depth_arr items (dict_depth (JArr items))) (le_n _)) as Hall.
  rewrite Forall_forall in Hall. auto.
Qed.

Lemma dict_depth_app xs ys :
  dict_depth (JArr (xs ++ ys)) = Nat.max (dict_depth (JArr xs)) (dict_depth (JArr ys)).
Proof. simpl. induction xs as [|x xs IH]; simpl; auto. rewrite IH. lia. Qed.

Lemma dict_depth_concat_repeat items n :
  (dict_depth (JArr (concat (repeat items n))) <= dict_depth (JArr items))%nat.
Proof.
  induction n as [|n IH]; [simpl; lia|].
  cbn [repeat concat]. rewrite dict_depth_app. lia.
Qed.

Lemma dict_depth_num n : dict_depth (json_of_num n) = O.
Proof. destruct n; reflexivity. Qed.

Lemma dict_depth_mul i v r :
  py_mul_int i v = Ok r -> (dict_depth r <= dict_depth v)%nat.
Proof.
  unfold py_mul_int. destruct v; intros H; try discriminate.
  - cbn [as_num] in H. apply rbind_ok in H as (p & _ & H). inversion H; subst.
    rewrite dict_depth_num; lia.
  - cbn [as_num] in H. apply rbind_ok in H as (p & _ & H). inversion H; subst.
    rewrite dict_depth_num; lia.
  - cbn [as_num] in H. apply rbind_ok in H as (p & _ & H). inversion H; subst.
    rewrite dict_depth_num; lia.
  - inversion H; subst. simpl. lia.
  - inversion H; subst. apply dict_depth_concat_repeat.
Qed.

Lemma dict_depth_add a b r :
  py_add a b = Ok r -> (dict_depth r <= Nat.max (dict_depth a) (dict_depth b))%nat.
Proof.
  unfold py_add. intros H.
  assert (Hnum : match as_num a, as_num b with
                 | Some m, Some n => x <~ num_add m n ;; Ok (json_of_num x)
                 | _, _ => Raise TypeError
                 end = Ok r -> dict_depth r = O).
  { destruct (as_num a), (as_num b); intros E; try discriminate.
    apply rbind_ok in E as (x & _ & E). inversion E; subst. apply dict_depth_num. }
  destruct a, b; try (rewrite (Hnum H); lia).
  - inversion H; subst. simpl. lia.
  - inversion H; subst. rewrite dict_depth_app. lia.
Qed.

Lemma dict_depth_delta_run start delta count r :
  delta_run start delta count = Ok r ->
  (dict_depth r <= Nat.max (dict_depth start) (dict_depth delta))%nat.
Proof.
  unfold delta_run. intros H.
  apply rbind_ok in H as (indices & _ & H). apply rbind_ok in H as (items & Hitems & H).
  inversion H; subst. apply dict_depth_arr.
  eapply rmap_Forall; [|exact Hitems].
  intros i b _ Hb. cbv beta in Hb. apply rbind_ok in Hb as (step & Hs & Hb).
  apply dict_depth_mul in Hs. apply dict_depth_add in Hb. lia.
Qed.

Lemma dict_depth_getitem v i r :
  py_getitem v i = Ok r -> (dict_depth r <= dict_depth v)%nat.
Proof.
  unfold py_getitem. destruct v; simpl; intros H; try discriminate.
  - apply rbind_ok in H as (c & _ & H). inversion H; subst. simpl. lia.
  - destruct (nth_error items (Z.to_nat i)) eqn:E; simpl in H; inversion H; subst.
    apply nth_error_In in E. apply (dict_depth_item _ _ E).
Qed.

Lemma dict_depth_iter v l :
  py_iter v = Ok l -> Forall (fun x => (dict_depth x <= dict_depth v)%nat) l.
Proof.
  unfold py_iter. destruct v; intros H; try discriminate; inversion H; subst.
  - apply Forall_forall. intros x Hx. apply in_map_iff in Hx as (c & <- & _). simpl. lia.
  - apply Forall_forall. intros x Hx. apply (dict_depth_item _ _ Hx).
  - apply Forall_forall. intros x Hx. apply in_map_iff in Hx as (c & <- & _). simpl. lia.
Qed.

Lemma dict_depth_repeat v n r :
  py_repeat v n = Ok r -> (dict_depth r <= dict_depth v)%nat.
Proof.
  unfold py_repeat. intros H. apply rbind_ok in H as (z & _ & H). inversion H; subst.
  apply dict_depth_arr. apply Forall_forall. intros x Hx.
  apply repeat_spec in Hx. subst. lia.
Qed.

Lemma dict_depth_unpack_numbers s r :
  CompressedReadable._unpack_numbers s = Ok r -> dict_depth r = O.
Proof.
  unfold CompressedReadable._unpack_numbers. intros H.
  apply rbind_ok in H as (c & _ & H). apply rbind_ok in H as (packed & _ & H).
  assert (Hflat : forall (A : Type) (f : A -> json) (l : list A),
             (forall a, dict_depth (f a) = O) -> dict_depth (JArr (map f l)) = O).
  { intros A f l Hf. simpl. induction l as [|a l IH]; simpl; auto. rewrite Hf, IH. auto. }
  destruct (c =? ch "B"); [inversion H; subst; apply Hflat; reflexivity|].
  destruct (c =? ch "H");
    [apply rbind_ok in H as (ns & _ & H); inversion H; subst; apply Hflat; reflexivity|].
  destruct (c =? ch "I");
    [apply rbind_ok in H as (ns & _ & H); inversion H; subst; apply Hflat; reflexivity|].
  apply rbind_ok in H as (ns & _ & H); inversion H; subst; apply Hflat; reflexivity.
Qed.

Lemma dict_depth_unpack_booleans s r :
  CompressedReadable._unpack_booleans s = Ok r -> dict_depth r = O.
Proof.
  unfold CompressedReadable._unpack_booleans. destruct (split_colon (tl s)) as [p0 p1].
  intros H. apply rbind_ok in H as (bd & _ & H). apply rbind_ok in H as (cs & _ & H).
  apply rbind_ok in H as (count & _ & H). apply rbind_ok in H as (res & Hres & H).
  inversion H; subst.
  apply Nat.le_0_r. apply dict_depth_arr.
  eapply rmap_Forall; [|exact Hres].
  intros i b _ Hb. cbv beta zeta in Hb. apply rbind_ok in Hb as (byte & _ & Hb).
  inversion Hb; subst. simpl. lia.
Qed.

Lemma dict_depth_decompress_str s r :
  CompressedReadable.decompress_str s = Ok r -> dict_depth r = O.
Proof.
  unfold CompressedReadable.decompress_str. intros H.
  destruct (startswith s (ch "S")).
  { apply rbind_ok in H as (b & _ & H). apply rbind_ok in H as (t & _ & H).
    inversion H; subst. reflexivity. }
  destruct (startswith s (ch "T")); [eapply dict_depth_unpack_booleans; eauto|].
  apply rbind_ok in H as (c0 & _ & H).
  destruct (char_in c0 (py "BHID")); [eapply dict_depth_unpack_numbers; eauto|].
  inversion H; subst. reflexivity.
Qed.

Lemma dict_depth_decompress_object dec obj key_map r :
  flattening dec ->
  CompressedReadable._decompress_object dec obj key_map = Ok r ->
  (dict_depth r <= dict_depth (JObj obj))%nat.
Proof.
  intros Hdec H. unfold CompressedReadable._decompress_object in H.
  apply rbind_ok in H as (d & Hd & H). inversion H; subst. clear H.
  apply dict_depth_obj; [simpl; lia|].
  revert Hd.
  apply (@fold_result_inv _ _
           (Forall (fun kv : pystr * json =>
                      (S (dict_depth (snd kv)) <= dict_depth (JObj obj))%nat))
           (fun decompressed (kv : pystr * json) =>
              let (short_key, value) := kv in
              original_key <~ original_key key_map (JStr short_key) ;;
              v <~ dec value ;;
              Ok (dict_set original_key v decompressed))); [|constructor].
  intros b [k value] b' Hin Hb Hstep.
  apply rbind_ok in Hstep as (ok & _ & Hstep). apply rbind_ok in Hstep as (v & Hv & Hstep).
  inversion Hstep; subst. apply dict_set_Forall; auto.
  intros k'. cbn [snd]. apply Hdec in Hv. apply dict_depth_field in Hin. lia.
Qed.

Lemma dict_depth_expand_column dec col more :
  flattening dec ->
  CompressedReadable.expand_column dec col = Ok more ->
  Forall (fun c => (dict_depth c <= dict_depth col)%nat) more.
Proof.
  intros Hdec H. unfold CompressedReadable.expand_column in H.
  destruct col; try (inversion H; subst; constructor; [lia|constructor]; fail).
  - apply rbind_ok in H as (c0 & _ & H).
    destruct (char_in c0 (py "BHIDT")).
    + apply rbind_ok in H as (column & Hc & H). inversion H; subst.
      constructor; [|constructor]. apply Hdec in Hc. auto.
    + inversion H; subst. constructor; [lia|constructor].
  - destruct (dict_mem (py "c") fields).
    { apply rbind_ok in H as (c & Hc & H). apply rbind_ok in H as (val & Hval & H).
      apply rbind_ok in H as (n & _ & H). apply rbind_ok in H as (column & Hcol & H).
      inversion H; subst. constructor; [|constructor].
      apply dict_depth_repeat in Hcol. apply Hdec in Hval.
      destruct (dict_get (py "c") fields) eqn:E; simpl in Hc; inversion Hc; subst.
      apply dict_depth_get in E. lia. }
    destruct (dict_mem (py "s") fields); [|inversion H; subst; constructor].
    apply rbind_ok in H as (start & Hs & H). apply rbind_ok in H as (delta & Hd & H).
    apply rbind_ok in H as (count & _ & H). apply rbind_ok in H as (column & Hcol & H).
    inversion H; subst. constructor; [|constructor].
    apply dict_depth_delta_run in Hcol.
    destruct (dict_get (py "s") fields) eqn:Es; simpl in Hs; inversion Hs; subst.
    destruct (dict_get (py "d") fields) eqn:Ed; simpl in Hd; inversion Hd; subst.
    apply dict_depth_get in Es. apply dict_depth_get in Ed. lia.
Qed.

Lemma dict_depth_decompress_array dec arr_data key_map r :
  flattening dec ->
  CompressedReadable._decompress_array dec arr_data key_map = Ok r ->
  (dict_depth r <= dict_depth (JObj arr_data))%nat.
Proof.
  intros Hdec H. unfold CompressedReadable._decompress_array in H.
  apply rbind_ok in H as (short_keys & _ & H).
  apply rbind_ok in H as (columns0 & Hc0 & H).
  apply rbind_ok in H as (columns & Hiter & H).
  apply rbind_ok in H as (expanded & Hexp & H).
  apply rbind_ok in H as (num_rows & _ & H).
  apply rbind_ok in H as (result & Hres & H). inversion H; subst. clear H.
  destruct (dict_get (py "d") arr_data) as [c0|] eqn:Ed; simpl in Hc0; inversion Hc0; subst.
  apply dict_depth_get in Ed. apply dict_depth_iter in Hiter.
  set (N := dict_depth (JObj arr_data)) in *.
  assert (Hexpanded : Forall (fun c => (S (dict_depth c) <= N)%nat) expanded).
  { revert Hexp.
    apply (@fold_result_inv _ _ (Forall (fun c => (S (dict_depth c) <= N)%nat))
             (fun expanded col =>
                more <~ CompressedReadable.expand_column dec col ;;
                Ok (expanded ++ more))); [|constructor].
    intros b col b' Hin Hb Hstep. apply rbind_ok in Hstep as (more & Hmore & Hstep).
    inversion Hstep; subst. apply Forall_app. split; auto.
    apply dict_depth_expand_column in Hmore; auto.
    rewrite Forall_forall in Hiter. specialize (Hiter col Hin).
    eapply Forall_impl; [|exact Hmore]. intros c Hc. cbv beta in Hc. lia. }
  apply dict_depth_arr. eapply rmap_Forall; [|exact Hres].
  intros i row _ Hrow. cbv beta in Hrow.
  apply rbind_ok in Hrow as (sks & _ & Hrow). apply rbind_ok in Hrow as (obj & Hobj & Hrow).
  inversion Hrow; subst. clear Hrow.
  apply dict_depth_obj; [unfold N; simpl; lia|].
  revert Hobj.
  apply (@fold_result_inv _ _
           (Forall (fun kv : pystr * json => (S (dict_depth (snd kv)) <= N)%nat))
           (fun obj (js : Z * json) =>
              let (j, short_key) := js in
              original_key <~ original_key key_map short_key ;;
              column <~ of_option IndexError (nth_error expanded (Z.to_nat j)) ;;
              cell <~ py_getitem column i ;;
              value <~ dec cell ;;
              Ok (dict_set original_key value obj))); [|constructor].
  intros b [j sk] b' _ Hb Hstep.
  apply rbind_ok in Hstep as (ok & _ & Hstep).
  apply rbind_ok in Hstep as (column & Hcol & Hstep).
  apply rbind_ok in Hstep as (cell & Hcell & Hstep).
  apply rbind_ok in Hstep as (value & Hvalue & Hstep). inversion Hstep; subst.
  apply dict_set_Forall; auto. intros k'. cbn [snd].
  destruct (nth_error expanded (Z.to_nat j)) eqn:En; simpl in Hcol; inversion Hcol; subst.
  apply nth_error_In in En. rewrite Forall_forall in Hexpanded. specialize (Hexpanded _ En).
  apply dict_depth_getitem in Hcell. apply Hdec in Hvalue. lia.
Qed.

(** The decoder never returns a value nested in more objects than its input. *)
Lemma decompress_value_flattening fuel key_map :
  flattening (fun v => CompressedReadable._decompress_value fuel v key_map).
Proof.
  induction fuel as [|fuel IH]; intros v r H; [discriminate|].
  cbn [CompressedReadable._decompress_value] in H.
  destruct v; try (inversion H; subst; auto; fail).
  - apply dict_depth_decompress_str in H. lia.
  - apply rbind_ok in H as (items' & Hitems & H). inversion H; subst.
    apply dict_depth_arr. eapply rmap_Forall; [|exact Hitems].
    intros a b Hin Hb. apply IH in Hb. apply dict_depth_item in Hin. lia.
  - destruct (dict_mem (py "c") fields && dict_mem (py "n") fields).
    { apply rbind_ok in H as (c & Hc & H). apply rbind_ok in H as (n & _ & H).
      apply rbind_ok in H as (indices & _ & H). apply rbind_ok in H as (items & Hitems & H).
      inversion H; subst.
      destruct (dict_get (py "c") fields) eqn:E; simpl in Hc; inversion Hc; subst.
      apply dict_depth_get in E.
      apply dict_depth_arr. eapply rmap_Forall; [|exact Hitems].
      intros a b _ Hb. apply IH in Hb. lia. }
    destruct (dict_mem (py "s") fields && dict_mem (py "d") fields && dict_mem (py "n") fields).
    { apply rbind_ok in H as (start & Hs & H). apply rbind_ok in H as (delta & Hd & H).
      apply rbind_ok in H as (count & _ & H).
      apply dict_depth_delta_run in H.
      destruct (dict_get (py "s") fields) eqn:Es; simpl in Hs; inversion Hs; subst.
      destruct (dict_get (py "d") fields) eqn:Ed; simpl in Hd; inversion Hd; subst.
      apply dict_depth_get in Es. apply dict_depth_get in Ed. lia. }
    destruct (match dict_get (py "a") fields with
              | Some a => py_eq a (JInt 1)
              | None => false
              end).
    + eapply dict_depth_decompress_array; eauto.
    + eapply dict_depth_decompress_object; eauto.
Qed.

(** An object with a field [d] is never returned as it is. *)
Lemma decompress_not_identity fuel fields r :
  CompressedReadable.decompress fuel fields = Ok r -> r <> JObj fields.
Proof.
  unfold CompressedReadable.decompress. intros H.
  apply rbind_ok in H as (rm & _ & H). apply rbind_ok in H as (d & Hd & H).
  destruct (dict_get (py "d") fields) eqn:E; simpl in Hd; inversion Hd; subst.
  apply dict_depth_get in E. apply decompress_value_flattening in H.
  intros ->. lia.
Qed.

End ObjectNesting.

(** C5.  [decompress_json] returns the parsed value unchanged exactly when
    it is not an object or has no field [d]: an object with a field [d] is
    decoded as an envelope and, whatever the decoding yields, it is never the
    object itself.  This includes user data that the size fallback emitted
    verbatim, such as [{"d": 1}], which comes back as [1]. *)
Theorem envelope_test {F : PyFloat} (fuel : nat) (text : pystr) (data : json) :
  json_loads text = Ok data ->
  ((forall fields, data = JObj fields -> dict_mem (py "d") fields = false) ->
   CompressedReadable.decompress_json fuel text = Ok data)
  /\
  (forall fields, data = JObj fields -> dict_mem (py "d") fields = true ->
   CompressedReadable.decompress_json fuel text = CompressedReadable.decompress fuel fields
   /\ CompressedReadable.decompress_json fuel text <> Ok data)
  /\
  (CompressedReadable.compress_json user_d = Ok (dumps user_d) /\
   forall n, CompressedReadable.decompress_json (S n) (dumps user_d) = Ok (JInt 1)).
Proof.
  intros Hl. split; [|split].
  - intros Hd. apply decompress_json_passthrough; auto.
  - intros fields -> Hd.
    rewrite (@decompress_json_envelope _ fuel text fields Hl Hd). split; auto.
    intros E. apply decompress_not_identity in E. congruence.
  - split; [reflexivity | intros; reflexivity].
Qed.

Lemma envelope_test_witness :
  CompressedReadable.decompress_json (F := IntegerOnly) 1 (py "[1,2]")
  = Ok (JArr [JInt 1; JInt 2]).
Proof.
  refine (proj1 (@envelope_test IntegerOnly 1 (py "[1,2]") (JArr [JInt 1; JInt 2]) _) _).
  - reflexivity.
  - intros fields E. discriminate.
Defined.

(* ------------------------------------------------------------------ *)
(** ** The base64 branch for long strings never fires *)
(* ------------------------------------------------------------------ *)

(** Induction over a list three elements at a time, the way base64 reads
    its input. *)
Lemma list_ind3 A (P : list A -> Prop) :
  P [] -> (forall a, P [a]) -> (forall a b, P [a; b]) ->
  (forall a b c l, P l -> P (a :: b :: c :: l)) ->
  forall l, P l.
Proof.
  intros H0 H1 H2 H3 l.
  assert (H : P l /\ (forall a, P (a :: l)) /\ (forall a b, P (a :: b :: l))).
  { induction l as [|x l (IH0 & IH1 & IH2)]; auto. }
  apply H.
Qed.

(** Four characters for every group of up to three bytes. *)
Lemma b64encode_length bs : len (b64encode bs) = 4 * ((len bs + 2) / 3).
Proof.
  unfold len. induction bs as [| a | a b | a b c l IH] using list_ind3;
    try reflexivity.
  change (b64encode (a :: b :: c :: l)) with
    (b64_char (a / 4) :: b64_char (a mod 4 * 16 + b / 16)
     :: b64_char (b mod 16 * 4 + c / 64) :: b64_char (c mod 64) :: b64encode l).
  cbn [length]. rewrite !Nat2Z.inj_succ. rewrite IH.
  replace (Z.succ (Z.succ (Z.succ (Z.of_nat (length l)))) + 2)
    with (Z.of_nat (length l) + 2 + 1 * 3) by lia.
  rewrite Z.div_add by lia. lia.
Qed.

Lemma b64encode_not_shorter bs : len bs <= len (b64encode bs).
Proof.
  rewrite b64encode_length.
  pose proof (Z.div_mod (len bs + 2) 3 ltac:(lia)).
  pose proof (Z.mod_pos_bound (len bs + 2) 3 ltac:(lia)).
  unfold len in *. lia.
Qed.

Lemma utf8_char_length c bs : utf8_char c = Ok bs -> (1 <= length bs)%nat.
Proof.
  unfold utf8_char.
  repeat match goal with
         | |- context [if ?b then _ else _] => destruct b
         end; intros H; inversion H; simpl; lia.
Qed.

(** Every code point takes at least one byte. *)
Lemma utf8_encode_length s bs : utf8_encode s = Ok bs -> len s <= len bs.
Proof.
  unfold len. revert bs. induction s as [|c s IH]; simpl; intros bs H.
  - inversion H; simpl; lia.
  - apply rbind_ok in H as (b & Hb & H).
    apply rbind_ok in H as (rest & Hr & H). inversion H; subst.
    apply utf8_char_length in Hb. specialize (IH rest Hr).
    rewrite length_app. lia.
Qed.

Lemma utf8_char_scalar c : is_scalar c = true -> exists bs, utf8_char c = Ok bs.
Proof.
  unfold is_scalar, utf8_char. intros H.
  apply andb_true_iff in H as [H Hs]. apply andb_true_iff in H as [H0 H1].
  apply Z.leb_le in H0. apply Z.ltb_lt in H1.
  destruct (c <? 0) eqn:E0; [apply Z.ltb_lt in E0; lia|].
  destruct (c <? 128); eauto.
  destruct (c <? 2048); eauto.
  destruct (c <? 65536).
  - apply negb_true_iff in Hs. rewrite Hs. eauto.
  - destruct (c <? 1114112) eqn:E; eauto. apply Z.ltb_ge in E. lia.
Qed.

(** Unicode text can always be encoded. *)
Lemma utf8_encode_valid s : valid_text s -> exists bs, utf8_encode s = Ok bs.
Proof.
  unfold valid_text. induction s as [|c s IH]; simpl; intros H.
  - eauto.
  - apply andb_true_iff in H as [Hc Hs].
    destruct (utf8_char_scalar c Hc) as (b & ->).
    destruct (IH Hs) as (rest & ->). simpl. eauto.
Qed.





(* ------------------------------------------------------------------ *)
(** ** Library round trips: decimal text and base64 *)
(* ------------------------------------------------------------------ *)

Ltac eval_digit :=
  match goal with
  | |- context [digit_val ?c] =>
      let v := eval vm_compute in (digit_val c) in
      change (digit_val c) with v; cbv beta match
  end.

Lemma digits_val_acc d acc :
  digits_val (Z.pos acc) (uint_str d) = Some (Z.pos (Pos.of_uint_acc d acc)).
Proof.
  revert acc. induction d; intros acc; cbn [uint_str digits_val Pos.of_uint_acc]; auto;
    eval_digit;
    match goal with
    | |- digits_val ?z _ = Some (Z.pos (Pos.of_uint_acc _ ?p)) =>
        replace z with (Z.pos p) by lia; apply IHd
    end.
Qed.

Lemma digits_val_uint d : digits_val 0 (uint_str d) = Some (Z.of_N (Pos.of_uint d)).
Proof.
  induction d; cbn [uint_str digits_val Pos.of_uint]; auto; eval_digit;
    try exact IHd;
    match goal with
    | |- digits_val ?z _ = Some (Z.of_N (N.pos (Pos.of_uint_acc _ ?p))) =>
        change z with (Z.pos p); apply digits_val_acc
    end.
Qed.

Lemma uint_str_head d :
  d <> Decimal.Nil -> exists c s, uint_str d = c :: s /\ 48 <= c <= 57.
Proof.
  destruct d; intros H; try congruence; simpl; eexists _, _; split;
    try reflexivity; vm_compute; split; discriminate.
Qed.

Lemma int_literal_digits d :
  d <> Decimal.Nil -> int_literal (uint_str d) = Ok (Z.of_uint d).
Proof.
  intros H. destruct (uint_str_head H) as (c & s & E & Hc).
  unfold int_literal. rewrite E.
  replace (c =? ch "-") with false by (symmetry; apply Z.eqb_neq; vm_compute; lia).
  replace (c =? ch "+") with false by (symmetry; apply Z.eqb_neq; vm_compute; lia).
  rewrite <- E. rewrite digits_val_uint. reflexivity.
Qed.

Lemma plain_uint_str d : forallb plain_char (uint_str d) = true.
Proof. induction d; simpl; auto. Qed.

(** [int(str(n)) == n] *)
Lemma int_of_str_str_int n : int_of_str (str_int n) = Ok n.
Proof.
  unfold int_of_str, str_int. destruct n as [|p|p]; cbn [Z.to_int].
  - reflexivity.
  - rewrite plain_uint_str.
    rewrite int_literal_digits by apply DecimalPos.Unsigned.to_uint_nonnil.
    unfold Z.of_uint. rewrite DecimalPos.Unsigned.of_to. reflexivity.
  - cbn [forallb]. rewrite plain_uint_str. cbn [andb plain_char].
    change (plain_char (ch "-")) with true. cbv match.
    destruct (uint_str_head (DecimalPos.Unsigned.to_uint_nonnil p)) as (c & s & E & Hc).
    cbn [int_literal]. change (ch "-" =? ch "-") with true. cbv match.
    rewrite E. rewrite <- E. rewrite digits_val_uint. cbn [of_option rbind].
    rewrite DecimalPos.Unsigned.of_to. reflexivity.
Qed.

Lemma in_range_iff i n : In i (range n) <-> 0 <= i < n.
Proof.
  unfold range. rewrite in_map_iff. split.
  - intros (k & <- & Hk). apply in_seq in Hk. lia.
  - intros H. exists (Z.to_nat i). split; [lia|]. apply in_seq. lia.
Qed.

(** The alphabet and the decoding table agree on the 64 six-bit values;
    no alphabet character is the pad, a colon, or outside ASCII. *)
Lemma b64_table i :
  0 <= i < 64 ->
  b64_index (b64_char i) = Some i /\
  (b64_char i =? pad_char) = false /\
  (b64_char i =? ch ":") = false /\
  (b64_char i <? 128) = true.
Proof.
  intros H.
  assert (T : forallb (fun i =>
                match b64_index (b64_char i) with
                | Some j => (j =? i) && negb (b64_char i =? pad_char)
                            && negb (b64_char i =? ch ":") && (b64_char i <? 128)
                | None => false
                end) (range 64) = true) by (vm_compute; reflexivity).
  rewrite forallb_forall in T. specialize (T i (proj2 (in_range_iff i 64) H)).
  destruct (b64_index (b64_char i)) as [j|]; [|discriminate].
  repeat (apply andb_true_iff in T as [T ?]).
  apply Z.eqb_eq in T. subst j.
  repeat split; auto; apply negb_true_iff; auto.
Qed.

Lemma a2b_char0 i s l p :
  0 <= i < 64 -> a2b_base64 (b64_char i :: s) 0 l p = a2b_base64 s 1 i 0.
Proof.
  intros H. destruct (b64_table H) as (Hi & Hp & _).
  cbn [a2b_base64]. rewrite Hp, Hi. reflexivity.
Qed.

Lemma a2b_char1 i s l p :
  0 <= i < 64 ->
  a2b_base64 (b64_char i :: s) 1 l p
  = out <~ a2b_base64 s 2 (i mod 16) 0 ;; Ok ((l * 4 + i / 16) :: out).
Proof.
  intros H. destruct (b64_table H) as (Hi & Hp & _).
  cbn [a2b_base64]. rewrite Hp, Hi. reflexivity.
Qed.

Lemma a2b_char2 i s l p :
  0 <= i < 64 ->
  a2b_base64 (b64_char i :: s) 2 l p
  = out <~ a2b_base64 s 3 (i mod 4) 0 ;; Ok ((l * 16 + i / 4) :: out).
Proof.
  intros H. destruct (b64_table H) as (Hi & Hp & _).
  cbn [a2b_base64]. rewrite Hp, Hi. reflexivity.
Qed.

Lemma a2b_char3 i s l p :
  0 <= i < 64 ->
  a2b_base64 (b64_char i :: s) 3 l p
  = out <~ a2b_base64 s 0 0 0 ;; Ok ((l * 64 + i) :: out).
Proof.
  intros H. destruct (b64_table H) as (Hi & Hp & _).
  cbn [a2b_base64]. rewrite Hp, Hi. reflexivity.
Qed.

Ltac sextet := unfold is_byte in *; Z.to_euclidean_division_equations; lia.

(** [binascii.a2b_base64] inverts [b64encode] on byte strings. *)
Lemma a2b_b64encode bs : Forall is_byte bs -> a2b_base64 (b64encode bs) 0 0 0 = Ok bs.
Proof.
  induction bs as [| a | a b | a b c l IH] using list_ind3; intros H.
  - reflexivity.
  - inversion H as [|? ? Ha _]; subst.
    cbn [b64encode].
    rewrite a2b_char0 by sextet. rewrite a2b_char1 by sextet.
    cbn. f_equal. f_equal. sextet.
  - inversion H as [|? ? Ha H1]; subst. inversion H1 as [|? ? Hb _]; subst.
    cbn [b64encode].
    rewrite a2b_char0 by sextet. rewrite a2b_char1 by sextet. rewrite a2b_char2 by sextet.
    cbn. f_equal. f_equal; [sextet|]. f_equal. sextet.
  - inversion H as [|? ? Ha H1]; subst. inversion H1 as [|? ? Hb H2]; subst.
    inversion H2 as [|? ? Hc H3]; subst.
    change (b64encode (a :: b :: c :: l)) with
      (b64_char (a / 4) :: b64_char (a mod 4 * 16 + b / 16)
       :: b64_char (b mod 16 * 4 + c / 64) :: b64_char (c mod 64) :: b64encode l).
    rewrite a2b_char0 by sextet. rewrite a2b_char1 by sextet.
    rewrite a2b_char2 by sextet. rewrite a2b_char3 by sextet.
    rewrite (IH H3). cbn. f_equal. f_equal; [sextet|]. f_equal; [sextet|]. f_equal. sextet.
Qed.

Lemma b64encode_chars bs : Forall is_byte bs -> Forall b64_text_char (b64encode bs).
Proof.
  assert (Hchar : forall i, 0 <= i < 64 -> b64_text_char (b64_char i)).
  { intros i Hi. destruct (b64_table Hi) as (_ & _ & H1 & H2). split; auto. }
  assert (Hpad : b64_text_char pad_char) by (split; reflexivity).
  induction bs as [| a | a b | a b c l IH] using list_ind3; intros H.
  - constructor.
  - inversion H as [|? ? Ha _]; subst.
    cbn [b64encode]. repeat constructor; auto; apply Hchar; sextet.
  - inversion H as [|? ? Ha H1]; subst. inversion H1 as [|? ? Hb _]; subst.
    cbn [b64encode]. repeat constructor; auto; apply Hchar; sextet.
  - inversion H as [|? ? Ha H1]; subst. inversion H1 as [|? ? Hb H2]; subst.
    inversion H2 as [|? ? Hc H3]; subst.
    change (b64encode (a :: b :: c :: l)) with
      (b64_char (a / 4) :: b64_char (a mod 4 * 16 + b / 16)
       :: b64_char (b mod 16 * 4 + c / 64) :: b64_char (c mod 64) :: b64encode l).
    repeat (constructor; [apply Hchar; sextet|]). auto.
Qed.

(** [base64.b64decode(base64.b64encode(bs)) == bs] *)
Lemma b64decode_b64encode bs : Forall is_byte bs -> b64decode (b64encode bs) = Ok bs.
Proof.
  intros H. unfold b64decode.
  replace (forallb (fun c => c <? 128) (b64encode bs)) with true.
  - apply a2b_b64encode; auto.
  - symmetry. apply forallb_forall. intros c Hc.
    pose proof (b64encode_chars H) as Hall. rewrite Forall_forall in Hall.
    apply Hall in Hc. apply Hc.
Qed.

(** The colon written after the base64 text is the first one. *)
Lemma split_colon_b64 text rest :
  Forall b64_text_char text -> split_colon (text ++ ch ":" :: rest) = (text, Some rest).
Proof.
  induction text as [|c text IH]; intros H; simpl.
  - reflexivity.
  - inversion H as [|? ? [_ Hc] Ht]; subst. rewrite Hc. rewrite (IH Ht). reflexivity.
Qed.

(* ------------------------------------------------------------------ *)
(** ** Bit-packing of booleans *)
(* ------------------------------------------------------------------ *)

(** Setting or testing one of the eight bits of a byte. *)
Lemma byte_bit_ops b m :
  is_byte b -> 0 <= m < 8 ->
  is_byte (Z.lor b (Z.shiftl 1 m)) /\
  negb (Z.land b (Z.shiftl 1 m) =? 0) = Z.testbit b m.
Proof.
  intros Hb Hm.
  assert (T : forallb (fun b => forallb (fun m =>
                let x := Z.lor b (Z.shiftl 1 m) in
                (0 <=? x) && (x <? 256)
                && Bool.eqb (negb (Z.land b (Z.shiftl 1 m) =? 0)) (Z.testbit b m))
              (range 8)) (range 256) = true) by (vm_compute; reflexivity).
  rewrite forallb_forall in T. specialize (T b (proj2 (in_range_iff b 256) Hb)).
  rewrite forallb_forall in T. specialize (T m (proj2 (in_range_iff m 8) Hm)).
  cbv zeta in T. apply andb_true_iff in T as [T He]. apply andb_true_iff in T as [T0 T1].
  apply Z.leb_le in T0. apply Z.ltb_lt in T1. apply Bool.eqb_prop in He.
  split; auto. split; auto.
Qed.

Lemma byte_or_spec mask ba : forall idx,
  (idx < length ba)%nat ->
  exists ba', CompressedReadable.byte_or idx mask ba = Ok ba' /\
              length ba' = length ba /\
              forall k, nth k ba' 0 = if (k =? idx)%nat then Z.lor (nth k ba 0) mask
                                      else nth k ba 0.
Proof.
  induction ba as [|b ba IH]; intros idx H; simpl in H; [lia|].
  destruct idx as [|idx]; simpl.
  - eexists; split; [reflexivity|]. split; auto. intros [|k]; reflexivity.
  - destruct (IH idx) as (ba' & -> & Hl & Hn); [lia|]. simpl.
    eexists; split; [reflexivity|]. split; [simpl; lia|].
    intros [|k]; simpl; auto.
Qed.

Lemma bit_of_set ba ba' i :
  0 <= i ->
  (forall k, nth k ba' 0 = if (k =? Z.to_nat (i / 8))%nat
                           then Z.lor (nth k ba 0) (Z.shiftl 1 (i mod 8))
                           else nth k ba 0) ->
  forall j, 0 <= j -> bit_of ba' j = bit_of ba j || (j =? i).
Proof.
  intros Hi Hn j Hj. unfold bit_of. rewrite Hn.
  pose proof (Z.mod_pos_bound i 8 ltac:(lia)).
  pose proof (Z.mod_pos_bound j 8 ltac:(lia)).
  pose proof (Z.div_mod i 8 ltac:(lia)). pose proof (Z.div_mod j 8 ltac:(lia)).
  assert (0 <= i / 8) by (apply Z.div_pos; lia).
  assert (0 <= j / 8) by (apply Z.div_pos; lia).
  destruct (Nat.eqb_spec (Z.to_nat (j / 8)) (Z.to_nat (i / 8))) as [E|E].
  - rewrite Z.lor_spec. rewrite Z.shiftl_1_l. rewrite Z.pow2_bits_eqb by lia.
    f_equal. destruct (Z.eqb_spec (i mod 8) (j mod 8)), (Z.eqb_spec j i); auto; lia.
  - destruct (Z.eqb_spec j i); [subst; congruence|]. rewrite orb_false_r. reflexivity.
Qed.

Lemma Forall_is_byte_nth ba :
  (forall k, (k < length ba)%nat -> is_byte (nth k ba 0)) -> Forall is_byte ba.
Proof.
  intros H. apply Forall_forall. intros x Hx.
  destruct (In_nth ba x 0 Hx) as (k & Hk & <-). auto.
Qed.

Lemma is_byte_nth ba k : Forall is_byte ba -> is_byte (nth k ba 0).
Proof.
  intros H. destruct (Nat.lt_ge_cases k (length ba)) as [Hk|Hk].
  - rewrite Forall_forall in H. apply H. apply nth_In; auto.
  - rewrite nth_overflow by auto. unfold is_byte. lia.
Qed.

(** The packing loop sets bit [j] exactly when element [j - i] is true. *)
Lemma pack_loop_spec bools : forall i ba,
  0 <= i -> i + len bools <= 8 * len ba -> Forall is_byte ba ->
  exists ba', CompressedReadable.pack_loop i bools ba = Ok ba' /\
              length ba' = length ba /\ Forall is_byte ba' /\
              forall j, 0 <= j ->
                bit_of ba' j
                = bit_of ba j
                  || ((i <=? j) && (j <? i + len bools)
                      && nth (Z.to_nat (j - i)) bools false).
Proof.
  unfold len. induction bools as [|b bools IH]; intros i ba Hi Hlen Hb.
  - exists ba. repeat split; auto. intros j Hj. simpl.
    destruct ((i <=? j) && (j <? i + 0)) eqn:E; [|rewrite orb_false_r; auto].
    apply andb_true_iff in E as [E1 E2]. apply Z.leb_le in E1. apply Z.ltb_lt in E2. lia.
  - cbn [length] in *. rewrite Nat2Z.inj_succ in *.
    cbn [CompressedReadable.pack_loop]. cbv zeta.
    pose proof (Z.mod_pos_bound i 8 ltac:(lia)) as Hm.
    pose proof (Z.div_mod i 8 ltac:(lia)) as Hdm.
    assert (Hidx : (Z.to_nat (i / 8) < length ba)%nat).
    { assert (0 <= i / 8) by (apply Z.div_pos; lia). lia. }
    assert (Hstep : exists ba1,
               (if b then CompressedReadable.byte_or (Z.to_nat (i / 8))
                            (Z.shiftl 1 (i mod 8)) ba
                else Ok ba) = Ok ba1 /\
               length ba1 = length ba /\ Forall is_byte ba1 /\
               forall j, 0 <= j -> bit_of ba1 j = bit_of ba j || ((j =? i) && b)).
    { destruct b.
      - destruct (@byte_or_spec (Z.shiftl 1 (i mod 8)) ba _ Hidx) as (ba1 & E & Hl & Hn).
        exists ba1. repeat split; auto.
        + apply Forall_is_byte_nth. intros k Hk. rewrite Hn.
          destruct (k =? Z.to_nat (i / 8))%nat; [|apply is_byte_nth; auto].
          apply byte_bit_ops; auto. apply is_byte_nth; auto.
        + intros j Hj. rewrite andb_true_r. apply bit_of_set; auto.
      - exists ba. repeat split; auto. intros j Hj.
        rewrite andb_false_r, orb_false_r. reflexivity. }
    destruct Hstep as (ba1 & -> & Hl1 & Hb1 & Hbit1). cbn [rbind].
    destruct (IH (i + 1) ba1) as (ba' & E & Hl & Hb' & Hbit); auto; try lia.
    exists ba'. split; auto. split; [lia|]. split; auto.
    intros j Hj. rewrite (Hbit j Hj), (Hbit1 j Hj). rewrite <- orb_assoc. f_equal.
    destruct (Z.eqb_spec j i) as [->|Hne].
    + replace (i + 1 <=? i) with false by (symmetry; apply Z.leb_gt; lia).
      rewrite Z.leb_refl. replace (i <? i + Z.succ (Z.of_nat (length bools))) with true
        by (symmetry; apply Z.ltb_lt; lia).
      rewrite Z.sub_diag. simpl. rewrite orb_false_r. reflexivity.
    + simpl. destruct (Z.leb_spec (i + 1) j) as [H1|H1].
      * replace (i <=? j) with true by (symmetry; apply Z.leb_le; lia).
        replace (j <? i + Z.succ (Z.of_nat (length bools)))
          with (j <? i + 1 + Z.of_nat (length bools)) by (f_equal; lia).
        replace (Z.to_nat (j - i)) with (S (Z.to_nat (j - (i + 1)))) by lia.
        reflexivity.
      * replace (i <=? j) with false by (symmetry; apply Z.leb_gt; lia).
        reflexivity.
Qed.

Lemma bit_of_zeros n j : bit_of (repeat 0 n) j = false.
Proof.
  unfold bit_of.
  replace (nth (Z.to_nat (j / 8)) (repeat 0 n) 0) with 0.
  - apply Z.bits_0.
  - symmetry. apply nth_repeat.
Qed.

(** [_pack_booleans] never fails; in its buffer of [ceil(n / 8)] bytes, bit
    [j] is element [j] of the input and every further bit is clear. *)
Lemma pack_booleans_spec bools :
  exists bytes,
    CompressedReadable._pack_booleans bools
    = Ok (ch "T" :: b64encode bytes ++ ch ":" :: str_int (len bools)) /\
    len bytes = (len bools + 7) / 8 /\ Forall is_byte bytes /\
    forall j, 0 <= j ->
      bit_of bytes j = (j <? len bools) && nth (Z.to_nat j) bools false.
Proof.
  unfold CompressedReadable._pack_booleans. cbv zeta.
  assert (Hn : 0 <= (len bools + 7) / 8) by (apply Z.div_pos; unfold len; lia).
  pose proof (Z.div_mod (len bools + 7) 8 ltac:(lia)) as Hdm.
  pose proof (Z.mod_pos_bound (len bools + 7) 8 ltac:(lia)) as Hmb.
  destruct (@pack_loop_spec bools 0 (repeat 0 (Z.to_nat ((len bools + 7) / 8))))
    as (bytes & E & Hl & Hb & Hbit).
  - lia.
  - unfold len at 2. rewrite repeat_length. lia.
  - apply Forall_forall. intros x Hx. apply repeat_spec in Hx. subst. unfold is_byte. lia.
  - exists bytes. rewrite E. cbn [rbind]. split; auto.
    split; [unfold len at 1; rewrite Hl, repeat_length; lia|]. split; auto.
    intros j Hj. rewrite (Hbit j Hj). rewrite bit_of_zeros. simpl.
    replace (0 <=? j) with true by (symmetry; apply Z.leb_le; lia).
    rewrite Z.sub_0_r. reflexivity.
Qed.

Lemma rmap_pointwise A B (f : A -> result B) (g : A -> B) l :
  (forall a, In a l -> f a = Ok (g a)) -> rmap f l = Ok (map g l).
Proof.
  induction l as [|a l IH]; intros H; simpl; auto.
  rewrite (H a) by (left; auto). simpl. rewrite IH by (intros; apply H; right; auto).
  reflexivity.
Qed.

Lemma map_nth_seq A B (f : A -> B) (d : A) l :
  map (fun k => f (nth k l d)) (seq 0 (length l)) = map f l.
Proof.
  induction l as [|a l IH]; auto.
  cbn [length seq map nth]. f_equal.
  rewrite <- seq_shift, map_map. exact IH.
Qed.

Lemma map_nth_range A B (f : A -> B) (d : A) l :
  map (fun i => f (nth (Z.to_nat i) l d)) (range (len l)) = map f l.
Proof.
  unfold range, len. rewrite Nat2Z.id. rewrite map_map.
  rewrite <- (map_nth_seq f d l). apply map_ext. intros k.
  rewrite Nat2Z.id. reflexivity.
Qed.

Section BooleanArrays.
Context {F : PyFloat}.

(** Unpacking reads back what [_pack_booleans] wrote. *)
Lemma unpack_booleans_packed bools bytes :
  Forall is_byte bytes -> len bytes = (len bools + 7) / 8 ->
  (forall j, 0 <= j -> bit_of bytes j = (j <? len bools) && nth (Z.to_nat j) bools false) ->
  CompressedReadable._unpack_booleans
    (ch "T" :: b64encode bytes ++ ch ":" :: str_int (len bools))
  = Ok (JArr (map JBool bools)).
Proof.
  intros Hb Hl Hbit. unfold CompressedReadable._unpack_booleans. cbn [tl].
  rewrite split_colon_b64 by (apply b64encode_chars; auto).
  rewrite b64decode_b64encode by auto. cbn [rbind of_option].
  rewrite int_of_str_str_int. cbn [rbind].
  rewrite (@rmap_pointwise _ _ _ (fun i => JBool (nth (Z.to_nat i) bools false))).
  - cbn [rbind]. rewrite map_nth_range. reflexivity.
  - intros i Hi. apply in_range_iff in Hi. cbv zeta.
    pose proof (Z.mod_pos_bound i 8 ltac:(lia)) as Hm.
    pose proof (Z.div_mod i 8 ltac:(lia)) as Hdm.
    pose proof (Z.div_mod (len bools + 7) 8 ltac:(lia)) as Hdm'.
    pose proof (Z.mod_pos_bound (len bools + 7) 8 ltac:(lia)) as Hm'.
    assert (0 <= i / 8) by (apply Z.div_pos; lia).
    assert (Hidx : (Z.to_nat (i / 8) < length bytes)%nat) by (unfold len in *; lia).
    rewrite (nth_error_nth' bytes 0 Hidx). cbn [rbind of_option].
    destruct (@byte_bit_ops (nth (Z.to_nat (i / 8)) bytes 0) (i mod 8)) as [_ ->]; auto.
    { apply is_byte_nth; auto. }
    fold (bit_of bytes i). rewrite Hbit by lia.
    replace (i <? len bools) with true by (symmetry; apply Z.ltb_lt; lia).
    reflexivity.
Qed.

Lemma as_bools_map bools : CompressedReadable.as_bools (map JBool bools) = Some bools.
Proof. induction bools as [|b bools IH]; simpl; auto. rewrite IH. reflexivity. Qed.

Lemma py_eq_bool a b : py_eq (JBool a) (JBool b) = Bool.eqb a b.
Proof. destruct a, b; reflexivity. Qed.

Lemma is_constant_bools b0 rest :
  CompressedReadable._is_constant (map JBool (b0 :: rest)) = true <-> Forall (eq b0) rest.
Proof.
  cbn [map CompressedReadable._is_constant forallb].
  rewrite py_eq_bool, eqb_reflx, andb_true_l.
  rewrite forallb_forall, Forall_forall. split; intros H.
  - intros x Hx. specialize (H (JBool x) (in_map JBool _ _ Hx)).
    rewrite py_eq_bool in H. apply eqb_prop in H. auto.
  - intros v Hv. apply in_map_iff in Hv as (x & <- & Hx).
    rewrite py_eq_bool. rewrite <- (H x Hx). apply eqb_reflx.
Qed.

Lemma constant_record_decodes fuel key_map b0 rest :
  Forall (eq b0) rest ->
  CompressedReadable._decompress_value (S (S fuel))
    (CompressedReadable.constant_record (JBool b0) (len (b0 :: rest))) key_map
  = Ok (JArr (map JBool (b0 :: rest))).
Proof.
  intros H. cbn [CompressedReadable._decompress_value CompressedReadable.constant_record].
  change (dict_mem (py "c") [(py "c", JBool b0); (py "n", JInt (len (b0 :: rest)))])
    with true.
  change (dict_mem (py "n") [(py "c", JBool b0); (py "n", JInt (len (b0 :: rest)))])
    with true.
  cbn [andb].
  change (dict_get (py "c") [(py "c", JBool b0); (py "n", JInt (len (b0 :: rest)))])
    with (Some (JBool b0)).
  change (dict_get (py "n") [(py "c", JBool b0); (py "n", JInt (len (b0 :: rest)))])
    with (Some (JInt (len (b0 :: rest)))).
  cbn [of_option rbind py_range py_index].
  rewrite (@rmap_pointwise _ _ _ (fun _ => JBool b0)) by reflexivity.
  cbn [rbind]. f_equal. f_equal.
  unfold range, len. rewrite Nat2Z.id, map_map.
  assert (E : forall (l : list bool) (s : list nat),
             length s = length l -> Forall (eq b0) l ->
             map (fun _ => JBool b0) s = map JBool l).
  { induction l as [|x l IH]; intros [|k s] Hl Hall; simpl in *; try lia; auto.
    inversion Hall; subst. f_equal. apply IH; auto. }
  apply E; [rewrite length_seq; reflexivity | constructor; auto].
Qed.

End BooleanArrays.

(** C8, as the code has it.  For an all-boolean array: when all elements are
    equal - which a single element already is - the encoder emits the
    constant record [{"c": value, "n": count}] and no bit buffer, and the
    decoder expands it to the original array; otherwise, from length 3 on,
    it emits the tag [T], the base64 text of [ceil(count / 8)] bytes holding
    element [j] in bit [j mod 8] of byte [j div 8], a colon and the count,
    and the decoder returns exactly the original array. *)
Theorem boolean_array_encoding {F : PyFloat}
  (b0 : bool) (rest : list bool)
  (compress_value : json -> M CompressedReadable.state json) (st : CompressedReadable.state) :
  let bools := b0 :: rest in
  let arr := map JBool bools in
  (Forall (eq b0) rest ->
   CompressedReadable._compress_array compress_value arr st
   = Ok (CompressedReadable.constant_record (JBool b0) (len arr), st) /\
   forall fuel key_map,
     CompressedReadable._decompress_value (S (S fuel))
       (CompressedReadable.constant_record (JBool b0) (len arr)) key_map
     = Ok (JArr arr))
  /\
  (~ Forall (eq b0) rest -> 3 <= len arr ->
   exists bytes,
     let packed := ch "T" :: b64encode bytes ++ ch ":" :: str_int (len arr) in
     CompressedReadable._compress_array compress_value arr st = Ok (JStr packed, st) /\
     len bytes = (len arr + 7) / 8 /\
     (forall j, 0 <= j < len arr -> bit_of bytes j = nth (Z.to_nat j) bools false) /\
     forall fuel key_map,
       CompressedReadable._decompress_value (S fuel) (JStr packed) key_map = Ok (JArr arr)).
Proof.
  intros bools arr.
  assert (Hlen : len arr = len bools) by (unfold len, arr; rewrite length_map; auto).
  assert (Hc := is_constant_bools b0 rest). fold bools in Hc. fold arr in Hc.
  assert (Hab : CompressedReadable.as_bools arr = Some bools) by apply as_bools_map.
  assert (Hunfold :
    CompressedReadable._compress_array compress_value arr st
    = if CompressedReadable._is_constant arr
      then Ok (CompressedReadable.constant_record (JBool b0) (len arr), st)
      else if 3 <=? len arr
           then bind (lift (CompressedReadable._pack_booleans bools))
                  (fun s => ret (JStr s)) st
           else CompressedReadable._compress_array compress_value arr st).
  { unfold CompressedReadable._compress_array at 1.
    change arr with (JBool b0 :: map JBool rest) at 1. cbv beta match zeta.
    fold bools. fold arr. rewrite Hab.
    destruct (CompressedReadable._is_constant arr) eqn:E1; [reflexivity|].
    destruct (3 <=? len arr) eqn:E2; [reflexivity|].
    unfold CompressedReadable._compress_array.
    change arr with (JBool b0 :: map JBool rest) at 1. cbv beta match zeta.
    fold bools. fold arr. rewrite Hab, E1, E2. reflexivity. }
  split.
  - intros Hall. split.
    + rewrite Hunfold. rewrite (proj2 Hc Hall). reflexivity.
    + intros fuel key_map. rewrite Hlen. apply (constant_record_decodes fuel key_map Hall).
  - intros Hnot H3.
    destruct (pack_booleans_spec bools) as (bytes & Hp & Hl & Hb & Hbit).
    exists bytes. cbv zeta. rewrite Hlen. repeat split.
    + rewrite Hunfold.
      destruct (CompressedReadable._is_constant arr) eqn:E1.
      { exfalso. apply Hnot. apply Hc. reflexivity. }
      apply Z.leb_le in H3. rewrite H3.
      unfold bind, lift. rewrite Hp. reflexivity.
    + auto.
    + intros j Hj. rewrite Hbit by lia.
      replace (j <? len bools) with true by (symmetry; apply Z.ltb_lt; lia).
      reflexivity.
    + intros fuel key_map. cbn [CompressedReadable._decompress_value].
      unfold CompressedReadable.decompress_str.
      change (startswith (ch "T" :: ?x) (ch "S")) with false.
      change (startswith (ch "T" :: ?x) (ch "T")) with true.
      cbv match. apply unpack_booleans_packed; auto.
Qed.

Section BooleanRuns.
#[local] Existing Instance IntegerOnly.

(** The five booleans of the specification's test. *)
Lemma boolean_array_encoding_witness :
  let arr := map JBool [true; false; true; true; false] in
  exists packed,
    CompressedReadable._compress_array (CompressedReadable._compress_value 1) arr
      CompressedReadable.init = Ok (JStr packed, CompressedReadable.init) /\
    CompressedReadable._decompress_value 1 (JStr packed) [] = Ok (JArr arr).
Proof.
  intros arr.
  destruct (proj2 (@boolean_array_encoding IntegerOnly true [false; true; true; false]
                     (CompressedReadable._compress_value 1) CompressedReadable.init))
    as (bytes & Hc & _ & _ & Hd).
  - intros H. inversion H. discriminate.
  - vm_compute. discriminate.
  - eexists. split; [exact Hc | apply Hd].
Defined.

(** C8 as stated fails: a single boolean is already a constant run, and is
    encoded as the record [{"c": true, "n": 1}]. *)
Lemma boolean_array_encoding_counterexample :
  len [JBool true] < 2 /\
  CompressedReadable._compress_array (CompressedReadable._compress_value 1) [JBool true]
    CompressedReadable.init
  = Ok (JObj [(py "c", JBool true); (py "n", JInt 1)], CompressedReadable.init).
Proof. split; reflexivity. Qed.

End BooleanRuns.

(* ------------------------------------------------------------------ *)
(** ** Numeric arrays: what holds of the packing of 32-bit integers *)
(* ------------------------------------------------------------------ *)

Lemma le_bytes_is_byte size : forall z, Forall is_byte (le_bytes size z).
Proof.
  induction size as [|size IH]; intros z; simpl; constructor; auto.
  unfold is_byte. apply Z.mod_pos_bound. lia.
Qed.

Lemma pack_ints_fits size zs :
  Forall (fits size) zs -> pack_ints size zs = Ok (flat_map (le_bytes size) zs).
Proof.
  induction 1 as [|z zs Hz _ IH]; simpl; auto.
  unfold pack_int. unfold fits in Hz.
  replace (- 2 ^ (8 * Z.of_nat size - 1) <=? z) with true by (symmetry; apply Z.leb_le; lia).
  replace (z <? 2 ^ (8 * Z.of_nat size - 1)) with true by (symmetry; apply Z.ltb_lt; lia).
  simpl. rewrite IH. reflexivity.
Qed.

Lemma pack_int_overflow size z :
  ~ fits size z -> pack_int size z = Raise StructError.
Proof.
  unfold fits, pack_int. intros H.
  destruct (Z.leb_spec (- 2 ^ (8 * Z.of_nat size - 1)) z); auto.
  destruct (Z.ltb_spec z (2 ^ (8 * Z.of_nat size - 1))); auto. lia.
Qed.

Lemma flat_map_is_byte size zs : Forall is_byte (flat_map (le_bytes size) zs).
Proof.
  induction zs as [|z zs IH]; simpl; [constructor|].
  apply Forall_app. split; auto. apply le_bytes_is_byte.
Qed.

Lemma unpack_b_packed zs :
  Forall (fits 1) zs -> unpack_b (flat_map (le_bytes 1) zs) = zs.
Proof.
  induction 1 as [|z zs Hz _ IH]; auto.
  unfold unpack_b in *.
  change (flat_map (le_bytes 1) (z :: zs)) with (z mod 256 :: flat_map (le_bytes 1) zs).
  cbn [map]. rewrite IH. f_equal. unfold fits in Hz. unfold signed.
  change (2 ^ (8 * Z.of_nat 1 - 1)) with 128 in *. change (2 ^ (8 * Z.of_nat 1)) with 256.
  destruct (Z.ltb_spec (z mod 256) 128); Z.to_euclidean_division_equations; lia.
Qed.

Lemma unpack_h_packed zs :
  Forall (fits 2) zs -> unpack_h (flat_map (le_bytes 2) zs) = Ok zs.
Proof.
  induction 1 as [|z zs Hz _ IH]; auto.
  change (flat_map (le_bytes 2) (z :: zs))
    with (z mod 256 :: z / 256 mod 256 :: flat_map (le_bytes 2) zs).
  cbn [unpack_h]. rewrite IH. cbn [rbind]. f_equal. f_equal.
  unfold fits in Hz. unfold signed, le_value. cbn [fold_right].
  change (2 ^ (8 * Z.of_nat 2 - 1)) with 32768 in *. change (2 ^ (8 * Z.of_nat 2)) with 65536.
  destruct (Z.ltb_spec (z mod 256 + 256 * (z / 256 mod 256 + 256 * 0)) 32768);
    Z.to_euclidean_division_equations; lia.
Qed.

Lemma unpack_i_packed zs :
  Forall (fits 4) zs -> unpack_i (flat_map (le_bytes 4) zs) = Ok zs.
Proof.
  induction 1 as [|z zs Hz _ IH]; auto.
  change (flat_map (le_bytes 4) (z :: zs))
    with (z mod 256 :: z / 256 mod 256 :: z / 256 / 256 mod 256
          :: z / 256 / 256 / 256 mod 256 :: flat_map (le_bytes 4) zs).
  cbn [unpack_i]. rewrite IH. cbn [rbind]. f_equal. f_equal.
  unfold fits in Hz. unfold signed, le_value. cbn [fold_right].
  change (2 ^ (8 * Z.of_nat 4 - 1)) with 2147483648 in *.
  change (2 ^ (8 * Z.of_nat 4)) with 4294967296.
  destruct (Z.ltb_spec
              (z mod 256
               + 256 * (z / 256 mod 256
                        + 256 * (z / 256 / 256 mod 256
                                 + 256 * (z / 256 / 256 / 256 mod 256 + 256 * 0))))
              2147483648);
    Z.to_euclidean_division_equations; lia.
Qed.

Lemma pack_ints_overflow size zs :
  ~ Forall (fits size) zs -> pack_ints size zs = Raise StructError.
Proof.
  induction zs as [|z zs IH]; intros H.
  - exfalso. apply H. constructor.
  - simpl. unfold pack_int at 1.
    destruct ((- 2 ^ (8 * Z.of_nat size - 1) <=? z) && (z <? 2 ^ (8 * Z.of_nat size - 1)))
      eqn:E; [|reflexivity].
    cbn [rbind]. rewrite IH; [reflexivity|].
    intros Hzs. apply H. constructor; auto.
    apply andb_true_iff in E as [E1 E2]. apply Z.leb_le in E1. apply Z.ltb_lt in E2.
    split; auto.
Qed.

Lemma fits_dec size zs : {Forall (fits size) zs} + {~ Forall (fits size) zs}.
Proof.
  apply Forall_dec. intros z. unfold fits.
  destruct (Z_le_dec (- 2 ^ (8 * Z.of_nat size - 1)) z);
    destruct (Z_lt_dec z (2 ^ (8 * Z.of_nat size - 1))); [left|right|right|right]; lia.
Qed.

Lemma forallb_map A B (f : B -> bool) (g : A -> B) l :
  forallb f (map g l) = forallb (fun x => f (g x)) l.
Proof. induction l as [|a l IH]; simpl; auto. rewrite IH. reflexivity. Qed.

(** The successive differences of a list of integers. *)
Lemma progression_tail z0 z1 rest :
  is_progression (z0 :: z1 :: rest)
  = forallb (fun d => d =? z1 - z0)
      (map (fun p => snd p - fst p) (combine (z1 :: rest) rest)).
Proof.
  unfold is_progression. cbn [tl combine forallb fst snd].
  rewrite Z.eqb_refl, andb_true_l. rewrite forallb_map. reflexivity.
Qed.

Lemma in_combine_tl (a b : Z) zs : In (a, b) (combine zs (tl zs)) -> In a zs /\ In b zs.
Proof.
  intros H. split; [eapply in_combine_l; eauto|].
  apply in_combine_r in H. destruct zs; simpl in *; auto.
Qed.

Lemma constant_is_progression z0 rest :
  forallb (fun z => z =? z0) rest = true -> is_progression (z0 :: rest) = true.
Proof.
  intros H. destruct rest as [|z1 rest]; auto.
  unfold is_progression. apply forallb_forall. intros [a b] Hin.
  apply in_combine_tl in Hin as [Ha Hb]. cbn [fst snd].
  assert (Hall : forall z, In z (z0 :: z1 :: rest) -> z = z0).
  { intros z [->|Hz]; auto. rewrite forallb_forall in H. apply Z.eqb_eq. auto. }
  rewrite (Hall a Ha), (Hall b Hb), (Hall z1 (or_intror (or_introl eq_refl))).
  apply Z.eqb_refl.
Qed.

Section NumericArrays.
Context {F : PyFloat}.

Lemma as_bools_ints z zs : CompressedReadable.as_bools (map JInt (z :: zs)) = None.
Proof. reflexivity. Qed.

Lemma as_nums_ints zs : CompressedReadable.as_nums (map JInt zs) = Some (map NInt zs).
Proof. induction zs as [|z zs IH]; simpl; auto. rewrite IH. reflexivity. Qed.

Lemma int_of_ints zs : map CompressedReadable.int_of (map NInt zs) = zs.
Proof. rewrite map_map. apply map_id. Qed.

Lemma is_int_ints zs : forallb CompressedReadable.is_int (map NInt zs) = true.
Proof. rewrite forallb_map. apply forallb_forall. reflexivity. Qed.

Lemma int_in_fits size zs :
  (0 < size)%nat ->
  forallb (CompressedReadable.int_in (- 2 ^ (8 * Z.of_nat size - 1))
             (2 ^ (8 * Z.of_nat size - 1) - 1)) (map NInt zs) = true
  <-> Forall (fits size) zs.
Proof.
  intros Hs. rewrite forallb_map, forallb_forall, Forall_forall.
  unfold fits. cbn [CompressedReadable.int_in].
  split; intros H z Hz; specialize (H z Hz).
  - apply andb_true_iff in H as [H1 H2]. apply Z.leb_le in H1. apply Z.leb_le in H2. lia.
  - apply andb_true_iff. split; [apply Z.leb_le | apply Z.leb_le]; lia.
Qed.

(** Which branch [_pack_numbers] takes on a list of ints: the narrowest of
    8, 16 and 32 bits that holds every element, and [struct.error] when
    32 bits do not. *)
Lemma pack_numbers_ints zs :
  CompressedReadable._pack_numbers (map NInt zs)
  = if fits_dec 1 zs then Ok (ch "B" :: b64encode (flat_map (le_bytes 1) zs))
    else if fits_dec 2 zs then Ok (ch "H" :: b64encode (flat_map (le_bytes 2) zs))
    else if fits_dec 4 zs then Ok (ch "I" :: b64encode (flat_map (le_bytes 4) zs))
    else Raise StructError.
Proof.
  unfold CompressedReadable._pack_numbers. rewrite int_of_ints, is_int_ints.
  pose proof (@int_in_fits 1 zs ltac:(lia)) as H1.
  pose proof (@int_in_fits 2 zs ltac:(lia)) as H2.
  change (- 2 ^ (8 * Z.of_nat 1 - 1)) with (-128) in H1.
  change (2 ^ (8 * Z.of_nat 1 - 1) - 1) with 127 in H1.
  change (- 2 ^ (8 * Z.of_nat 2 - 1)) with (-32768) in H2.
  change (2 ^ (8 * Z.of_nat 2 - 1) - 1) with 32767 in H2.
  destruct (fits_dec 1 zs) as [F1|F1].
  { rewrite (proj2 H1 F1). rewrite pack_ints_fits by auto. reflexivity. }
  destruct (forallb (CompressedReadable.int_in (-128) 127) (map NInt zs)) eqn:E1;
    [exfalso; apply F1; apply H1; reflexivity|].
  destruct (fits_dec 2 zs) as [F2|F2].
  { rewrite (proj2 H2 F2). rewrite pack_ints_fits by auto. reflexivity. }
  destruct (forallb (CompressedReadable.int_in (-32768) 32767) (map NInt zs)) eqn:E2;
    [exfalso; apply F2; apply H2; reflexivity|].
  destruct (fits_dec 4 zs) as [F4|F4].
  - rewrite pack_ints_fits by auto. reflexivity.
  - rewrite pack_ints_overflow by auto. reflexivity.
Qed.

(** Unpacking is lossless for each of the three integer widths. *)
Lemma unpack_numbers_packed zs :
  (Forall (fits 1) zs ->
   CompressedReadable._unpack_numbers (ch "B" :: b64encode (flat_map (le_bytes 1) zs))
   = Ok (JArr (map JInt zs))) /\
  (Forall (fits 2) zs ->
   CompressedReadable._unpack_numbers (ch "H" :: b64encode (flat_map (le_bytes 2) zs))
   = Ok (JArr (map JInt zs))) /\
  (Forall (fits 4) zs ->
   CompressedReadable._unpack_numbers (ch "I" :: b64encode (flat_map (le_bytes 4) zs))
   = Ok (JArr (map JInt zs))).
Proof.
  unfold CompressedReadable._unpack_numbers. cbn [nth_error of_option rbind tl].
  repeat split; intros H; rewrite b64decode_b64encode by apply flat_map_is_byte;
    cbn [rbind].
  - change (ch "B" =? ch "B") with true. cbv match. rewrite unpack_b_packed; auto.
  - change (ch "H" =? ch "B") with false. change (ch "H" =? ch "H") with true. cbv match.
    rewrite unpack_h_packed; auto.
  - change (ch "I" =? ch "B") with false. change (ch "I" =? ch "H") with false.
    change (ch "I" =? ch "I") with true. cbv match.
    rewrite unpack_i_packed; auto.
Qed.

Lemma deltas_ints a : forall b,
  rmap (fun p : num * num => num_sub (snd p) (fst p)) (combine (map NInt a) (map NInt b))
  = Ok (map NInt (map (fun p => snd p - fst p) (combine a b))).
Proof.
  induction a as [|x a IH]; intros [|y b]; simpl; auto.
  rewrite IH. reflexivity.
Qed.

Lemma set_of_grows (xs : list num) : forall acc,
  (2 <= length acc)%nat ->
  (2 <= length (fold_left (fun acc x => if existsb (num_eqb x) acc then acc else acc ++ [x])
                  xs acc))%nat.
Proof.
  induction xs as [|x xs IH]; intros acc H; simpl; auto.
  apply IH. destruct (existsb (num_eqb x) acc); auto. rewrite length_app. simpl. lia.
Qed.

Lemma set_of_ints d0 ds :
  (len (CompressedReadable.set_of (map NInt (d0 :: ds))) =? 1)
  = forallb (fun d => d =? d0) ds.
Proof.
  unfold CompressedReadable.set_of. cbn [map fold_left existsb app].
  induction ds as [|d ds IH]; auto.
  cbn [map fold_left existsb num_eqb forallb orb].
  rewrite orb_false_r. destruct (d =? d0).
  - rewrite IH. reflexivity.
  - cbn [app andb].
    match goal with
    | |- (len (fold_left ?f ?xs ?acc) =? 1) = false =>
        pose proof (@set_of_grows xs acc ltac:(simpl; lia)) as Hg
    end.
    apply Z.eqb_neq. unfold len. lia.
Qed.

Lemma is_sequential_ints zs :
  3 <= len zs -> CompressedReadable._is_sequential (map JInt zs) = Ok (is_progression zs).
Proof.
  intros Hlen. unfold CompressedReadable._is_sequential.
  replace (len (map JInt zs) <? 3) with false
    by (symmetry; apply Z.ltb_ge; unfold len in *; rewrite length_map; lia).
  rewrite as_nums_ints.
  replace (tl (map NInt zs)) with (map NInt (tl zs)) by (destruct zs; reflexivity).
  rewrite deltas_ints. cbn [rbind].
  destruct zs as [|z0 [|z1 rest]]; try (unfold len in Hlen; simpl in Hlen; lia).
  rewrite progression_tail. cbn [tl combine map fst snd].
  rewrite map_map.
  replace (map (fun x : Z => num_round (NInt x) 10)
             (map (fun p : Z * Z => snd p - fst p) (combine (z1 :: rest) rest)))
    with (map NInt (map (fun p : Z * Z => snd p - fst p) (combine (z1 :: rest) rest)))
    by (rewrite !map_map; reflexivity).
  f_equal. exact (set_of_ints (z1 - z0) _).
Qed.

Lemma py_eq_int a b : py_eq (JInt a) (JInt b) = (a =? b).
Proof. reflexivity. Qed.

Lemma is_constant_ints z0 rest :
  CompressedReadable._is_constant (map JInt (z0 :: rest))
  = forallb (fun z => z =? z0) rest.
Proof.
  cbn [map CompressedReadable._is_constant forallb].
  rewrite py_eq_int, Z.eqb_refl, andb_true_l. rewrite forallb_map. reflexivity.
Qed.

(** What [_compress_array] does with three or more integers. *)
Lemma compress_array_ints compress_value zs st :
  3 <= len zs ->
  CompressedReadable._compress_array compress_value (map JInt zs) st
  = if is_progression zs
    then match zs with
         | z0 :: z1 :: _ =>
             Ok (JObj [(py "s", JInt z0); (py "d", JInt (z1 - z0)); (py "n", JInt (len zs))],
                 st)
         | _ => Raise IndexError
         end
    else r <~ CompressedReadable._pack_numbers (map NInt zs) ;; Ok (JStr r, st).
Proof.
  intros Hlen. destruct zs as [|z0 [|z1 rest]]; try (unfold len in Hlen; simpl in Hlen; lia).
  set (zs := z0 :: z1 :: rest) in *.
  assert (Hl : len (map JInt zs) = len zs) by (unfold len; rewrite length_map; auto).
  unfold CompressedReadable._compress_array.
  change (map JInt zs) with (JInt z0 :: map JInt (z1 :: rest)) at 1.
  cbv beta match zeta.
  change (JInt z0 :: map JInt (z1 :: rest)) with (map JInt zs).
  unfold zs at 1. rewrite as_bools_ints. fold zs.
  rewrite as_nums_ints.
  unfold bind at 1. unfold lift at 1. rewrite is_sequential_ints by auto. cbn [rbind].
  destruct (is_progression zs) eqn:Ep.
  - rewrite <- Hl. reflexivity.
  - unfold zs at 1. rewrite is_constant_ints.
    destruct (forallb (fun z => z =? z0) (z1 :: rest)) eqn:Ec.
    { apply constant_is_progression in Ec. fold zs in Ec. congruence. }
    rewrite Hl. apply Z.leb_le in Hlen. rewrite Hlen.
    unfold bind, lift, ret.
    destruct (CompressedReadable._pack_numbers (map NInt zs)); reflexivity.
Qed.

End NumericArrays.

Section NumericArrayEncoding.
Context {F : PyFloat}.

Lemma decompress_packed_ints fuel key_map tag bytes :
  char_in tag (py "BHI") = true ->
  CompressedReadable._decompress_value (S fuel) (JStr (tag :: bytes)) key_map
  = CompressedReadable._unpack_numbers (tag :: bytes).
Proof.
  intros H. cbn [CompressedReadable._decompress_value].
  unfold CompressedReadable.decompress_str. cbn [startswith nth_error of_option rbind].
  unfold char_in in *. cbn [existsb py map list_ascii_of_string] in *.
  destruct (tag =? ch "B") eqn:EB; [apply Z.eqb_eq in EB; subst; reflexivity|].
  destruct (tag =? ch "H") eqn:EH; [apply Z.eqb_eq in EH; subst; reflexivity|].
  destruct (tag =? ch "I") eqn:EI; [apply Z.eqb_eq in EI; subst; reflexivity|].
  discriminate.
Qed.

(** X9: the part of C9 that holds.  An array of at least three integers that is
    not an arithmetic progression (hence not constant) and whose elements
    all fit in 32 bits is packed with the narrowest of the widths 8, 16 and
    32 that holds every element, under the tag [B], [H] or [I], and the
    decoder returns the original integers. *)
Lemma numeric_array_packing compress_value zs st :
  3 <= len zs -> is_progression zs = false -> Forall (fits 4) zs ->
  exists tag size,
    let packed := tag :: b64encode (flat_map (le_bytes size) zs) in
    CompressedReadable._compress_array compress_value (map JInt zs) st
    = Ok (JStr packed, st) /\
    Forall (fits size) zs /\
    ((tag = ch "B" /\ size = 1%nat) \/
     (tag = ch "H" /\ size = 2%nat /\ ~ Forall (fits 1) zs) \/
     (tag = ch "I" /\ size = 4%nat /\ ~ Forall (fits 2) zs)) /\
    forall fuel key_map,
      CompressedReadable._decompress_value (S fuel) (JStr packed) key_map
      = Ok (JArr (map JInt zs)).
Proof.
  intros Hlen Hp H4.
  pose proof (@compress_array_ints _ compress_value zs st Hlen) as Hc. rewrite Hp in Hc.
  rewrite pack_numbers_ints in Hc.
  destruct (unpack_numbers_packed zs) as (U1 & U2 & U4).
  destruct (fits_dec 1 zs) as [F1|F1]; [|destruct (fits_dec 2 zs) as [F2|F2];
    [|destruct (fits_dec 4 zs) as [F4|F4]; [|contradiction]]].
  - exists (ch "B"), 1%nat. cbv zeta. split; [exact Hc|]. split; [auto|]. split; [auto|].
    intros fuel key_map. rewrite decompress_packed_ints by reflexivity. auto.
  - exists (ch "H"), 2%nat. cbv zeta. split; [exact Hc|]. split; [auto|]. split; [auto|].
    intros fuel key_map. rewrite decompress_packed_ints by reflexivity. auto.
  - exists (ch "I"), 4%nat. cbv zeta. split; [exact Hc|]. split; [auto|]. split; [auto|].
    intros fuel key_map. rewrite decompress_packed_ints by reflexivity. auto.
Qed.

(** X10: the defect behind C3 and C9, in general: as soon as one element of such
    an array is outside the 32-bit range, encoding raises [struct.error]. *)
Lemma numeric_array_overflow compress_value zs st :
  3 <= len zs -> is_progression zs = false -> ~ Forall (fits 4) zs ->
  CompressedReadable._compress_array compress_value (map JInt zs) st = Raise StructError.
Proof.
  intros Hlen Hp H4.
  rewrite (@compress_array_ints _ compress_value zs st Hlen). rewrite Hp.
  rewrite pack_numbers_ints.
  assert (N1 : ~ Forall (fits 1) zs).
  { intros H. apply H4. eapply Forall_impl; [|exact H]. unfold fits. intros z.
    change (2 ^ (8 * Z.of_nat 1 - 1)) with 128.
    change (2 ^ (8 * Z.of_nat 4 - 1)) with 2147483648. lia. }
  assert (N2 : ~ Forall (fits 2) zs).
  { intros H. apply H4. eapply Forall_impl; [|exact H]. unfold fits. intros z.
    change (2 ^ (8 * Z.of_nat 2 - 1)) with 32768.
    change (2 ^ (8 * Z.of_nat 4 - 1)) with 2147483648. lia. }
  destruct (fits_dec 1 zs); [contradiction|].
  destruct (fits_dec 2 zs); [contradiction|].
  destruct (fits_dec 4 zs); [contradiction|]. reflexivity.
Qed.

(** Constant successive differences, from three elements on, give the
    delta record [{"s": first, "d": difference, "n": count}]. *)
Lemma progression_delta_record compress_value z0 z1 rest st :
  let zs := z0 :: z1 :: rest in
  3 <= len zs -> is_progression zs = true ->
  CompressedReadable._compress_array compress_value (map JInt zs) st
  = Ok (JObj [(py "s", JInt z0); (py "d", JInt (z1 - z0)); (py "n", JInt (len zs))], st).
Proof.
  intros zs Hlen Hp.
  rewrite (@compress_array_ints _ compress_value zs st Hlen). rewrite Hp. reflexivity.
Qed.

End NumericArrayEncoding.

(* ------------------------------------------------------------------ *)
(** ** The fuel of [compress] is enough

    [compress] starts the walk with fuel one above the nesting depth; the
    walk then ends in a value or in a Python exception, never for lack of
    fuel. *)
(* ------------------------------------------------------------------ *)

Lemma po_rbind A B (c : result A) (k : A -> result B) :
  python_outcome c -> (forall a, python_outcome (k a)) -> python_outcome (rbind c k).
Proof. destruct c; simpl; auto. Qed.

Lemma po_of_option A e (o : option A) : python_outcome (of_option e o).
Proof. destruct o; exact I. Qed.

Lemma po_rmap A B (f : A -> result B) l :
  (forall a, python_outcome (f a)) -> python_outcome (rmap f l).
Proof.
  intros H. induction l as [|a l IH]; simpl; [exact I|].
  apply po_rbind; auto. intros b. apply po_rbind; auto. intros bs. exact I.
Qed.

Lemma runs_ret S A (a : A) : runs (@ret S A a).
Proof. intros st. exact I. Qed.

Lemma runs_lift S A (r : result A) : python_outcome r -> runs (@lift S A r).
Proof. intros H st. unfold lift. apply po_rbind; auto. intros a. exact I. Qed.

Lemma runs_bind S A B (c : M S A) (k : A -> M S B) :
  runs c -> (forall a, runs (k a)) -> runs (bind c k).
Proof.
  intros Hc Hk st. unfold bind. specialize (Hc st).
  destruct (c st) as [[a st']| | |]; simpl in *; auto. apply Hk.
Qed.

Lemma runs_mapM S A B (f : A -> M S B) l :
  (forall a, In a l -> runs (f a)) -> runs (mapM f l).
Proof.
  induction l as [|a l IH]; intros H; simpl; [apply runs_ret|].
  apply runs_bind; [apply H; left; auto|]. intros b.
  apply runs_bind; [apply IH; intros; apply H; right; auto|]. intros bs. apply runs_ret.
Qed.

Lemma runs_foldM S A B (f : B -> A -> M S B) l :
  (forall b a, In a l -> runs (f b a)) -> forall b, runs (foldM f l b).
Proof.
  induction l as [|a l IH]; intros H b; simpl; [apply runs_ret|].
  apply runs_bind; [apply H; left; auto|]. intros b'.
  apply IH. intros; apply H; right; auto.
Qed.

(** Pure steps: chains of binds over total or raising functions. *)
Ltac outcome :=
  repeat first
    [ exact I
    | apply po_of_option
    | apply po_rbind; [|intros ?]
    | apply po_rmap; intros ?
    | match goal with
      | |- python_outcome (if ?b then _ else _) => destruct b
      | |- python_outcome (match ?x with _ => _ end) => destruct x
      | |- python_outcome (let (_, _) := ?x in _) => destruct x
      end ].

Lemma po_utf8_encode s : python_outcome (utf8_encode s).
Proof.
  induction s as [|c s IH]; simpl; [exact I|].
  apply po_rbind; [unfold utf8_char; outcome|]. intros bs.
  apply po_rbind; auto. intros rest. exact I.
Qed.

Lemma po_pack_ints size ns : python_outcome (pack_ints size ns).
Proof.
  induction ns as [|n ns IH]; simpl; [exact I|].
  apply po_rbind; [unfold pack_int; outcome|]. intros b.
  apply po_rbind; auto. intros bs. exact I.
Qed.

Lemma po_byte_or mask ba : forall i, python_outcome (CompressedReadable.byte_or i mask ba).
Proof.
  induction ba as [|b ba IH]; intros [|i]; simpl; try exact I.
  apply po_rbind; auto. intros r. exact I.
Qed.

Lemma po_pack_loop bools : forall i ba, python_outcome (CompressedReadable.pack_loop i bools ba).
Proof.
  induction bools as [|b bools IH]; intros i ba; simpl; [exact I|].
  apply po_rbind; auto. destruct b; [apply po_byte_or | exact I].
Qed.

Lemma po_pack_booleans bools : python_outcome (CompressedReadable._pack_booleans bools).
Proof.
  unfold CompressedReadable._pack_booleans. cbv zeta.
  apply po_rbind; [apply po_pack_loop|]. intros ba. exact I.
Qed.

Section EnoughFuel.
Context {F : PyFloat}.

Lemma po_to_float n : python_outcome (to_float n).
Proof. unfold to_float. outcome. Qed.

Lemma po_num_sub a b : python_outcome (num_sub a b).
Proof.
  unfold num_sub, num_binop.
  destruct a as [m|p], b as [n|q]; try exact I;
    (apply po_rbind; [apply po_to_float|]; intros u;
     apply po_rbind; [apply po_to_float|]; intros w; exact I).
Qed.

Lemma po_pack_numbers numbers : python_outcome (CompressedReadable._pack_numbers numbers).
Proof.
  unfold CompressedReadable._pack_numbers, CompressedReadable.pack_doubles.
  repeat match goal with
         | |- python_outcome (if ?b then _ else _) => destruct b
         end;
    (apply po_rbind; [|intros p; exact I]);
    try apply po_pack_ints.
  apply po_rbind; [apply po_rmap; intros a; unfold CompressedReadable.pack_double; outcome
                  | intros xs; exact I].
Qed.

Lemma po_is_sequential numbers : python_outcome (CompressedReadable._is_sequential numbers).
Proof.
  unfold CompressedReadable._is_sequential.
  destruct (len numbers <? 3); [exact I|].
  destruct (CompressedReadable.as_nums numbers); [|exact I].
  apply po_rbind; [apply po_rmap; intros p; apply po_num_sub | intros ds; exact I].
Qed.

Lemma po_delta_record values : python_outcome (CompressedReadable.delta_record values).
Proof.
  unfold CompressedReadable.delta_record.
  destruct values as [|v0 [|v1 rest]]; try exact I.
  destruct (as_num v0); [|exact I]. destruct (as_num v1); [|exact I].
  apply po_rbind; [apply po_num_sub | intros d; exact I].
Qed.

Lemma po_compress_str s : python_outcome (CompressedReadable.compress_str s).
Proof.
  unfold CompressedReadable.compress_str.
  destruct (20 <? len s); [|exact I].
  apply po_rbind; [apply po_utf8_encode|]. intros bytes.
  destruct (_ <? _); exact I.
Qed.

Lemma runs_cr_get_short_key k : runs (CompressedReadable._get_short_key k).
Proof.
  intros st. unfold CompressedReadable._get_short_key. cbv zeta.
  destruct (dict_get k _); exact I.
Qed.

Lemma runs_compress_column cv col_values :
  (forall v, In v col_values -> runs (cv v)) ->
  runs (CompressedReadable.compress_column cv col_values).
Proof.
  intros Hcv. unfold CompressedReadable.compress_column.
  assert (Helem : runs (bind (mapM cv col_values) (fun items => ret (JArr items)))).
  { apply runs_bind; [apply runs_mapM; auto | intros; apply runs_ret]. }
  destruct (CompressedReadable._is_constant col_values) eqn:Ec.
  { apply runs_bind; [|intros; apply runs_ret].
    destruct col_values as [|v vs]; [discriminate|]. apply Hcv. left; auto. }
  apply runs_bind; [apply runs_lift; apply po_is_sequential|]. intros seq.
  destruct seq; [apply runs_lift; apply po_delta_record|].
  destruct (CompressedReadable.as_bools col_values);
    [|destruct (CompressedReadable.as_nums col_values)]; auto;
    destruct (3 <=? len col_values); auto.
  - apply runs_bind; [apply runs_lift; apply po_pack_booleans | intros; apply runs_ret].
  - apply runs_bind; [apply runs_lift; apply po_pack_numbers | intros; apply runs_ret].
Qed.

Lemma runs_cr_compress_array cv arr :
  (forall v, reached arr v -> runs (cv v)) ->
  runs (CompressedReadable._compress_array cv arr).
Proof.
  intros Hcv. unfold CompressedReadable._compress_array.
  assert (Helem : runs (bind (mapM cv arr) (fun items => ret (JArr items)))).
  { apply runs_bind; [apply runs_mapM; intros; apply Hcv; left; auto
                     | intros; apply runs_ret]. }
  destruct arr as [|first rest]; [apply runs_ret|].
  cbv beta match zeta. set (arr := first :: rest) in *.
  assert (Hobjects :
    runs (if forallb is_dict arr
          then if forallb (fun item => keyset_eqb (keys (fields_of item))
                                         (keys (fields_of (hd JNull arr)))) arr
               then bind (mapM CompressedReadable._get_short_key
                            (keys (fields_of (hd JNull arr))))
                      (fun short_keys =>
                         bind (mapM (fun orig_key =>
                                 bind (lift (rmap (fun item =>
                                               of_option KeyError
                                                 (dict_get orig_key (fields_of item))) arr))
                                   (fun col_values =>
                                      CompressedReadable.compress_column cv col_values))
                                 (keys (fields_of (hd JNull arr))))
                           (fun columns =>
                              ret (JObj [(py "a", JInt 1);
                                         (py "k", JArr (map JStr short_keys));
                                         (py "d", JArr columns)])))
               else bind (mapM cv arr) (fun items => ret (JArr items))
          else bind (mapM cv arr) (fun items => ret (JArr items)))).
  { destruct (forallb is_dict arr); auto. destruct (forallb _ arr); auto.
    apply runs_bind; [apply runs_mapM; intros; apply runs_cr_get_short_key|]. intros sks.
    apply runs_bind; [|intros; apply runs_ret].
    apply runs_mapM. intros orig_key _. intros st.
    unfold bind, lift.
    destruct (rmap (fun item => of_option KeyError (dict_get orig_key (fields_of item))) arr)
      as [col_values| | |] eqn:E; simpl; try exact I.
    - apply runs_compress_column. intros v Hv. apply Hcv. right.
      clear -E Hv. revert col_values E Hv.
      generalize arr as l.
      induction l as [|item l IH]; intros col_values E Hv; simpl in E.
      + inversion E; subst. contradiction.
      + apply rbind_ok in E as (x & Hx & E). apply rbind_ok in E as (xs & Hxs & E).
        inversion E; subst. destruct Hv as [->|Hv].
        * exists item, orig_key. split; [left; auto|].
          destruct (dict_get orig_key (fields_of item)); simpl in Hx; inversion Hx; auto.
        * destruct (IH xs Hxs Hv) as (item' & k & Hin & Hget).
          exists item', k. split; [right; auto | auto].
    - assert (Hpo : python_outcome
                      (rmap (fun item => of_option KeyError
                                           (dict_get orig_key (fields_of item))) arr))
        by (apply po_rmap; intros; apply po_of_option).
      rewrite E in Hpo. exact Hpo.
    - assert (Hpo : python_outcome
                      (rmap (fun item => of_option KeyError
                                           (dict_get orig_key (fields_of item))) arr))
        by (apply po_rmap; intros; apply po_of_option).
      rewrite E in Hpo. exact Hpo. }
  assert (Hnumeric :
    forall body : M CompressedReadable.state json, runs body ->
    runs (match CompressedReadable.as_nums arr with
          | Some nums =>
              bind (lift (CompressedReadable._is_sequential arr))
                (fun seq =>
                   if seq then lift (CompressedReadable.delta_record arr)
                   else if CompressedReadable._is_constant arr
                        then ret (CompressedReadable.constant_record (hd JNull arr) (len arr))
                        else if 3 <=? len arr
                             then bind (lift (CompressedReadable._pack_numbers nums))
                                    (fun s => ret (JStr s))
                             else body)
          | None => body
          end)).
  { intros body Hbody. destruct (CompressedReadable.as_nums arr); auto.
    apply runs_bind; [apply runs_lift; apply po_is_sequential|]. intros seq.
    destruct seq; [apply runs_lift; apply po_delta_record|].
    destruct (CompressedReadable._is_constant arr); [apply runs_ret|].
    destruct (3 <=? len arr); auto.
    apply runs_bind; [apply runs_lift; apply po_pack_numbers | intros; apply runs_ret]. }
  destruct (CompressedReadable.as_bools arr).
  - destruct (CompressedReadable._is_constant arr); [apply runs_ret|].
    destruct (3 <=? len arr).
    + apply runs_bind; [apply runs_lift; apply po_pack_booleans | intros; apply runs_ret].
    + apply Hnumeric. exact Hobjects.
  - apply Hnumeric. exact Hobjects.
Qed.

Lemma runs_cr_compress_object cv obj :
  (forall k v, In (k, v) obj -> runs (cv v)) ->
  runs (CompressedReadable._compress_object cv obj).
Proof.
  intros Hcv. unfold CompressedReadable._compress_object.
  apply runs_bind; [|intros; apply runs_ret].
  apply runs_foldM. intros b [k v] Hin.
  apply runs_bind; [apply runs_cr_get_short_key|]. intros sk.
  apply runs_bind; [eapply Hcv; eauto|]. intros r. apply runs_ret.
Qed.

(** With fuel above the nesting depth the evolved encoder returns or
    raises; it never stops for lack of fuel. *)
Lemma cr_compress_value_runs fuel :
  forall v, (depth v < fuel)%nat -> runs (CompressedReadable._compress_value fuel v).
Proof.
  induction fuel as [|fuel IH]; intros v Hd; [lia|].
  destruct v; cbn [CompressedReadable._compress_value]; try apply runs_ret.
  - apply runs_lift. apply po_compress_str.
  - apply runs_cr_compress_array.
    intros v [Hin|(item & k & Hin & Hget)]; apply IH.
    + apply depth_item in Hin. lia.
    + apply depth_item in Hin. destruct item; simpl in Hget; try discriminate.
      apply dict_get_In in Hget. apply depth_field in Hget. lia.
  - apply runs_cr_compress_object.
    intros k v Hin. apply IH. apply depth_field in Hin. lia.
Qed.

(** [compress] and [compress_json] end in a value or a Python exception. *)
Lemma cr_compress_json_outcome data :
  python_outcome (CompressedReadable.compress_json data).
Proof.
  unfold CompressedReadable.compress_json, CompressedReadable.compress.
  pose proof (@cr_compress_value_runs (S (depth data)) data ltac:(lia)
                CompressedReadable.init) as H.
  destruct (CompressedReadable._compress_value (S (depth data)) data CompressedReadable.init)
    as [[cd st']| | |]; simpl in *; auto.
  destruct (_ <? _); exact I.
Qed.

End EnoughFuel.

(* ------------------------------------------------------------------ *)
(** ** Binary packing of integers outside the 32-bit range *)
(* ------------------------------------------------------------------ *)

(** [_pack_numbers] takes the third branch (every element is an [int]) and
    [struct.pack] with format [i] rejects the element. *)
Lemma pack_numbers_wide_int {F : PyFloat} :
  CompressedReadable._pack_numbers [NInt 0; NInt 1; NInt 3000000000] = Raise StructError.
Proof. reflexivity. Qed.

(** C3, evaluated at the failing input: [compress_json] raises
    [struct.error] on [[0, 1, 3000000000]] instead of returning a text. *)
Theorem compress_json_wide_int_raises {F : PyFloat} :
  CompressedReadable.compress_json (JArr wide_ints) = Raise StructError.
Proof. reflexivity. Qed.

(** C9, evaluated at the failing input: [_compress_array] on the same list
    raises [struct.error]; no 64-bit floating point buffer is produced. *)
Theorem compress_array_wide_int_raises {F : PyFloat}
  (compress_value : json -> M CompressedReadable.state json) (st : CompressedReadable.state) :
  CompressedReadable._compress_array compress_value wide_ints st = Raise StructError.
Proof. reflexivity. Qed.

(* ================================================================== *)
(** * Further properties of the two codecs *)
(* ================================================================== *)

Lemma base62_digit_index d :
  0 <= d < 62 -> index_of (nth (Z.to_nat d) base62_chars 0) base62_chars = d.
Proof.
  intros Hd.
  assert (H : forallb (fun d => index_of (nth (Z.to_nat d) base62_chars 0) base62_chars =? d)
                (range 62) = true) by (vm_compute; reflexivity).
  rewrite forallb_forall in H. apply Z.eqb_eq. apply H.
  unfold range. apply in_map_iff. exists (Z.to_nat d). split; [lia|].
  apply in_seq. lia.
Qed.

Lemma base62_loop_acc fuel : forall num acc,
  base62_loop fuel num acc = acc ++ base62_loop fuel num [].
Proof.
  induction fuel as [|fuel IH]; intros num acc; simpl.
  - rewrite List.app_nil_r; auto.
  - destruct (num =? 0); [rewrite List.app_nil_r; auto|].
    rewrite IH. rewrite (IH _ [_]). rewrite app_assoc. reflexivity.
Qed.

Lemma base62_value_app s c :
  base62_value (s ++ [c]) = 62 * base62_value s + index_of c base62_chars.
Proof. unfold base62_value. rewrite fold_left_app. reflexivity. Qed.

Lemma base62_value_rev_loop fuel : forall num,
  0 <= num -> (Z.to_nat num <= fuel)%nat ->
  base62_value (rev (base62_loop fuel num [])) = num.
Proof.
  induction fuel as [|fuel IH]; intros num H0 Hf; cbn [base62_loop].
  - assert (num = 0) by lia. subst. reflexivity.
  - destruct (num =? 0) eqn:E; [apply Z.eqb_eq in E; subst; reflexivity|].
    apply Z.eqb_neq in E.
    rewrite base62_loop_acc, List.app_nil_l, rev_app_distr.
    cbn [rev app]. rewrite base62_value_app.
    assert (Hq : 0 <= num / 62 < num).
    { split; [apply Z.div_pos; lia|apply Z.div_lt; lia]. }
    rewrite IH; [|lia|lia].
    rewrite base62_digit_index; [|apply Z.mod_pos_bound; lia].
    pose proof (Z.div_mod num 62). lia.
Qed.

Lemma base62_value_encode num : 0 <= num -> base62_value (_encode_base62 num) = num.
Proof.
  intros H. unfold _encode_base62.
  destruct (num =? 0) eqn:E; [apply Z.eqb_eq in E; subst; reflexivity|].
  apply base62_value_rev_loop; auto.
Qed.

Lemma base62_inj m n :
  0 <= m -> 0 <= n -> _encode_base62 m = _encode_base62 n -> m = n.
Proof.
  intros Hm Hn E. rewrite <- (base62_value_encode Hm), <- (base62_value_encode Hn).
  rewrite E. reflexivity.
Qed.

Lemma base62_loop_chars fuel : forall num c,
  0 <= num -> In c (base62_loop fuel num []) -> In c base62_chars.
Proof.
  induction fuel as [|fuel IH]; intros num c H0; cbn [base62_loop]; [simpl; tauto|].
  destruct (num =? 0); [simpl; tauto|].
  rewrite base62_loop_acc, List.app_nil_l. intros Hin. apply in_app_or in Hin as [[<-|[]]|Hin].
  - apply nth_In. pose proof (Z.mod_pos_bound num 62).
    change (length base62_chars) with 62%nat. lia.
  - apply (IH (num / 62)); auto. apply Z.div_pos; lia.
Qed.

(** X1: the numeral of [_encode_base62] is never empty, uses only the 62
    alphanumeric characters, and determines the number: two different
    counters never receive the same short key. *)
Theorem encode_base62_injective (m n : Z) :
  0 <= m -> 0 <= n ->
  _encode_base62 m <> [] /\
  (forall c, In c (_encode_base62 m) -> In c base62_chars) /\
  (_encode_base62 m = _encode_base62 n -> m = n).
Proof.
  intros Hm Hn. split; [|split].
  - pose proof (base62_value_encode Hm) as H. intros E. rewrite E in H.
    unfold _encode_base62 in E. destruct (m =? 0) eqn:E0; [discriminate|].
    apply Z.eqb_neq in E0. cbv in H. congruence.
  - intros c. unfold _encode_base62. destruct (m =? 0).
    + intros [<-|[]]. apply (nth_In base62_chars 0). simpl. lia.
    + rewrite <- in_rev. apply base62_loop_chars; auto.
  - intros E. rewrite <- (base62_value_encode Hm), <- (base62_value_encode Hn).
    rewrite E. reflexivity.
Qed.

Lemma encode_base62_injective_witness :
  _encode_base62 61 <> [] /\
  (forall c, In c (_encode_base62 61) -> In c base62_chars) /\
  (_encode_base62 61 = _encode_base62 62 -> 61 = 62).
Proof. apply encode_base62_injective; lia. Defined.

Ltac preserves_step :=
  match goal with
  | |- preserves _ (ret _) => apply preserves_ret
  | |- preserves _ (lift _) => apply preserves_lift
  | |- preserves _ (bind _ _) => apply preserves_bind; [|intros ?]
  | |- preserves _ (mapM _ _) => apply preserves_mapM; intros ? _
  | |- preserves _ (foldM _ _ _) => apply preserves_foldM; intros ? ? _
  | |- preserves _ (if ?c then _ else _) => destruct c
  | |- preserves _ (match ?c with _ => _ end) => destruct c
  end.

Lemma dict_set_fresh A k (v : A) d : dict_get k d = None -> dict_set k v d = d ++ [(k, v)].
Proof.
  induction d as [|[k' v'] d IH]; simpl; auto.
  destruct (str_eqb k k'); [discriminate|]. intros H. rewrite IH; auto.
Qed.

Lemma dict_get_not_in A k (d : list (pystr * A)) : dict_get k d = None -> ~ In k (keys d).
Proof.
  intros H Hin. apply in_keys_get in Hin as (v & Hv). congruence.
Qed.

Lemma dict_get_NoDup A k (v : A) d : NoDup (keys d) -> In (k, v) d -> dict_get k d = Some v.
Proof.
  induction d as [|[k' v'] d IH]; simpl; intros Hn H; [contradiction|].
  destruct H as [H|H]; inversion Hn; subst.
  - inversion H; subst. rewrite str_eqb_refl. reflexivity.
  - destruct (str_eqb k k') eqn:E; auto.
    apply str_eqb_eq in E; subst. exfalso. apply H2.
    apply (in_map fst) in H. exact H.
Qed.

Lemma range_S n : 0 <= n -> range (n + 1) = range n ++ [n].
Proof.
  intros H. unfold range. replace (Z.to_nat (n + 1)) with (S (Z.to_nat n)) by lia.
  rewrite seq_S, map_app. simpl. f_equal. f_equal. lia.
Qed.

Lemma len_app A (l l' : list A) : len (l ++ l') = len l + len l'.
Proof. unfold len. rewrite length_app. lia. Qed.

Lemma len_nonneg A (l : list A) : 0 <= len l.
Proof. unfold len. lia. Qed.

Lemma range_NoDup n : NoDup (range n).
Proof.
  unfold range. apply NoDup_map_NoDup_ForallPairs; [|apply seq_NoDup].
  intros x y _ _ H. lia.
Qed.

Lemma numbered_empty : numbered [] 0.
Proof. repeat split; constructor. Qed.

Lemma numbered_add key_map n k :
  numbered key_map n -> dict_get k key_map = None ->
  numbered (dict_set k (_encode_base62 n) key_map) (n + 1).
Proof.
  intros (Hn & Hc & Hd) Hk. rewrite dict_set_fresh by auto.
  unfold numbered, keys. rewrite len_app, !map_app.
  change (len [(k, _encode_base62 n)]) with 1. rewrite range_S by apply len_nonneg.
  rewrite map_app. cbn [map fst snd]. split; [lia|]. split; [rewrite Hc, Hn; reflexivity|].
  apply NoDup_app; auto.
  - constructor; [simpl; tauto|constructor].
  - intros a Ha [<-|[]]. apply dict_get_not_in in Hk. auto.
Qed.

Lemma numbered_codes key_map n k code :
  numbered key_map n -> dict_get k key_map = Some code ->
  exists i, 0 <= i < n /\ code = _encode_base62 i.
Proof.
  intros (Hn & Hc & _) H. apply dict_get_In in H. apply (in_map snd) in H.
  cbn [snd] in H. rewrite Hc in H. apply in_map_iff in H as (i & <- & Hi). apply in_range_iff in Hi.
  exists i. split; [lia|reflexivity].
Qed.

Lemma numbered_codes_NoDup key_map n : numbered key_map n -> NoDup (map snd key_map).
Proof.
  intros (_ & -> & _). apply NoDup_map_NoDup_ForallPairs; [|apply range_NoDup].
  intros x y Hx Hy E. apply in_range_iff in Hx, Hy.
  apply base62_inj; auto; lia.
Qed.

Lemma numbered_injective key_map n k1 k2 code :
  numbered key_map n ->
  dict_get k1 key_map = Some code -> dict_get k2 key_map = Some code -> k1 = k2.
Proof.
  intros Hnum H1 H2. pose proof (numbered_codes_NoDup Hnum) as Hnd.
  apply dict_get_In in H1, H2. clear Hnum.
  induction key_map as [|[k c] km IH]; [contradiction|].
  simpl in Hnd. inversion Hnd; subst.
  destruct H1 as [H1|H1], H2 as [H2|H2].
  - congruence.
  - inversion H1; subst. apply (in_map snd) in H2. contradiction.
  - inversion H2; subst. apply (in_map snd) in H1. contradiction.
  - auto.
Qed.

Lemma reverse_fold_fresh (key_map : list (pystr * pystr)) : forall acc,
  NoDup (keys acc ++ map snd key_map) ->
  fold_left (fun m (kv : pystr * pystr) => dict_set (snd kv) (fst kv) m) key_map acc
  = acc ++ map (fun kv => (snd kv, fst kv)) key_map.
Proof.
  induction key_map as [|[k c] km IH]; intros acc Hnd; simpl.
  - rewrite List.app_nil_r; auto.
  - assert (Hc : dict_get c acc = None).
    { apply dict_get_none. intros Hin. apply NoDup_remove_2 in Hnd.
      apply Hnd. apply in_or_app. auto. }
    rewrite dict_set_fresh by auto. rewrite IH.
    + rewrite <- app_assoc. reflexivity.
    + unfold keys. rewrite map_app. simpl. rewrite <- app_assoc. exact Hnd.
Qed.

Lemma reverse_map_mapping {F : PyFloat} (key_map : list (pystr * pystr)) :
  reverse_map (mapping_of key_map)
  = Ok (fold_left (fun m (kv : pystr * pystr) => dict_set (snd kv) (fst kv) m) key_map []).
Proof.
  unfold reverse_map, mapping_of.
  generalize (@nil (pystr * pystr)).
  induction key_map as [|[k c] km IH]; intros acc; simpl; auto.
Qed.

Lemma reverse_map_numbered {F : PyFloat} key_map n :
  numbered key_map n ->
  reverse_map (mapping_of key_map) = Ok (map (fun kv => (snd kv, fst kv)) key_map).
Proof.
  intros H. rewrite reverse_map_mapping. rewrite reverse_fold_fresh; auto.
  simpl. eapply numbered_codes_NoDup; eauto.
Qed.

Lemma reverse_lookup key_map n k code :
  numbered key_map n -> dict_get k key_map = Some code ->
  dict_get code (map (fun kv => (snd kv, fst kv)) key_map) = Some k.
Proof.
  intros Hnum H. apply dict_get_NoDup.
  - unfold keys. rewrite map_map. simpl. eapply numbered_codes_NoDup; eauto.
  - apply dict_get_In in H. apply in_map_iff. exists (k, code). auto.
Qed.

Lemma reverse_lookup_inv (key_map : list (pystr * pystr)) k code :
  dict_get code (map (fun kv => (snd kv, fst kv)) key_map) = Some k -> In (k, code) key_map.
Proof.
  intros H. apply dict_get_In in H. apply in_map_iff in H as ([k' c'] & E & Hin).
  simpl in E. inversion E; subst. auto.
Qed.

(** *** The evolved codec keeps its dictionary numbered *)

Section EvolvedDictionary.
Context {F : PyFloat}.

Lemma cr_get_short_key_numbered k :
  preserves cr_numbered (CompressedReadable._get_short_key k).
Proof.
  intros st code st' Hnum H. unfold CompressedReadable._get_short_key, dict_mem in H.
  destruct (dict_get k (CompressedReadable.key_map st)) eqn:E; cbv beta zeta iota in H.
  - rewrite E in H. inversion H; subst; auto.
  - cbn [CompressedReadable.key_map] in H. rewrite dict_get_set_same in H.
    inversion H; subst. unfold cr_numbered. simpl. apply numbered_add; auto.
Qed.

Lemma cr_compress_column_preserves (P : CompressedReadable.state -> Prop) cv col :
  (forall v, preserves P (cv v)) ->
  preserves P (CompressedReadable.compress_column cv col).
Proof.
  intros Hcv. unfold CompressedReadable.compress_column.
  repeat (preserves_step || apply Hcv).
Qed.

Lemma cr_compress_array_preserves (P : CompressedReadable.state -> Prop) cv arr :
  (forall k, preserves P (CompressedReadable._get_short_key k)) ->
  (forall v, preserves P (cv v)) ->
  preserves P (CompressedReadable._compress_array cv arr).
Proof.
  intros Hk Hcv. unfold CompressedReadable._compress_array.
  destruct arr as [|first rest]; [apply preserves_ret|].
  cbv beta zeta iota. set (arr := first :: rest) in *.
  repeat (preserves_step || apply Hcv || apply Hk
          || apply cr_compress_column_preserves).
Qed.

Lemma cr_compress_object_preserves (P : CompressedReadable.state -> Prop) cv obj :
  (forall k, preserves P (CompressedReadable._get_short_key k)) ->
  (forall v, preserves P (cv v)) ->
  preserves P (CompressedReadable._compress_object cv obj).
Proof.
  intros Hk Hcv. unfold CompressedReadable._compress_object.
  apply preserves_bind; [|intros; apply preserves_ret].
  apply preserves_foldM. intros c [k v] _.
  apply preserves_bind; [apply Hk|]. intros sk.
  apply preserves_bind; [apply Hcv|]. intros r. apply preserves_ret.
Qed.

Lemma cr_compress_value_preserves (P : CompressedReadable.state -> Prop) fuel :
  (forall k, preserves P (CompressedReadable._get_short_key k)) ->
  forall v, preserves P (CompressedReadable._compress_value fuel v).
Proof.
  intros Hk. induction fuel as [|fuel IH]; intros v; simpl.
  - intros st a st' _ H. discriminate.
  - destruct v; try apply preserves_ret.
    + apply preserves_lift.
    + apply cr_compress_array_preserves; auto.
    + apply cr_compress_object_preserves; auto.
Qed.

Lemma cr_compress_numbered data st0 env st :
  CompressedReadable.compress data st0 = Ok (env, st) ->
  cr_numbered st /\
  reverse_of env = Ok (map (fun kv => (snd kv, fst kv)) (CompressedReadable.key_map st)).
Proof.
  unfold CompressedReadable.compress. intros H.
  destruct (CompressedReadable._compress_value _ data _) as [[cd st1]| | |] eqn:E;
    try discriminate.
  assert (Hnum : cr_numbered st1).
  { eapply (@cr_compress_value_preserves cr_numbered); [| |exact E].
    - apply cr_get_short_key_numbered.
    - apply numbered_empty. }
  inversion H; subst; clear H. split; auto.
  unfold reverse_of. destruct (CompressedReadable.key_map st) eqn:Ekm; [reflexivity|].
  rewrite <- Ekm. cbn [fields_of app dict_get str_eqb py].
  change (dict_get (py "m") [(py "d", cd); (py "m", mapping_of (CompressedReadable.key_map st))])
    with (Some (mapping_of (CompressedReadable.key_map st))).
  eapply reverse_map_numbered; eauto.
Qed.

End EvolvedDictionary.

(** X3: in [compressed_readable.py] the dictionary emitted by [compress] is
    invertible.  The codes are the base62 numerals of 0 .. n-1, no two keys
    share a code, and the reverse mapping that [decompress] builds from the
    envelope sends every code back to its key. *)
Theorem evolved_dictionary_invertible {F : PyFloat}
  (data env : json) (st0 st : CompressedReadable.state) :
  CompressedReadable.compress data st0 = Ok (env, st) ->
  let key_map := CompressedReadable.key_map st in
  (forall k code, dict_get k key_map = Some code ->
     exists i, 0 <= i < len key_map /\ code = _encode_base62 i) /\
  (forall k1 k2 code,
     dict_get k1 key_map = Some code -> dict_get k2 key_map = Some code -> k1 = k2) /\
  exists rev,
    reverse_of env = Ok rev /\
    forall k code, dict_get k key_map = Some code <-> dict_get code rev = Some k.
Proof.
  intros H key_map. apply cr_compress_numbered in H as [Hnum Hrev].
  fold key_map in Hrev. unfold cr_numbered in Hnum. fold key_map in Hnum.
  split; [|split].
  - intros k code Hk. destruct (@numbered_codes _ _ _ _ Hnum Hk) as (i & Hi & ->).
    exists i. split; auto. destruct Hnum as (<- & _). auto.
  - intros k1 k2 code. eapply numbered_injective; eauto.
  - eexists. split; [exact Hrev|]. intros k code. split.
    + eapply reverse_lookup; eauto.
    + intros Hc. apply reverse_lookup_inv in Hc. apply dict_get_NoDup; auto.
      apply Hnum.
Qed.

Lemma nodupb_NoDup l : nodupb l = true <-> NoDup l.
Proof.
  induction l as [|k l IH]; simpl.
  - split; auto. constructor.
  - rewrite andb_true_iff, negb_true_iff, IH. split.
    + intros [Hm Hn]. constructor; auto. intros Hin. apply str_mem_In in Hin. congruence.
    + intros Hn. inversion Hn; subst. split; auto.
      destruct (str_mem k l) eqn:E; auto. apply str_mem_In in E. contradiction.
Qed.

Lemma strs_eqb_eq a b : strs_eqb a b = true <-> a = b.
Proof.
  revert b. induction a as [|x a IH]; intros [|y b]; simpl; split; intros H;
    try discriminate; auto.
  - apply andb_true_iff in H as [H1 H2]. apply str_eqb_eq in H1. apply IH in H2. congruence.
  - inversion H; subst. rewrite str_eqb_refl. simpl. apply IH. reflexivity.
Qed.

Section EveryFacts.
Context {F : PyFloat}.

Lemma every_here p v : every p v = true -> p v = true.
Proof. destruct v; simpl; intros H; apply andb_true_iff in H as [H _]; auto. Qed.

Lemma every_item p items x : every p (JArr items) = true -> In x items -> every p x = true.
Proof.
  simpl. intros H Hin. apply andb_true_iff in H as [_ H].
  rewrite forallb_forall in H. auto.
Qed.

Lemma every_field p fields k x :
  every p (JObj fields) = true -> In (k, x) fields -> every p x = true.
Proof.
  simpl. intros H Hin. apply andb_true_iff in H as [_ H].
  rewrite forallb_forall in H. apply (H (k, x)); auto.
Qed.

Lemma all_keys_item items x k : In x items -> In k (all_keys x) -> In k (all_keys (JArr items)).
Proof. intros Hx Hk. simpl. apply in_flat_map. exists x; auto. Qed.

Lemma all_keys_field fields k x : In (k, x) fields -> In k (all_keys (JObj fields)).
Proof. intros H. simpl. apply in_flat_map. exists (k, x). split; auto. left; auto. Qed.

Lemma all_keys_value fields k x k' :
  In (k, x) fields -> In k' (all_keys x) -> In k' (all_keys (JObj fields)).
Proof. intros H Hk. simpl. apply in_flat_map. exists (k, x). split; auto. right; auto. Qed.

Lemma distinct_names_spec st data k1 k2 :
  distinct_names st data = true ->
  In k1 (all_keys data) -> In k2 (all_keys data) ->
  short_name st k1 = short_name st k2 -> k1 = k2.
Proof.
  unfold distinct_names. intros H H1 H2 E.
  rewrite forallb_forall in H. specialize (H k1 H1).
  rewrite forallb_forall in H. specialize (H k2 H2).
  rewrite E, str_eqb_refl in H. simpl in H. apply str_eqb_eq; auto.
Qed.

End EveryFacts.

(** *** The state only grows *)

Lemma extends_refl st : extends st st.
Proof. split; auto. Qed.

Lemma extends_trans st1 st2 st3 : extends st1 st2 -> extends st2 st3 -> extends st1 st3.
Proof. intros [H1 K1] [H2 K2]. split; [congruence|auto]. Qed.

Lemma jc_get_short_key_step k st s st' :
  JsonCompressor._get_short_key k st = Ok (s, st') ->
  extends st st' /\ short_name st' k = s.
Proof.
  unfold JsonCompressor._get_short_key, short_name. intros H.
  destruct (len k <=? JsonCompressor.min_key_length st) eqn:E.
  { inversion H; subst. rewrite E. split; [apply extends_refl|reflexivity]. }
  destruct (dict_get k (JsonCompressor.key_map st)) as [code|] eqn:Ek.
  { inversion H; subst. rewrite E, Ek. split; [apply extends_refl|reflexivity]. }
  inversion H; subst; clear H. cbn [JsonCompressor.min_key_length JsonCompressor.key_map].
  rewrite E, dict_get_set_same. split; [|reflexivity].
  split; auto. cbn [JsonCompressor.key_map]. intros k' code Hk'.
  rewrite dict_get_set_other; auto. congruence.
Qed.

Lemma short_name_extends st st' k s :
  extends st st' -> short_name st k = s ->
  (len k <= JsonCompressor.min_key_length st \/ dict_get k (JsonCompressor.key_map st) = Some s) ->
  short_name st' k = s.
Proof.
  intros [Ht Hk] Hs Hor. unfold short_name in *. rewrite Ht.
  destruct (len k <=? JsonCompressor.min_key_length st) eqn:E; auto.
  apply Z.leb_gt in E. destruct Hor as [Hor|Hor]; [lia|].
  rewrite (Hk _ _ Hor). reflexivity.
Qed.

Lemma jc_get_short_key_name k st s st' stf :
  JsonCompressor._get_short_key k st = Ok (s, st') -> extends st' stf ->
  short_name stf k = s.
Proof.
  intros H Hext. pose proof (jc_get_short_key_step _ _ H) as [_ Hs].
  assert (Hor : len k <= JsonCompressor.min_key_length st'
                \/ dict_get k (JsonCompressor.key_map st') = Some s).
  { clear Hs. unfold JsonCompressor._get_short_key in H.
    destruct (len k <=? JsonCompressor.min_key_length st) eqn:E.
    { inversion H; subst. left. apply Z.leb_le; auto. }
    right. destruct (dict_get k (JsonCompressor.key_map st)) as [code|] eqn:Ek.
    - inversion H; subst. auto.
    - inversion H; subst. cbn [JsonCompressor.key_map]. apply dict_get_set_same. }
  eapply short_name_extends; eauto.
Qed.

Lemma jc_get_short_key_extends st0 k :
  preserves (extends st0) (JsonCompressor._get_short_key k).
Proof.
  intros st s st' H0 H. apply jc_get_short_key_step in H as [H _].
  eapply extends_trans; eauto.
Qed.

Lemma jc_get_short_key_numbered k :
  preserves jc_numbered (JsonCompressor._get_short_key k).
Proof.
  intros st s st' [Hnum Hrev] H. unfold JsonCompressor._get_short_key in H.
  destruct (len k <=? JsonCompressor.min_key_length st).
  { inversion H; subst. split; auto. }
  destruct (dict_get k (JsonCompressor.key_map st)) as [code|] eqn:Ek.
  { inversion H; subst. split; auto. }
  inversion H; subst; clear H. split; cbn.
  - apply numbered_add; auto.
  - rewrite Hrev. rewrite (@dict_set_fresh _ k _ _ Ek). rewrite map_app. cbn [map fst snd].
    apply dict_set_fresh. apply dict_get_none. unfold keys. rewrite map_map. cbn [fst].
    intros Hin. apply in_map_iff in Hin as ([k' c'] & E & Hin). cbn in E.
    destruct Hnum as (Hn & Hc & _).
    apply (in_map snd) in Hin. cbn [snd] in Hin. rewrite Hc in Hin.
    apply in_map_iff in Hin as (i & Ei & Hi). apply in_range_iff in Hi.
    rewrite E in Ei.
    assert (i = JsonCompressor.key_counter st).
    { apply base62_inj; auto; lia. }
    lia.
Qed.

Lemma Forall2_length_eq A B (R : A -> B -> Prop) l l' : Forall2 R l l' -> length l = length l'.
Proof. induction 1; simpl; auto. Qed.

Lemma rmap_Forall2 A B (f : A -> result B) l rs :
  rmap f l = Ok rs -> Forall2 (fun a b => f a = Ok b) l rs.
Proof.
  revert rs. induction l as [|a l IH]; simpl; intros rs H.
  - inversion H; constructor.
  - apply rbind_ok in H as (b & Hb & H). apply rbind_ok in H as (bs & Hbs & H).
    inversion H; subst. constructor; auto.
Qed.

Lemma Forall2_rmap A B (f : A -> result B) l rs :
  Forall2 (fun a b => f a = Ok b) l rs -> rmap f l = Ok rs.
Proof. induction 1; simpl; auto. rewrite H, IHForall2. reflexivity. Qed.

Lemma combine_fst_snd A B (l : list (A * B)) : combine (map fst l) (map snd l) = l.
Proof. induction l as [|[a b] l IH]; simpl; congruence. Qed.

Lemma dict_fold_fresh A (l : list (pystr * A)) : forall acc,
  NoDup (keys acc ++ keys l) ->
  fold_left (fun acc kv => dict_set (fst kv) (snd kv) acc) l acc = acc ++ l.
Proof.
  induction l as [|[k v] l IH]; intros acc Hnd; simpl.
  - rewrite List.app_nil_r; auto.
  - assert (Hk : dict_get k acc = None).
    { apply dict_get_none. intros Hin. apply NoDup_remove_2 in Hnd.
      apply Hnd. apply in_or_app. auto. }
    rewrite dict_set_fresh by auto. rewrite IH.
    + rewrite <- app_assoc. reflexivity.
    + unfold keys in *. rewrite map_app. simpl. rewrite <- app_assoc. exact Hnd.
Qed.

Section BaselineRestoring.
Context {F : PyFloat}.
Variable stf : JsonCompressor.state.
Variable rev : list (pystr * pystr).
Hypothesis Hnum : numbered (JsonCompressor.key_map stf) (JsonCompressor.key_counter stf).
Hypothesis Hrev : forall code,
  dict_get code rev
  = dict_get code (map (fun kv => (snd kv, fst kv)) (JsonCompressor.key_map stf)).

Lemma jc_get_short_key_named k st s st' :
  JsonCompressor._get_short_key k st = Ok (s, st') -> extends st' stf ->
  (len k <= JsonCompressor.min_key_length stf ->
   ~ In k (map snd (JsonCompressor.key_map stf))) ->
  named stf k s.
Proof.
  intros H Hext Hclash. split; [eapply jc_get_short_key_name; eauto|]. split; auto.
  destruct Hext as [Ht Hk]. unfold JsonCompressor._get_short_key in H.
  destruct (len k <=? JsonCompressor.min_key_length st) eqn:E.
  { left.
    assert (JsonCompressor.min_key_length st' = JsonCompressor.min_key_length st)
      by (inversion H; subst; auto).
    apply Z.leb_le in E. lia. }
  right. apply Hk. destruct (dict_get k (JsonCompressor.key_map st)) eqn:Ek.
  - inversion H; subst. auto.
  - inversion H; subst. cbn [JsonCompressor.key_map]. apply dict_get_set_same.
Qed.

Lemma named_short k s :
  named stf k s -> len k <= JsonCompressor.min_key_length stf -> s = k.
Proof.
  intros (Hs & _ & _) Hl. unfold short_name in Hs. apply Z.leb_le in Hl.
  rewrite Hl in Hs. auto.
Qed.

Lemma named_long k s :
  named stf k s -> JsonCompressor.min_key_length stf < len k ->
  dict_get k (JsonCompressor.key_map stf) = Some s.
Proof. intros (_ & _ & [H|H]) Hl; [lia|auto]. Qed.

Lemma named_injective k1 k2 s : named stf k1 s -> named stf k2 s -> k1 = k2.
Proof.
  intros H1 H2.
  destruct (Z_le_gt_dec (len k1) (JsonCompressor.min_key_length stf)) as [L1|L1];
  destruct (Z_le_gt_dec (len k2) (JsonCompressor.min_key_length stf)) as [L2|L2].
  - rewrite <- (named_short H1 L1), <- (named_short H2 L2). reflexivity.
  - pose proof (named_short H1 L1) as E. subst s.
    assert (Hg : dict_get k2 (JsonCompressor.key_map stf) = Some k1)
      by (apply named_long; auto; lia).
    destruct H1 as (_ & Hc & _). exfalso. apply (Hc L1).
    apply dict_get_In in Hg. apply (in_map snd) in Hg. exact Hg.
  - pose proof (named_short H2 L2) as E. subst s.
    assert (Hg : dict_get k1 (JsonCompressor.key_map stf) = Some k2)
      by (apply named_long; auto; lia).
    destruct H2 as (_ & Hc & _). exfalso. apply (Hc L2).
    apply dict_get_In in Hg. apply (in_map snd) in Hg. exact Hg.
  - eapply numbered_injective;
      [exact Hnum|apply (named_long H1); lia|apply (named_long H2); lia].
Qed.

(** The decoder's lookup [key_map.get(short_key, short_key)] gives the key
    back. *)
Lemma named_restored k s : named stf k s -> original_key rev (JStr s) = Ok k.
Proof.
  intros Hn. unfold original_key. f_equal.
  destruct (Z_le_gt_dec (len k) (JsonCompressor.min_key_length stf)) as [L|L].
  - pose proof (named_short Hn L) as ->. destruct Hn as (_ & Hc & _).
    rewrite Hrev, dict_get_none; auto. unfold keys. rewrite map_map. cbn [fst].
    apply Hc; auto.
  - rewrite Hrev. erewrite reverse_lookup; eauto. apply named_long; auto. lia.
Qed.

Lemma restores_scalar c v :
  restores rev c v -> (forall s, c = JStr s -> v = JStr s).
Proof.
  intros H s ->. specialize (H (S (depth v)) (Nat.lt_succ_diag_r _)).
  simpl in H. inversion H; auto.
Qed.


Lemma named_NoDup ks names : Forall2 (named stf) ks names -> NoDup ks -> NoDup names.
Proof.
  induction 1 as [|k s ks names Hks Hrest IH]; intros Hnd; [constructor|].
  inversion Hnd; subst. constructor; auto.
  intros Hin. apply H1. clear -Hin Hrest Hks Hnum.
  induction Hrest as [|k' s' ks names Hk's' Hrest IH]; [contradiction|].
  destruct Hin as [->|Hin].
  - left. eapply named_injective; eauto.
  - right. auto.
Qed.

Lemma keys_combine A (ks : list pystr) (vs : list A) :
  length ks = length vs -> keys (combine ks vs) = ks.
Proof.
  revert vs. induction ks as [|k ks IH]; intros [|v vs] H; simpl in *; try discriminate; auto.
  f_equal. apply IH. lia.
Qed.

(** *** Objects *)

Lemma jc_object_fold cv obj :
  (forall s0 v, preserves (extends s0) (cv v)) ->
  (forall k v st c st', In (k, v) obj -> cv v st = Ok (c, st') -> extends st' stf ->
                        restores rev c v) ->
  (forall k v, In (k, v) obj -> len k <= JsonCompressor.min_key_length stf ->
               ~ In k (map snd (JsonCompressor.key_map stf))) ->
  forall acc st compressed st1,
    foldM (fun compressed (kv : pystr * json) =>
             let (key, value) := kv in
             short_key <- JsonCompressor._get_short_key key ;;
             v <- cv value ;;
             ret (dict_set short_key v compressed)) obj acc st = Ok (compressed, st1) ->
    extends st1 stf ->
    exists names cs,
      Forall2 (named stf) (keys obj) names /\ Forall2 (restores rev) cs (map snd obj) /\
      compressed = fold_left (fun acc kv => dict_set (fst kv) (snd kv) acc)
                     (combine names cs) acc.
Proof.
  intros Hext. induction obj as [|[k v] obj IH]; intros Hcv Hclash acc st compressed st1 H Hst1.
  - inversion H; subst. exists [], []. repeat split; constructor.
  - cbn [foldM] in H. apply bind_ok in H as (acc1 & st2 & Hstep & Hrest).
    apply bind_ok in Hstep as (sk & sa & Hsk & Hstep).
    apply bind_ok in Hstep as (c & sb & Hc & Hstep).
    inversion Hstep; subst acc1 st2; clear Hstep.
    assert (Hsb : extends sb stf).
    { eapply extends_trans; [|exact Hst1].
      eapply (@preserves_foldM _ _ _ (extends sb)); [| |exact Hrest]; [|apply extends_refl].
      intros b [k' v'] _. repeat (preserves_step || apply Hext).
      apply jc_get_short_key_extends. }
    assert (Hsa : extends sa stf).
    { eapply extends_trans; [|exact Hsb]. eapply Hext; [apply extends_refl|exact Hc]. }
    assert (Hcv' : forall k' v' st0 c0 st0',
               In (k', v') obj -> cv v' st0 = Ok (c0, st0') -> extends st0' stf ->
               restores rev c0 v').
    { intros k' v' st0 c0 st0' Hin. apply (Hcv k' v'). right; auto. }
    assert (Hclash' : forall k' v', In (k', v') obj ->
               len k' <= JsonCompressor.min_key_length stf ->
               ~ In k' (map snd (JsonCompressor.key_map stf))).
    { intros k' v' Hin. apply (Hclash k' v'). right; auto. }
    destruct (IH Hcv' Hclash' _ _ _ _ Hrest Hst1) as (names & cs & Hn & Hr & E).
    exists (sk :: names), (c :: cs). split; [|split].
    + constructor; auto. eapply jc_get_short_key_named; eauto.
      apply (Hclash k v). left; auto.
    + constructor; auto. eapply Hcv; eauto. left; auto.
    + exact E.
Qed.

Lemma jc_decompress_fields (dv : json -> result json) :
  forall ks names cs vs (acc : list (pystr * json)),
  Forall2 (named stf) ks names -> Forall2 (fun c v => dv c = Ok v) cs vs ->
  length ks = length vs -> NoDup (keys acc ++ ks) ->
  fold_left (fun acc0 (kv : pystr * json) =>
      decompressed <~ acc0 ;;
      let (short_key, value) := kv in
      original_key <~ original_key rev (JStr short_key) ;;
      v <~ dv value ;;
      Ok (dict_set original_key v decompressed))
    (combine names cs) (Ok acc)
  = Ok (acc ++ combine ks vs).
Proof.
  intros ks names cs vs acc Hn. revert cs vs acc.
  induction Hn as [|k s ks names Hks Hrest IH]; intros cs vs acc Hd Hlen Hnd.
  - destruct vs; [|discriminate]. simpl. rewrite List.app_nil_r. reflexivity.
  - destruct Hd as [|c v cs vs Hcv Hd]; [discriminate|].
    cbn [combine fold_left rbind].
    rewrite (named_restored Hks). cbn [rbind]. rewrite Hcv. cbn [rbind].
    assert (Hk : dict_get k acc = None).
    { apply dict_get_none. intros Hin. apply NoDup_remove_2 in Hnd.
      apply Hnd. apply in_or_app. auto. }
    rewrite dict_set_fresh by auto. rewrite (IH cs vs); auto.
    + rewrite <- app_assoc. reflexivity.
    + unfold keys in *. rewrite map_app. simpl. rewrite <- app_assoc. exact Hnd.
Qed.

(** *** Arrays sent element by element *)

Lemma jc_mapM_restores cv arr :
  (forall s0 v, preserves (extends s0) (cv v)) ->
  (forall v st c st', In v arr -> cv v st = Ok (c, st') -> extends st' stf ->
                      restores rev c v) ->
  forall st cs st1,
    mapM cv arr st = Ok (cs, st1) -> extends st1 stf -> Forall2 (restores rev) cs arr.
Proof.
  intros Hext. induction arr as [|v arr IH]; intros Hcv st cs st1 H Hst1.
  - inversion H; subst. constructor.
  - cbn [mapM] in H. apply bind_ok in H as (c & sa & Hc & H).
    apply bind_ok in H as (cs' & sb & Hcs & H). inversion H; subst; clear H.
    assert (Hsa : extends sa stf).
    { eapply extends_trans; [|exact Hst1].
      eapply (@preserves_mapM _ _ _ (extends sa)); [| |exact Hcs]; [|apply extends_refl].
      intros; apply Hext. }
    constructor.
    + eapply Hcv; eauto. left; auto.
    + eapply IH; eauto. intros v0 st0 c0 st0' Hin. apply Hcv. right; auto.
Qed.

(** *** Arrays sent as columns *)

Lemma columns0_empty sks : forall (acc : list (pystr * list json)) sk,
  In sk sks \/ dict_get sk acc = Some [] ->
  dict_get sk (fold_left (fun cols sk => dict_set sk [] cols) sks acc) = Some [].
Proof.
  induction sks as [|k sks IH]; intros acc sk H; simpl.
  - destruct H as [[]|H]; auto.
  - apply IH. destruct (list_eq_dec Z.eq_dec sk k) as [->|Hne].
    + right. apply dict_get_set_same.
    + destruct H as [[E|H]|H]; [congruence|auto|].
      right. rewrite dict_get_set_other; auto.
Qed.

Lemma jc_row_fold cv item :
  (forall s0 v, preserves (extends s0) (cv v)) ->
  (forall k v st c st', dict_get k (fields_of item) = Some v ->
                        cv v st = Ok (c, st') -> extends st' stf -> restores rev c v) ->
  forall ps cols st cols' st1,
    foldM (fun cols (ks : pystr * pystr) =>
             let (orig_key, short_key) := ks in
             v <- lift (of_option KeyError (dict_get orig_key (fields_of item))) ;;
             value <- cv v ;;
             lift (JsonCompressor.column_append short_key value cols))
      ps cols st = Ok (cols', st1) ->
    extends st1 stf -> NoDup (map snd ps) ->
    (forall sk, ~ In sk (map snd ps) -> dict_get sk cols' = dict_get sk cols) /\
    (forall k sk, In (k, sk) ps ->
       exists cells c, dict_get sk cols = Some cells /\
                       dict_get sk cols' = Some (cells ++ [c]) /\ cell_of rev k item c).
Proof.
  intros Hext Hcv. induction ps as [|[k sk] ps IH]; intros cols st cols' st1 H Hst1 Hnd.
  - inversion H; subst. split; [auto|intros k sk []].
  - cbn [foldM] in H. apply bind_ok in H as (cols1 & st2 & Hstep & Hrest).
    apply bind_ok in Hstep as (v & sa & Hv & Hstep). apply lift_ok in Hv as [Hv ->].
    apply bind_ok in Hstep as (c & sb & Hc & Hstep). apply lift_ok in Hstep as [Happ ->].
    assert (Hsb : extends sb stf).
    { eapply extends_trans; [|exact Hst1].
      eapply (@preserves_foldM _ _ _ (extends sb)); [| |exact Hrest]; [|apply extends_refl].
      intros b [k' sk'] _. repeat (preserves_step || apply Hext). }
    cbn [map snd] in Hnd. apply NoDup_cons_iff in Hnd as [Hfresh Hnd'].
    destruct (IH _ _ _ _ Hrest Hst1 Hnd') as [Hother Hin].
    unfold JsonCompressor.column_append in Happ.
    destruct (dict_get sk cols) as [col|] eqn:Ecol; [|discriminate].
    cbn in Happ. inversion Happ; subst cols1; clear Happ.
    destruct (dict_get k (fields_of item)) as [v0|] eqn:Ev; [|discriminate].
    cbn in Hv. inversion Hv; subst v0; clear Hv.
    split.
    + intros sk' Hsk'. cbn [map snd In] in Hsk'.
      rewrite Hother by tauto. apply dict_get_set_other. intros E. apply Hsk'. auto.
    + intros k' sk' [E|Hin'].
      * inversion E; subst k' sk'. exists col, c. split; [exact Ecol|]. split.
        -- rewrite Hother by auto. apply dict_get_set_same.
        -- exists v. split; auto. eapply Hcv; eauto.
      * destruct (Hin k' sk' Hin') as (cells & c' & H1 & H2 & H3).
        assert (Hne : sk' <> sk).
        { intros ->. apply Hfresh. apply (in_map snd) in Hin'. exact Hin'. }
        rewrite dict_get_set_other in H1 by auto.
        exists cells, c'. auto.
Qed.

Lemma jc_rows_fold cv ps rows :
  (forall s0 v, preserves (extends s0) (cv v)) ->
  NoDup (map snd ps) ->
  (forall item k v st c st', In item rows -> dict_get k (fields_of item) = Some v ->
                             cv v st = Ok (c, st') -> extends st' stf -> restores rev c v) ->
  forall done cols st cols' st1,
    foldM (fun cols item =>
             foldM (fun cols (ks : pystr * pystr) =>
                      let (orig_key, short_key) := ks in
                      v <- lift (of_option KeyError (dict_get orig_key (fields_of item))) ;;
                      value <- cv v ;;
                      lift (JsonCompressor.column_append short_key value cols))
               ps cols)
      rows cols st = Ok (cols', st1) ->
    extends st1 stf ->
    (forall k sk, In (k, sk) ps ->
       exists cells, dict_get sk cols = Some cells /\ Forall2 (cell_of rev k) done cells) ->
    (forall k sk, In (k, sk) ps ->
       exists cells, dict_get sk cols' = Some cells /\
                     Forall2 (cell_of rev k) (done ++ rows) cells).
Proof.
  intros Hext Hnd. induction rows as [|item rows IH]; intros Hcv done cols st cols' st1 H Hst1 H0.
  - inversion H; subst. rewrite List.app_nil_r. exact H0.
  - cbn [foldM] in H. apply bind_ok in H as (cols1 & st2 & Hrow & Hrest).
    assert (Hst2 : extends st2 stf).
    { eapply extends_trans; [|exact Hst1].
      eapply (@preserves_foldM _ _ _ (extends st2)); [| |exact Hrest]; [|apply extends_refl].
      intros b item' _. apply preserves_foldM. intros b' [k' sk'] _.
      repeat (preserves_step || apply Hext). }
    destruct (@jc_row_fold cv item Hext) with (ps := ps) (cols := cols) (st := st)
      (cols' := cols1) (st1 := st2) as [_ Hin]; auto.
    { intros k v st0 c st0'. apply Hcv. left; auto. }
    replace (done ++ item :: rows) with ((done ++ [item]) ++ rows)
      by (rewrite <- app_assoc; reflexivity).
    eapply IH; eauto.
    { intros item' k v st0 c st0' Hi. apply Hcv. right; auto. }
    intros k sk Hk. destruct (Hin k sk Hk) as (cells & c & H1 & H2 & H3).
    destruct (H0 k sk Hk) as (cells' & H1' & H4).
    rewrite H1 in H1'. inversion H1'; subst cells'.
    exists (cells ++ [c]). split; auto. apply Forall2_app; auto.
Qed.

Lemma Forall2_combine_left A B C (R : B -> C -> Prop) (Q : A -> C -> Prop) :
  forall (ks : list A) (sks : list B) (d : list C),
  Forall2 R sks d -> length ks = length sks ->
  (forall k sk dj, In (k, sk) (combine ks sks) -> R sk dj -> Q k dj) ->
  Forall2 Q ks d.
Proof.
  intros ks sks d H. revert ks. induction H as [|sk dj sks d Hr Hrest IH]; intros ks Hlen HQ.
  - destruct ks; [constructor|discriminate].
  - destruct ks as [|k ks]; [discriminate|]. constructor.
    + apply (HQ k sk); auto. left; auto.
    + apply IH; [simpl in Hlen; lia|]. intros k' sk' dj' Hin. apply HQ. right; auto.
Qed.

Lemma jc_columns cv arr ks sks :
  (forall s0 v, preserves (extends s0) (cv v)) ->
  (forall item k v st c st', In item arr -> dict_get k (fields_of item) = Some v ->
                             cv v st = Ok (c, st') -> extends st' stf -> restores rev c v) ->
  NoDup sks -> length ks = length sks ->
  forall st columns st1 d,
    foldM (fun cols item =>
             foldM (fun cols (ks : pystr * pystr) =>
                      let (orig_key, short_key) := ks in
                      v <- lift (of_option KeyError (dict_get orig_key (fields_of item))) ;;
                      value <- cv v ;;
                      lift (JsonCompressor.column_append short_key value cols))
               (combine ks sks) cols)
      arr (fold_left (fun cols sk => dict_set sk [] cols) sks []) st = Ok (columns, st1) ->
    extends st1 stf ->
    rmap (fun sk => col <~ of_option KeyError (dict_get sk columns) ;; Ok (JArr col)) sks
    = Ok d ->
    Forall2 (fun k dj => exists cells, dj = JArr cells /\ Forall2 (cell_of rev k) arr cells)
      ks d.
Proof.
  intros Hext Hcv Hnd Hlen st columns st1 d H Hst1 Hd.
  assert (Hsnd : map snd (combine ks sks) = sks).
  { clear -Hlen. revert sks Hlen. induction ks as [|k ks IH]; intros [|sk sks] H;
      simpl in *; try discriminate; auto. f_equal. apply IH. lia. }
  pose proof (@jc_rows_fold cv (combine ks sks) arr Hext) as Hrows.
  rewrite Hsnd in Hrows. specialize (Hrows Hnd Hcv [] _ _ _ _ H Hst1).
  cbn [app] in Hrows.
  apply rmap_Forall2 in Hd.
  eapply Forall2_combine_left; [exact Hd|exact Hlen|].
  intros k sk dj Hin Hdj. cbn beta in Hdj.
  destruct Hrows with (k := k) (sk := sk) as (cells & Hc & Hcells); auto.
  { intros k' sk' Hin'. exists []. split; [|constructor].
    apply columns0_empty. left. apply in_combine_r in Hin'. exact Hin'. }
  rewrite Hc in Hdj. cbn in Hdj. inversion Hdj; subst. exists cells; auto.
Qed.

(** *** Columns back to rows *)

Lemma fields_rebuild (fs : list (pystr * json)) :
  NoDup (keys fs) ->
  forall l acc, incl l fs -> NoDup (keys acc ++ keys l) ->
    fold_left (fun acc k => dict_set k (match dict_get k fs with
                                        | Some v => v
                                        | None => JNull
                                        end) acc) (keys l) acc
    = acc ++ l.
Proof.
  intros Hfs. induction l as [|[k v] l IH]; intros acc Hincl Hnd; simpl.
  - rewrite List.app_nil_r; auto.
  - rewrite (@dict_get_NoDup _ k v fs Hfs) by (apply Hincl; left; auto).
    assert (Hk : dict_get k acc = None).
    { apply dict_get_none. intros Hin. apply NoDup_remove_2 in Hnd.
      apply Hnd. apply in_or_app. auto. }
    rewrite dict_set_fresh by auto. rewrite IH.
    + rewrite <- app_assoc. reflexivity.
    + intros x Hx. apply Hincl. right; auto.
    + unfold keys in *. rewrite map_app. simpl. rewrite <- app_assoc. exact Hnd.
Qed.

Lemma jc_row_decode (dv : json -> result json) (i : Z) (item : json) :
  forall ks names d' d_pre (acc : list (pystr * json)),
  Forall2 (named stf) ks names ->
  Forall2 (fun k dj => exists cells c v,
             dj = JArr cells /\ nth_error cells (Z.to_nat i) = Some c /\
             dv c = Ok v /\ dict_get k (fields_of item) = Some v) ks d' ->
  fold_left (fun acc (js : Z * json) =>
      obj <~ acc ;;
      let (j, short_key) := js in
      original_key <~ original_key rev short_key ;;
      column <~ py_getitem (JArr (d_pre ++ d')) j ;;
      cell <~ py_getitem column i ;;
      value <~ dv cell ;;
      Ok (dict_set original_key value obj))
    (combine (map Z.of_nat (seq (length d_pre) (length names))) (map JStr names)) (Ok acc)
  = Ok (fold_left (fun acc k => dict_set k (match dict_get k (fields_of item) with
                                            | Some v => v
                                            | None => JNull
                                            end) acc) ks acc).
Proof.
  intros ks names d' d_pre acc Hn. revert d' d_pre acc.
  induction Hn as [|k s ks names Hks Hrest IH]; intros d' d_pre acc Hd.
  - reflexivity.
  - inversion Hd as [|k0 dj ks0 d'' (cells & c & v & Edj & Hcell & Hdv & Hget) Hd' E1 E2].
    subst k0 ks0 d' dj.
    cbn [length seq map combine fold_left rbind].
    rewrite (named_restored Hks). cbn [rbind].
    match goal with
    | |- fold_left _ _ ?x = _ => replace x with (Ok (dict_set k v acc))
    end.
    2:{ cbn [py_getitem]. rewrite Nat2Z.id.
        rewrite nth_error_app2 by lia. rewrite Nat.sub_diag. cbn [nth_error of_option rbind].
        cbn [py_getitem]. rewrite Hcell. cbn [of_option rbind]. rewrite Hdv. reflexivity. }
    rewrite Hget.
    specialize (IH d'' (d_pre ++ [JArr cells]) (dict_set k v acc) Hd').
    rewrite <- app_assoc in IH. cbn [app] in IH.
    rewrite length_app in IH. cbn [length] in IH. rewrite Nat.add_1_r in IH.
    exact IH.
Qed.

Lemma jc_decompress_array_rows (dv : json -> result json) ks names d rows :
  ks <> [] -> NoDup ks -> Forall2 (named stf) ks names ->
  Forall2 (fun k dj => exists cells, dj = JArr cells /\
             Forall2 (fun item c => exists v, dict_get k (fields_of item) = Some v
                                              /\ dv c = Ok v) rows cells) ks d ->
  Forall (fun item => exists fs, item = JObj fs /\ keys fs = ks) rows ->
  JsonCompressor._decompress_array dv
    [(py "t", JStr (py "a")); (py "k", JArr (map JStr names)); (py "d", JArr d)] rev
  = Ok (JArr rows).
Proof.
  intros Hne Hnd Hn Hd Hrows. unfold JsonCompressor._decompress_array.
  replace (dict_get (py "k") _) with (Some (JArr (map JStr names))) by reflexivity.
  replace (dict_get (py "d") _) with (Some (JArr d)) by reflexivity.
  cbn [of_option rbind].
  destruct Hd as [|k0 d0 ks0 d' (cells0 & -> & Hcells0) Hd']; [congruence|].
  assert (Hlen0 : len cells0 = len rows).
  { unfold len. apply Forall2_length_eq in Hcells0. lia. }
  replace (py_truthy (JArr (JArr cells0 :: d'))) with true
    by (unfold py_truthy, len; simpl; reflexivity).
  cbn [py_getitem Z.to_nat nth_error of_option rbind py_len]. rewrite Hlen0.
  assert (Hall : Forall2 (fun k dj => exists cells, dj = JArr cells /\
             Forall2 (fun item c => exists v, dict_get k (fields_of item) = Some v
                                              /\ dv c = Ok v) rows cells)
                   (k0 :: ks0) (JArr cells0 :: d')).
  { constructor; eauto. }
  clear Hcells0 Hd' Hlen0. set (ks := k0 :: ks0) in *. set (d := JArr cells0 :: d') in *.
  erewrite rmap_pointwise with (g := fun i => nth (Z.to_nat i) rows JNull).
  { cbn [rbind]. f_equal. f_equal.
    rewrite (@map_nth_range _ _ (fun x => x) JNull rows). apply map_id. }
  intros i Hi. apply in_range_iff in Hi.
  assert (Hi' : (Z.to_nat i < length rows)%nat) by (unfold len in Hi; lia).
  set (item := nth (Z.to_nat i) rows JNull).
  assert (Hitem : In item rows) by (apply nth_In; auto).
  assert (Hnth : nth_error rows (Z.to_nat i) = Some item) by (apply nth_error_nth'; auto).
  clearbody item.
  rewrite Forall_forall in Hrows. destruct (Hrows item Hitem) as (fs & Efs & Hkeys).
  cbn [py_iter rbind].
  replace (len (map JStr names)) with (Z.of_nat (length names))
    by (unfold len; rewrite length_map; reflexivity).
  unfold range. rewrite Nat2Z.id.
  pose proof (@jc_row_decode dv i item ks names d [] [] Hn) as Hrow.
  cbn [app length py_getitem] in Hrow. rewrite Hrow; clear Hrow.
  - cbn [rbind]. f_equal. rewrite Efs. f_equal. cbn [fields_of].
    rewrite <- Hkeys. rewrite (@fields_rebuild fs); auto.
    + rewrite Hkeys; auto.
    + apply incl_refl.
    + cbn [keys map app]. fold (keys fs). rewrite Hkeys; auto.
  - eapply Forall2_impl; [|exact Hall].
    intros k dj (cells & -> & Hcells).
    assert (Hc : exists c, nth_error cells (Z.to_nat i) = Some c).
    { apply Forall2_length_eq in Hcells.
      destruct (nth_error cells (Z.to_nat i)) eqn:E; eauto.
      apply nth_error_None in E. lia. }
    destruct Hc as (c & Hc).
    pose proof Hnth as Hrow.
    clear -Hcells Hc Hrow. revert cells Hcells Hc Hrow. generalize (Z.to_nat i) as n.
    induction rows as [|r rows IH]; intros n cells Hcells Hc Hrow.
    + destruct n; discriminate.
    + inversion Hcells as [|? c0 ? cells' Hhead Htail]; subst.
      destruct n as [|n]; simpl in Hc, Hrow.
      * inversion Hc; inversion Hrow; subst. destruct Hhead as (v & Hv & Hdv).
        exists (c :: cells'), c, v. auto.
      * destruct (IH n cells' Htail Hc Hrow) as (cs & c1 & v & E & H1 & H2 & H3).
        inversion E; subst cs. exists (c0 :: cells'), c1, v. auto.
Qed.

(** *** The whole tree *)

Lemma jc_mapM_named ks :
  (forall k, In k ks -> len k <= JsonCompressor.min_key_length stf ->
             ~ In k (map snd (JsonCompressor.key_map stf))) ->
  forall st sks st1,
    mapM JsonCompressor._get_short_key ks st = Ok (sks, st1) -> extends st1 stf ->
    Forall2 (named stf) ks sks.
Proof.
  induction ks as [|k ks IH]; intros Hclash st sks st1 H Hst1.
  - inversion H; subst sks. constructor.
  - cbn [mapM] in H. apply bind_ok in H as (sk & sa & Hsk & H).
    apply bind_ok in H as (sks' & sb & Hsks & H). inversion H; subst sks sb; clear H.
    assert (Hsa : extends sa stf).
    { eapply extends_trans; [|exact Hst1].
      eapply (@preserves_mapM _ _ _ (extends sa)); [| |exact Hsks]; [|apply extends_refl].
      intros; apply jc_get_short_key_extends. }
    constructor.
    + eapply jc_get_short_key_named; eauto. apply Hclash. left; auto.
    + eapply IH; eauto. intros k' Hk'. apply Hclash. right; auto.
Qed.

Lemma py_eq_str_r c s : py_eq c (JStr s) = true -> c = JStr s.
Proof.
  destruct c as [|[]|n|x|t|l|fs]; simpl; try discriminate.
  intros H. apply str_eqb_eq in H. congruence.
Qed.

Lemma combine_named_In obj : forall names cs s c,
  Forall2 (named stf) (keys obj) names -> Forall2 (restores rev) cs (map snd obj) ->
  In (s, c) (combine names cs) ->
  exists k v, In (k, v) obj /\ named stf k s /\ restores rev c v.
Proof.
  induction obj as [|[k v] obj IH]; intros names cs s c Hn Hr Hin.
  - inversion Hn; subst names. contradiction.
  - cbn [keys map fst snd] in Hn, Hr.
    inversion Hn as [|? s0 ? names' Hks Hn' E1 E2]; subst names.
    inversion Hr as [|c0 ? cs' ? Hcv Hr' E3 E4]; subst cs.
    destruct Hin as [E|Hin].
    + inversion E; subst s0 c0. exists k, v. split; [left; auto|auto].
    + destruct (IH names' cs' s c Hn' Hr' Hin) as (k' & v' & H1 & H2 & H3).
      exists k', v'. split; [right; auto|auto].
Qed.

Lemma jc_value_restores fc : forall v st c st1,
  JsonCompressor._compress_value fc v st = Ok (c, st1) ->
  extends st1 stf ->
  every (restorable stf) v = true ->
  (forall k, In k (all_keys v) -> len k <= JsonCompressor.min_key_length stf ->
             ~ In k (map snd (JsonCompressor.key_map stf))) ->
  restores rev c v.
Proof.
  induction fc as [|fc IH]; intros v st c st1 H Hst1 Hev Hclash; [discriminate|].
  assert (Hext : forall s0 v, preserves (extends s0) (JsonCompressor._compress_value fc v)).
  { intros s0 v0. apply jc_compress_value_preserves. apply jc_get_short_key_extends. }
  pose proof (every_here _ _ Hev) as Hhere. unfold restorable in Hhere.
  apply andb_true_iff in Hhere as [Hhere Hrows].
  apply andb_true_iff in Hhere as [Huniq Hcol]. apply negb_true_iff in Hcol.
  destruct v as [| b | n | x | s | arr | obj]; cbn [JsonCompressor._compress_value] in H;
    try (inversion H; subst c; intros [|fd] Hfd; [lia|reflexivity]).
  - (* arrays *)
    assert (Hitems : forall v st0 c0 st0', In v arr ->
              JsonCompressor._compress_value fc v st0 = Ok (c0, st0') ->
              extends st0' stf -> restores rev c0 v).
    { intros v st0 c0 st0' Hin Hc0 Hst0. eapply IH; eauto.
      - eapply every_item; eauto.
      - intros k Hk. apply Hclash. eapply all_keys_item; eauto. }
    assert (Hregular : forall st0 c0 st0',
              bind (mapM (JsonCompressor._compress_value fc) arr)
                (fun items => ret (JArr items)) st0 = Ok (c0, st0') ->
              extends st0' stf -> restores rev c0 (JArr arr)).
    { intros st0 c0 st0' Hc0 Hst0. apply bind_ok in Hc0 as (cs & sa & Hcs & Hc0).
      inversion Hc0; subst c0 sa; clear Hc0.
      pose proof (@jc_mapM_restores _ arr Hext Hitems _ _ _ Hcs Hst0) as Hall.
      intros [|fd] Hfd; [lia|]. cbn [JsonCompressor._decompress_value].
      rewrite (@Forall2_rmap _ _ _ cs arr); [reflexivity|].
      clear -Hall Hfd. induction Hall as [|c v cs arr Hcv Hall IH]; constructor.
      - apply Hcv. pose proof (@depth_item _ (v :: arr) v (or_introl eq_refl)). lia.
      - apply IH. pose proof (@depth_item _ (v :: arr) v (or_introl eq_refl)).
        simpl in *. lia. }
    unfold JsonCompressor._compress_array in H.
    destruct arr as [|first rest].
    { inversion H; subst c. intros [|fd] Hfd; [lia|reflexivity]. }
    cbv beta iota zeta in H. set (arr := first :: rest) in *.
    destruct (forallb is_dict arr) eqn:Edict; [|eapply Hregular; eauto].
    destruct (forallb (fun item => keyset_eqb (keys (fields_of item))
                                     (keys (fields_of first))) arr) eqn:Ekeys;
      [|eapply Hregular; eauto].
    destruct (3 <=? len arr) eqn:Elen; [|eapply Hregular; eauto].
    clear Hregular.
    assert (Hci : columnar_input (JArr arr) = true).
    { unfold columnar_input. change (hd JNull arr) with first.
      rewrite Edict, Ekeys, Elen. reflexivity. }
    rewrite Hci in Hrows. unfold ordered_rows in Hrows. change (hd JNull arr) with first in Hrows.
    apply andb_true_iff in Hrows as [Hne Hord]. apply negb_true_iff in Hne.
    set (ks := keys (fields_of first)) in *.
    apply bind_ok in H as (sks & sa & Hsks & H).
    apply bind_ok in H as (columns & sb & Hcols & H).
    apply bind_ok in H as (d & sc & Hd & H). apply lift_ok in Hd as [Hd ->].
    inversion H; subst c sb; clear H.
    assert (Hfirst : exists fs, first = JObj fs /\ every (restorable stf) first = true).
    { assert (Hin : In first arr) by (left; auto).
      rewrite forallb_forall in Edict. specialize (Edict first Hin).
      destruct first; try discriminate. eexists; split; [reflexivity|].
      eapply every_item; eauto. }
    destruct Hfirst as (fs & Efs & Hevf).
    assert (Hndk : NoDup ks).
    { apply every_here in Hevf. unfold restorable in Hevf.
      apply andb_true_iff in Hevf as [Hevf _]. apply andb_true_iff in Hevf as [Hevf _].
      subst first. apply nodupb_NoDup. exact Hevf. }
    assert (Hkin : forall k, In k ks -> In k (all_keys (JArr arr))).
    { intros k Hk. apply (@all_keys_item _ arr first); [left; auto|].
      subst first ks. cbn [fields_of] in Hk. unfold keys in Hk.
      apply in_map_iff in Hk as ([k' v'] & E & Hk). cbn in E. subst k'.
      eapply all_keys_field; eauto. }
    assert (Hsa : extends sa stf).
    { eapply extends_trans; [|exact Hst1].
      eapply (@preserves_foldM _ _ _ (extends sa)); [| |exact Hcols]; [|apply extends_refl].
      intros b item' _. apply preserves_foldM. intros b' [k' sk'] _.
      repeat (preserves_step || apply Hext). }
    assert (Hnamed : Forall2 (named stf) ks sks).
    { eapply jc_mapM_named; eauto. }
    assert (Hcells : Forall2 (fun k dj => exists cells, dj = JArr cells
                                /\ Forall2 (cell_of rev k) arr cells) ks d).
    { apply (@jc_columns _ arr ks sks Hext) with (st := sa) (columns := columns) (st1 := st1);
        auto.
      - intros item k v st0 c0 st0' Hitem Hget Hc0 Hst0.
        rewrite forallb_forall in Edict. pose proof (Edict item Hitem) as Hd0.
        destruct item as [| | | | | |ifs]; try discriminate. cbn [fields_of] in Hget.
        apply dict_get_In in Hget. eapply IH; eauto.
        + eapply every_field; [|exact Hget]. eapply every_item; eauto.
        + intros k' Hk'. apply Hclash. eapply all_keys_item; eauto.
          eapply all_keys_value; eauto.
      - eapply named_NoDup; eauto.
      - eapply Forall2_length_eq; eauto. }
    intros [|fd] Hfd; [lia|]. cbn [JsonCompressor._decompress_value].
    replace (dict_get (py "t") _) with (Some (JStr (py "a"))) by reflexivity.
    replace (py_eq (JStr (py "a")) (JStr (py "a"))) with true by reflexivity.
    apply jc_decompress_array_rows with (ks := ks); auto.
    + intros E. unfold len in Hne. subst first ks. cbn [fields_of] in *.
      unfold keys in E. apply map_eq_nil in E. subst fs. discriminate.
    + eapply Forall2_impl; [|exact Hcells].
      intros k dj (cells & -> & Hc). exists cells. split; auto.
      assert (Hdepth : forall item, In item arr -> (depth item <= fd)%nat).
      { intros item Hitem. apply depth_item in Hitem. lia. }
      clear -Hc Hdepth. induction Hc as [|item c0 items cells (v & Hv & Hr) Hc IH];
        constructor.
      * exists v. split; auto. apply Hr.
        assert (Hitem : (depth item <= fd)%nat) by (apply Hdepth; left; auto).
        destruct item; simpl in Hv; try discriminate.
        apply dict_get_In in Hv. apply depth_field in Hv. lia.
      * apply IH. intros item' Hi. apply Hdepth. right; auto.
    + apply Forall_forall. intros item Hitem.
      rewrite forallb_forall in Edict, Hord.
      specialize (Edict item Hitem). specialize (Hord item Hitem).
      destruct item as [| | | | | |ifs]; try discriminate.
      exists ifs. split; auto. apply strs_eqb_eq in Hord. exact Hord.
  - (* objects *)
    unfold JsonCompressor._compress_object in H.
    apply bind_ok in H as (compressed & sa & Hfold & H). inversion H; subst c sa; clear H.
    destruct (@jc_object_fold (JsonCompressor._compress_value fc) obj Hext)
      with (acc := @nil (pystr * json)) (st := st) (compressed := compressed) (st1 := st1)
      as (names & cs & Hn & Hr & E); auto.
    { intros k v st0 c0 st0' Hin Hc0 Hst0. eapply IH; eauto.
      - eapply every_field; eauto.
      - intros k' Hk'. apply Hclash. eapply all_keys_value; eauto. }
    { intros k v Hin. apply Hclash. eapply all_keys_field; eauto. }
    cbn [unique_keys] in Huniq. apply nodupb_NoDup in Huniq.
    assert (Hlen : length names = length cs).
    { apply Forall2_length_eq in Hn, Hr. unfold keys in Hn. rewrite !length_map in *.
      etransitivity; [symmetry; exact Hn|symmetry; exact Hr]. }
    rewrite dict_fold_fresh in E.
    2:{ cbn [keys map app]. fold (keys (combine names cs)).
        rewrite keys_combine by auto. eapply named_NoDup; eauto. }
    cbn [app] in E. subst compressed.
    intros [|fd] Hfd; [lia|]. cbn [JsonCompressor._decompress_value].
    assert (Hmark : match dict_get (py "t") (combine names cs) with
                    | Some t => py_eq t (JStr (py "a"))
                    | None => false
                    end = false).
    { destruct (dict_get (py "t") (combine names cs)) as [t|] eqn:Et; auto.
      destruct (py_eq t (JStr (py "a"))) eqn:Ea; auto.
      apply py_eq_str_r in Ea. subst t. apply dict_get_In in Et.
      destruct (@combine_named_In obj names cs _ _ Hn Hr Et) as (k & v & Hin & Hk & Hv).
      pose proof (restores_scalar Hv eq_refl) as ->.
      cbn [looks_columnar] in Hcol.
      assert (Hex : existsb (fun kv => str_eqb (short_name stf (fst kv)) (py "t")
                                       && match snd kv with
                                          | JStr s => str_eqb s (py "a")
                                          | _ => false
                                          end) obj = true).
      { apply existsb_exists. exists (k, JStr (py "a")). split; auto. cbn [fst snd].
        destruct Hk as (-> & _). reflexivity. }
      congruence. }
    rewrite Hmark. unfold JsonCompressor._decompress_object.
    rewrite (@jc_decompress_fields _ (keys obj) names cs (map snd obj) []); auto.
    + cbn [app rbind]. unfold keys. rewrite combine_fst_snd. reflexivity.
    + clear -Hr Hfd. revert Hr Hfd. generalize cs as l.
      induction obj as [|[k v] obj IH]; intros l Hr Hfd;
        inversion Hr as [|c0 v0 cs0 vs0 Hhead Htail]; subst; constructor.
      * apply Hhead.
        pose proof (@depth_field _ ((k, v) :: obj) k v (or_introl eq_refl)). lia.
      * apply IH; auto. simpl in *. lia.
    + unfold keys. rewrite !length_map. reflexivity.
Qed.
End BaselineRestoring.

Section BaselineEnvelope.
Context {F : PyFloat}.

Lemma jc_compress_numbered data st0 env st :
  JsonCompressor.compress data st0 = Ok (env, st) ->
  jc_numbered st /\
  JsonCompressor.min_key_length st = JsonCompressor.min_key_length st0 /\
  exists cd,
    JsonCompressor._compress_value (S (depth data)) data
      {| JsonCompressor.key_map := []; JsonCompressor.reverse_key_map := [];
         JsonCompressor.key_counter := 0;
         JsonCompressor.min_key_length := JsonCompressor.min_key_length st0 |}
    = Ok (cd, st) /\
    dict_get (py "d") (fields_of env) = Some cd /\
    reverse_of env = Ok (map (fun kv => (snd kv, fst kv)) (JsonCompressor.key_map st)).
Proof.
  unfold JsonCompressor.compress. intros H.
  destruct (JsonCompressor._compress_value _ data _) as [[cd st1]| | |] eqn:E;
    try discriminate.
  assert (Hnum : jc_numbered st1).
  { eapply (@jc_compress_value_preserves _ jc_numbered); [| |exact E].
    - apply jc_get_short_key_numbered.
    - split; [apply numbered_empty|reflexivity]. }
  assert (Hmin : JsonCompressor.min_key_length st1 = JsonCompressor.min_key_length st0).
  { eapply (@jc_compress_value_preserves _
              (fun s => JsonCompressor.min_key_length s = JsonCompressor.min_key_length st0));
      [| |exact E]; [|reflexivity].
    intros k s r s' Hs Hk. apply jc_get_short_key_step in Hk as [[Hk _] _]. congruence. }
  inversion H; subst; clear H. split; auto. split; auto.
  exists cd. split; auto. split.
  - destruct (JsonCompressor.key_map st); reflexivity.
  - unfold reverse_of. destruct (JsonCompressor.key_map st) eqn:Ekm; [reflexivity|].
    rewrite <- Ekm. cbn [fields_of app].
    change (dict_get (py "m") [(py "d", cd); (py "m", mapping_of (JsonCompressor.key_map st))])
      with (Some (mapping_of (JsonCompressor.key_map st))).
    destruct Hnum as [Hnum _]. eapply reverse_map_numbered; eauto.
Qed.

End BaselineEnvelope.

(** X2: in [json_compressor.py] the dictionary emitted by [compress] is
    invertible: the codes are the base62 numerals of 0 .. n-1, no two keys
    share a code, and the reverse mapping that [decompress] builds from the
    envelope is the attribute [reverse_key_map] that [_get_short_key]
    maintained, sending every code back to its key. *)
Theorem baseline_dictionary_invertible {F : PyFloat}
  (data env : json) (st0 st : JsonCompressor.state) :
  JsonCompressor.compress data st0 = Ok (env, st) ->
  let key_map := JsonCompressor.key_map st in
  (forall k code, dict_get k key_map = Some code ->
     exists i, 0 <= i < len key_map /\ code = _encode_base62 i) /\
  (forall k1 k2 code,
     dict_get k1 key_map = Some code -> dict_get k2 key_map = Some code -> k1 = k2) /\
  reverse_of env = Ok (JsonCompressor.reverse_key_map st) /\
  forall k code,
    dict_get k key_map = Some code
    <-> dict_get code (JsonCompressor.reverse_key_map st) = Some k.
Proof.
  intros H key_map. apply jc_compress_numbered in H as ([Hnum Hrev] & _ & cd & _ & _ & Hr).
  fold key_map in Hnum, Hrev, Hr. rewrite Hrev.
  split; [|split; [|split]].
  - intros k code Hk. destruct (@numbered_codes _ _ _ _ Hnum Hk) as (i & Hi & ->).
    exists i. split; auto. destruct Hnum as (<- & _). auto.
  - intros k1 k2 code. eapply numbered_injective; eauto.
  - exact Hr.
  - intros k code. split.
    + eapply reverse_lookup; eauto.
    + intros Hc. apply reverse_lookup_inv in Hc. apply dict_get_NoDup; auto.
      apply Hnum.
Qed.

(** X4: round trip of [json_compressor.py].  Whenever no object of the data
    lists a key twice, no key short enough to be kept doubles as a code of
    the dictionary, no object carries the columnar marker after renaming,
    and the rows of every array sent as columns are non-empty and list
    their keys in one order, [decompress] gives the data back from the
    envelope of [compress], with any fuel above the nesting depth. *)
Theorem baseline_round_trip {F : PyFloat}
  (data : json) (st0 st : JsonCompressor.state) (env : list (pystr * json)) (fuel : nat) :
  JsonCompressor.compress data st0 = Ok (JObj env, st) ->
  every (restorable st) data = true ->
  no_code_clash st data = true ->
  (depth data < fuel)%nat ->
  JsonCompressor.decompress fuel env = Ok data.
Proof.
  intros H Hev Hclash Hfuel.
  apply jc_compress_numbered in H as ([Hnum _] & Hmin & cd & Hcd & Hd & Hr).
  unfold JsonCompressor.decompress. cbn [fields_of] in Hd. unfold reverse_of in Hr.
  cbn [fields_of] in Hr. rewrite Hr, Hd. cbn [rbind of_option].
  eapply (@jc_value_restores _ st _ Hnum); eauto.
  - apply extends_refl.
  - intros k Hk Hlen Hin. unfold no_code_clash in Hclash.
    rewrite forallb_forall in Hclash. specialize (Hclash k Hk).
    apply negb_true_iff in Hclash. apply Z.leb_le in Hlen. rewrite Hlen in Hclash.
    apply str_mem_In in Hin. cbn in Hclash. congruence.
Qed.

Lemma baseline_round_trip_witness :
  exists env st,
    JsonCompressor.compress sample_data JsonCompressor.init = Ok (JObj env, st) /\
    dict_get (py "m") env
    = Some (JObj [(py "user_id", JStr (py "0")); (py "username", JStr (py "1"));
                  (py "metadata", JStr (py "2")); (py "total_count", JStr (py "3"));
                  (py "page_number", JStr (py "4")); (py "items_per_page", JStr (py "5"))]) /\
    JsonCompressor.decompress 4 env = Ok sample_data.
Proof.
  eexists. eexists. split; [vm_compute; reflexivity|]. split; [reflexivity|].
  eapply (@baseline_round_trip IntegerOnly sample_data JsonCompressor.init).
  - vm_compute. reflexivity.
  - vm_compute. reflexivity.
  - vm_compute. reflexivity.
  - vm_compute. lia.
Defined.

(** *** The baseline encoder: what it returns, and what it can lose *)



Lemma forallb_repeat A (p : A -> bool) x n : p x = true -> forallb p (repeat x n) = true.
Proof. intros H. induction n; simpl; auto. rewrite H. auto. Qed.

Lemma foldM_rows_no_keys S A B C (f : A -> B -> C -> M S B) (rows : list A) :
  forall cols st,
    foldM (fun cols (r : A) => foldM (f r) [] cols) rows cols st = Ok (cols, st).
Proof.
  induction rows as [|r rows IH]; intros cols st; cbn [foldM]; [reflexivity|].
  unfold bind at 1. cbn [ret]. apply IH.
Qed.

(** X6: rows without fields are lost by [json_compressor.py].  An array of
    three or more empty objects is sent to the columnar form with no key
    and no column, and the decoder, which reads the number of rows off the
    first column, returns the empty array. *)
Theorem baseline_empty_rows_lost {F : PyFloat} (n : nat) (st0 : JsonCompressor.state) :
  (3 <= n)%nat ->
  let node := JObj [(py "t", JStr (py "a")); (py "k", JArr []); (py "d", JArr [])] in
  exists st,
    JsonCompressor.compress (JArr (repeat (JObj []) n)) st0 = Ok (JObj [(py "d", node)], st) /\
    forall fuel, JsonCompressor.decompress (S fuel) [(py "d", node)] = Ok (JArr []).
Proof.
  intros Hn node. unfold JsonCompressor.compress.
  cbn [JsonCompressor._compress_value]. unfold JsonCompressor._compress_array.
  destruct n as [|n]; [lia|]. cbn [repeat]. cbv beta iota zeta.
  change (JObj [] :: repeat (JObj []) n) with (repeat (@JObj F []) (S n)).
  rewrite forallb_repeat by reflexivity. rewrite forallb_repeat by reflexivity.
  replace (3 <=? len (repeat (@JObj F []) (S n))) with true
    by (symmetry; apply Z.leb_le; unfold len; rewrite repeat_length; lia).
  cbn [fields_of keys map mapM fold_left combine].
  unfold bind at 1. cbn [ret]. unfold bind at 1.
  match goal with
  | |- context [foldM (fun cols item => foldM (@?f item) [] cols) ?rows ?c ?s] =>
      rewrite (@foldM_rows_no_keys _ _ _ _ f rows c s)
  end.
  cbn [lift rmap rbind bind ret JsonCompressor.key_map].
  eexists. split; [reflexivity|]. intros fuel. reflexivity.
Qed.

Section EmptyRowsRun.
#[local] Existing Instance IntegerOnly.

Lemma baseline_empty_rows_lost_witness :
  exists st,
    JsonCompressor.compress (JArr [JObj []; JObj []; JObj []]) JsonCompressor.init
    = Ok (JObj [(py "d", JObj [(py "t", JStr (py "a")); (py "k", JArr []);
                               (py "d", JArr [])])], st) /\
    forall fuel,
      JsonCompressor.decompress (S fuel)
        [(py "d", JObj [(py "t", JStr (py "a")); (py "k", JArr []); (py "d", JArr [])])]
      = Ok (JArr []).
Proof. apply (@baseline_empty_rows_lost IntegerOnly 3 JsonCompressor.init). lia. Defined.

End EmptyRowsRun.

(** X7: a kept key that doubles as a code loses its field in
    [json_compressor.py].  The key [0] is short enough to be kept; the
    first long key receives the code [0]; the second assignment overwrites
    the first in the compressed object, and the decoder gives back a single
    field under the long key. *)
Theorem baseline_code_clash_loses_field {F : PyFloat} (long : pystr) (a b : json) :
  6 < len long -> depth a = O -> depth b = O ->
  exists st,
    JsonCompressor.compress (JObj [(py "0", a); (long, b)]) JsonCompressor.init
    = Ok (JObj [(py "d", JObj [(py "0", b)]); (py "m", JObj [(long, JStr (py "0"))])], st) /\
    forall fuel,
      JsonCompressor.decompress (S (S fuel))
        [(py "d", JObj [(py "0", b)]); (py "m", JObj [(long, JStr (py "0"))])]
      = Ok (JObj [(long, b)]).
Proof.
  intros Hlen Ha Hb.
  assert (Hscalar : forall v : json, depth v = O ->
            (forall st, JsonCompressor._compress_value 1 v st = Ok (v, st)) /\
            (forall fuel key_map, JsonCompressor._decompress_value (S fuel) v key_map = Ok v)).
  { intros v Hv. destruct v; try discriminate; split; reflexivity. }
  destruct (Hscalar a Ha) as [Hca _]. destruct (Hscalar b Hb) as [Hcb Hdb].
  assert (Hlong : JsonCompressor._get_short_key long JsonCompressor.init
                  = Ok (py "0",
                        {| JsonCompressor.key_map := [(long, py "0")];
                           JsonCompressor.reverse_key_map := [(py "0", long)];
                           JsonCompressor.key_counter := 1;
                           JsonCompressor.min_key_length := 6 |})).
  { unfold JsonCompressor._get_short_key. cbn [JsonCompressor.init
      JsonCompressor.min_key_length JsonCompressor.key_map dict_get].
    replace (len long <=? 6) with false by (symmetry; apply Z.leb_gt; lia). reflexivity. }
  unfold JsonCompressor.compress.
  replace (depth (JObj [(py "0", a); (long, b)])) with 1%nat by (simpl; rewrite Ha, Hb; reflexivity).
  cbn [JsonCompressor._compress_value]. unfold JsonCompressor._compress_object.
  cbn [foldM].
  change {| JsonCompressor.key_map := []; JsonCompressor.reverse_key_map := [];
            JsonCompressor.key_counter := 0;
            JsonCompressor.min_key_length :=
              JsonCompressor.min_key_length JsonCompressor.init |}
    with JsonCompressor.init.
  unfold bind at 1. unfold bind at 1. unfold bind at 1.
  rewrite jc_get_short_key_short by (cbn; lia).
  unfold bind at 1. rewrite Hca. cbn [ret dict_set].
  unfold bind at 1. unfold bind at 1. rewrite Hlong.
  unfold bind at 1. rewrite Hcb. cbn [ret dict_set str_eqb].
  replace (str_eqb (py "0") (py "0")) with true by reflexivity.
  cbn [JsonCompressor.key_map app map fst snd].
  eexists. split; [reflexivity|].
  intros fuel. unfold JsonCompressor.decompress.
  replace (dict_get (py "m") _) with (Some (JObj [(long, JStr (py "0"))])) by reflexivity.
  replace (dict_get (py "d") [(py "d", JObj [(py "0", b)]); (py "m", JObj [(long, JStr (py "0"))])])
    with (Some (JObj [(py "0", b)])) by reflexivity.
  cbn [reverse_map fold_left rbind snd fst dict_set of_option].
  cbn [JsonCompressor._decompress_value].
  replace (dict_get (py "t") [(py "0", b)]) with (@None json) by reflexivity.
  unfold JsonCompressor._decompress_object. cbn [fold_left rbind original_key dict_get].
  replace (str_eqb (py "0") (py "0")) with true by reflexivity.
  clear Hcb Hdb. destruct b; try discriminate; reflexivity.
Qed.

Section CodeClashRun.
#[local] Existing Instance IntegerOnly.

Lemma baseline_code_clash_loses_field_witness :
  exists st,
    JsonCompressor.compress
      (JObj [(py "0", JInt 1); (py "product", JInt 2)]) JsonCompressor.init
    = Ok (JObj [(py "d", JObj [(py "0", JInt 2)]);
                (py "m", JObj [(py "product", JStr (py "0"))])], st) /\
    forall fuel,
      JsonCompressor.decompress (S (S fuel))
        [(py "d", JObj [(py "0", JInt 2)]); (py "m", JObj [(py "product", JStr (py "0"))])]
      = Ok (JObj [(py "product", JInt 2)]).
Proof.
  apply (@baseline_code_clash_loses_field IntegerOnly (py "product") (JInt 1) (JInt 2)).
  - vm_compute. reflexivity.
  - reflexivity.
  - reflexivity.
Defined.

End CodeClashRun.

(** *** compressed_readable.py: integer arrays that are not packed *)

Section IntegerRecords.
Context {F : PyFloat}.

Lemma delta_run_ints z0 d n :
  delta_run (JInt z0) (JInt d) (JInt n)
  = Ok (JArr (map (fun i => JInt (z0 + i * d)) (range n))).
Proof.
  unfold delta_run. cbn [py_range py_index rbind].
  rewrite (@rmap_pointwise _ _ _ (fun i => JInt (z0 + i * d))); reflexivity.
Qed.

Lemma progression_steps d : forall l z,
  forallb (fun p => snd p - fst p =? d) (combine (z :: l) l) = true ->
  forall i, (i < length (z :: l))%nat -> nth i (z :: l) 0 = z + Z.of_nat i * d.
Proof.
  induction l as [|y l IH]; intros z H i Hi.
  - simpl in Hi. assert (i = O) by lia. subst. simpl. lia.
  - cbn [combine forallb fst snd] in H. apply andb_true_iff in H as [H1 H2].
    apply Z.eqb_eq in H1. destruct i as [|i]; [simpl; lia|].
    change (nth (S i) (z :: y :: l) 0) with (nth i (y :: l) 0).
    rewrite (IH y H2 i) by (simpl in *; lia). lia.
Qed.

Lemma progression_rebuilt z0 z1 rest :
  is_progression (z0 :: z1 :: rest) = true ->
  map (fun i => JInt (z0 + i * (z1 - z0))) (range (len (z0 :: z1 :: rest)))
  = map JInt (z0 :: z1 :: rest).
Proof.
  intros H. unfold is_progression in H. cbn [tl] in H.
  rewrite <- (@map_nth_range _ _ JInt 0 (z0 :: z1 :: rest)).
  apply map_ext_in. intros i Hi. apply in_range_iff in Hi. f_equal.
  rewrite (@progression_steps (z1 - z0) (z1 :: rest) z0 H (Z.to_nat i)).
  - rewrite Z2Nat.id by lia. reflexivity.
  - unfold len in Hi. lia.
Qed.

Lemma delta_record_decodes fuel key_map (a b c : json) :
  CompressedReadable._decompress_value (S fuel)
    (JObj [(py "s", a); (py "d", b); (py "n", c)]) key_map
  = delta_run a b c.
Proof. reflexivity. Qed.

End IntegerRecords.

(** X8: integer arrays that [compressed_readable.py] does not pack.  An
    array of fewer than three ints, or of ints with constant successive
    differences, is encoded without [struct]: the empty array as itself, one
    int or two equal ints as the constant record, two different ints as the
    plain list, and a progression of three or more as the delta record
    [{"s": first, "d": difference, "n": count}].  Whatever the size of the
    ints, the decoder returns the original array. *)
Theorem int_array_records {F : PyFloat}
  (zs : list Z) (fuel : nat) (st : CompressedReadable.state) :
  len zs < 3 \/ is_progression zs = true ->
  let arr := map JInt zs in
  let code :=
    match zs with
    | [] => JArr []
    | [a] => CompressedReadable.constant_record (JInt a) 1
    | [a; b] => if a =? b then CompressedReadable.constant_record (JInt a) 2 else JArr arr
    | z0 :: z1 :: _ => JObj [(py "s", JInt z0); (py "d", JInt (z1 - z0)); (py "n", JInt (len zs))]
    end in
  CompressedReadable._compress_value (S (S fuel)) (JArr arr) st = Ok (code, st) /\
  forall fuel' key_map,
    CompressedReadable._decompress_value (S (S fuel')) code key_map = Ok (JArr arr).
Proof.
  intros H arr code. subst arr code.
  destruct zs as [|a [|b [|c rest]]].
  - split; reflexivity.
  - split; [|reflexivity].
    cbn [CompressedReadable._compress_value map]. unfold CompressedReadable._compress_array.
    cbn [CompressedReadable.as_bools CompressedReadable.as_nums as_num].
    unfold bind, lift. cbn [CompressedReadable._is_sequential len length Z.of_nat].
    cbn [Z.ltb Z.compare Pos.compare Pos.compare_cont rbind].
    cbn [CompressedReadable._is_constant forallb]. rewrite py_eq_int, Z.eqb_refl.
    reflexivity.
  - cbn [CompressedReadable._compress_value map]. unfold CompressedReadable._compress_array.
    cbn [CompressedReadable.as_bools CompressedReadable.as_nums as_num].
    unfold bind at 1. unfold lift at 1.
    cbn [CompressedReadable._is_sequential len length Z.of_nat].
    cbn [Z.ltb Z.compare Pos.compare Pos.compare_cont Pos.of_succ_nat Pos.succ rbind].
    cbn [CompressedReadable._is_constant forallb]. rewrite !py_eq_int, Z.eqb_refl.
    cbn [andb]. rewrite andb_true_r. rewrite (Z.eqb_sym b a).
    destruct (a =? b) eqn:E.
    + apply Z.eqb_eq in E. subst b. split; reflexivity.
    + split; reflexivity.
  - assert (Hp : is_progression (a :: b :: c :: rest) = true).
    { destruct H as [H|H]; auto. unfold len in H. simpl in H. lia. }
    assert (Hlen : 3 <= len (a :: b :: c :: rest)) by (unfold len; simpl; lia).
    split.
    + cbn [CompressedReadable._compress_value].
      rewrite (@compress_array_ints _ _ (a :: b :: c :: rest) st Hlen). rewrite Hp.
      reflexivity.
    + intros fuel' key_map. rewrite delta_record_decodes, delta_run_ints.
      rewrite progression_rebuilt by auto. reflexivity.
Qed.

Section IntegerRecordRuns.
#[local] Existing Instance IntegerOnly.

(** The progression [0, 5, 10, 15] of the specification, and one whose
    ints are far outside the 32-bit range. *)
Lemma int_array_records_witness :
  (CompressedReadable._compress_value 2 (JArr (map JInt [0; 5; 10; 15]))
     CompressedReadable.init
   = Ok (JObj [(py "s", JInt 0); (py "d", JInt 5); (py "n", JInt 4)],
         CompressedReadable.init)) /\
  (forall fuel' key_map,
     CompressedReadable._decompress_value (S (S fuel'))
       (JObj [(py "s", JInt (10 ^ 12)); (py "d", JInt (10 ^ 12)); (py "n", JInt 3)]) key_map
     = Ok (JArr (map JInt [10 ^ 12; 2 * 10 ^ 12; 3 * 10 ^ 12]))).
Proof.
  split.
  - refine (proj1 (@int_array_records IntegerOnly [0; 5; 10; 15] 0
                     CompressedReadable.init _)).
    right. reflexivity.
  - refine (proj2 (@int_array_records IntegerOnly [10 ^ 12; 2 * 10 ^ 12; 3 * 10 ^ 12] 0
                     CompressedReadable.init _)).
    right. reflexivity.
Defined.

Lemma numeric_array_packing_witness :
  exists tag size,
    let zs := [1; 2; 200] in
    let packed := tag :: b64encode (flat_map (le_bytes size) zs) in
    CompressedReadable._compress_array (CompressedReadable._compress_value 1)
      (map JInt zs) CompressedReadable.init
    = Ok (JStr packed, CompressedReadable.init) /\
    tag = ch "H" /\ size = 2%nat /\
    forall fuel key_map,
      CompressedReadable._decompress_value (S fuel) (JStr packed) key_map
      = Ok (JArr (map JInt zs)).
Proof.
  destruct (@numeric_array_packing IntegerOnly (CompressedReadable._compress_value 1)
              [1; 2; 200] CompressedReadable.init)
    as (tag & size & Hc & Hfits & Hwidth & Hd).
  - vm_compute. discriminate.
  - reflexivity.
  - repeat constructor; vm_compute; discriminate.
  - exists tag, size. cbv zeta in *. split; [exact Hc|].
    assert (N1 : ~ Forall (fits 1) [1; 2; 200]).
    { intros H. inversion H as [|? ? _ H1]; subst. inversion H1 as [|? ? _ H2]; subst.
      inversion H2 as [|? ? [_ H3] _]; subst. vm_compute in H3. discriminate. }
    destruct Hwidth as [[-> ->]|[(-> & -> & _)|(-> & -> & N2)]].
    + exfalso. apply N1. exact Hfits.
    + split; [reflexivity|]. split; [reflexivity|]. exact Hd.
    + exfalso. apply N2. repeat constructor; vm_compute; discriminate.
Defined.

Lemma numeric_array_overflow_witness :
  CompressedReadable._compress_array (CompressedReadable._compress_value 1)
    (map JInt [7; 1; 2 ^ 40]) CompressedReadable.init
  = Raise StructError.
Proof.
  apply (@numeric_array_overflow IntegerOnly).
  - vm_compute. discriminate.
  - reflexivity.
  - intros H. inversion H as [|? ? _ H1]; subst. inversion H1 as [|? ? _ H2]; subst.
    inversion H2 as [|? ? [_ H3] _]; subst. vm_compute in H3. discriminate.
Defined.

End IntegerRecordRuns.

Section DictionaryInvertibleRuns.
#[local] Existing Instance IntegerOnly.

(** On the sample of [json_compressor.py], the code [1] leads back to
    [username] and to nothing else. *)
Lemma baseline_dictionary_invertible_witness :
  exists env st,
    JsonCompressor.compress sample_data JsonCompressor.init = Ok (env, st) /\
    reverse_of env = Ok (JsonCompressor.reverse_key_map st) /\
    dict_get (py "1") (JsonCompressor.reverse_key_map st) = Some (py "username").
Proof.
  destruct (JsonCompressor.compress sample_data JsonCompressor.init) as [[env st]| | |] eqn:E;
    try (vm_compute in E; discriminate).
  exists env, st. split; [reflexivity|].
  destruct (@baseline_dictionary_invertible IntegerOnly sample_data env JsonCompressor.init st E)
    as (_ & _ & Hrev & Hiff).
  split; [exact Hrev|]. apply Hiff.
  vm_compute in E. inversion E; subst. reflexivity.
Defined.

(** In [compressed_readable.py] the short key [id] is coded as well, and the
    code leads back to it. *)
Lemma evolved_dictionary_invertible_witness :
  let data := JObj [(py "id", JInt 1); (py "name", JStr (py "x"))] in
  exists env st rev,
    CompressedReadable.compress data CompressedReadable.init = Ok (env, st) /\
    reverse_of env = Ok rev /\
    dict_get (py "1") rev = Some (py "name").
Proof.
  intros data.
  destruct (CompressedReadable.compress data CompressedReadable.init) as [[env st]| | |] eqn:E;
    try (vm_compute in E; discriminate).
  destruct (@evolved_dictionary_invertible IntegerOnly data env CompressedReadable.init st E)
    as (_ & _ & rev & Hrev & Hiff).
  exists env, st, rev. split; [reflexivity|]. split; [exact Hrev|]. apply Hiff.
  vm_compute in E. inversion E; subst. reflexivity.
Defined.

End DictionaryInvertibleRuns.

(** *** compressed_readable.py: which strings survive, and what [_unpack_booleans] reads *)

Lemma a2b_base64_length s : forall quad_pos leftchar pads bs,
  a2b_base64 s quad_pos leftchar pads = Ok bs -> (length bs <= length s)%nat.
Proof.
  induction s as [|c s IH]; intros q l p bs H; cbn [a2b_base64] in H.
  - destruct (q =? 0); inversion H; subst; simpl; lia.
  - destruct (c =? pad_char).
    { destruct ((2 <=? q) && (4 <=? q + (p + 1))).
      - inversion H; subst; simpl; lia.
      - apply IH in H. simpl; lia. }
    destruct (b64_index c) as [v|]; [|apply IH in H; simpl; lia].
    destruct (q =? 0); [apply IH in H; simpl; lia|].
    destruct (q =? 1); [|destruct (q =? 2)];
      apply rbind_ok in H as (out & Hout & H); inversion H; subst;
      apply IH in Hout; simpl; lia.
Qed.

Lemma b64decode_length s bs : b64decode s = Ok bs -> (length bs <= length s)%nat.
Proof.
  unfold b64decode. destruct (forallb _ s); [|discriminate]. apply a2b_base64_length.
Qed.

Lemma utf8_decode_length n : forall bs s,
  (length bs <= n)%nat -> utf8_decode bs = Ok s -> (length s <= length bs)%nat.
Proof.
  induction n as [|n IH]; intros bs s Hn H.
  - destruct bs; [|simpl in Hn; lia]. inversion H; subst; simpl; lia.
  - destruct bs as [|b0 r]; [inversion H; subst; simpl; lia|].
    cbn [utf8_decode] in H. cbn [length] in *.
    destruct (in_range 0 127 b0).
    { apply rbind_ok in H as (t & Ht & H). inversion H; subst.
      apply IH in Ht; simpl; lia. }
    destruct (in_range 194 223 b0).
    { destruct r as [|b1 r1]; [discriminate|]. destruct (in_range 128 191 b1); [|discriminate].
      apply rbind_ok in H as (t & Ht & H). inversion H; subst.
      apply IH in Ht; simpl in *; lia. }
    destruct (in_range 224 239 b0).
    { destruct r as [|b1 [|b2 r2]]; try discriminate.
      destruct (_ && _); [|discriminate].
      apply rbind_ok in H as (t & Ht & H). inversion H; subst.
      apply IH in Ht; simpl in *; lia. }
    destruct (in_range 240 244 b0); [|discriminate].
    destruct r as [|b1 [|b2 [|b3 r3]]]; try discriminate.
    destruct (_ && _); [|discriminate].
    apply rbind_ok in H as (t & Ht & H). inversion H; subst.
    apply IH in Ht; simpl in *; lia.
Qed.

Section StringTags.
Context {F : PyFloat}.

Lemma compress_str_valid s : valid_text s -> CompressedReadable.compress_str s = Ok (JStr s).
Proof.
  intros Hs. destruct (utf8_encode_valid Hs) as (bytes & Hb).
  unfold CompressedReadable.compress_str. destruct (20 <? len s); [|reflexivity].
  rewrite Hb. cbn [rbind].
  pose proof (utf8_encode_length s Hb). pose proof (b64encode_not_shorter bytes).
  replace (len (b64encode bytes) <? len s) with false by (symmetry; apply Z.ltb_ge; lia).
  reflexivity.
Qed.

Lemma unpack_booleans_array s v :
  CompressedReadable._unpack_booleans s = Ok v -> exists items, v = JArr items.
Proof.
  unfold CompressedReadable._unpack_booleans. destruct (split_colon (tl s)) as [p0 p1].
  intros H. apply rbind_ok in H as (bd & _ & H). apply rbind_ok in H as (cs & _ & H).
  apply rbind_ok in H as (n & _ & H). apply rbind_ok in H as (r & _ & H).
  inversion H; subst. eauto.
Qed.

Lemma unpack_numbers_array s v :
  CompressedReadable._unpack_numbers s = Ok v -> exists items, v = JArr items.
Proof.
  unfold CompressedReadable._unpack_numbers.
  intros H. apply rbind_ok in H as (c & _ & H). apply rbind_ok in H as (bs & _ & H).
  destruct (c =? ch "B"); [inversion H; subst; eauto|].
  destruct (c =? ch "H"); [|destruct (c =? ch "I")];
    apply rbind_ok in H as (ns & _ & H); inversion H; subst; eauto.
Qed.

End StringTags.

(** X11: which strings survive [compressed_readable.py].  The encoder leaves
    every string of Unicode text as it is (the base64 branch never wins);
    the decoder gives such a string back unchanged exactly when it is
    non-empty and its first character is none of the tag letters S, T, B,
    H, I, D.  The empty string makes the decoder raise, and a string that
    starts with a tag letter is decoded as something else or raises. *)
Theorem string_round_trip {F : PyFloat}
  (s : pystr) (fuel fuel' : nat) (st : CompressedReadable.state)
  (key_map : list (pystr * pystr)) :
  valid_text s ->
  CompressedReadable._compress_value (S fuel) (JStr s) st = Ok (JStr s, st) /\
  (CompressedReadable._decompress_value (S fuel') (JStr s) key_map = Ok (JStr s)
   <-> s <> [] /\ char_in (hd 0 s) (py "STBHID") = false) /\
  (s = [] ->
   CompressedReadable._decompress_value (S fuel') (JStr s) key_map = Raise IndexError).
Proof.
  intros Hs. split; [|split].
  - cbn [CompressedReadable._compress_value]. unfold lift.
    rewrite compress_str_valid by auto. reflexivity.
  - cbn [CompressedReadable._decompress_value]. unfold CompressedReadable.decompress_str.
    destruct s as [|c r].
    { cbn. split; [discriminate|intros [H _]; congruence]. }
    cbn [startswith hd nth_error of_option rbind tl].
    unfold char_in. cbn [py map list_ascii_of_string existsb].
    change (ch "S") with 83. change (ch "T") with 84. change (ch "B") with 66.
    change (ch "H") with 72. change (ch "I") with 73. change (ch "D") with 68.
    destruct (c =? 83) eqn:ES.
    { cbn [orb]. split; [|intros [_ H]; discriminate].
      intros H. exfalso.
      apply rbind_ok in H as (bytes & Hb & H). apply rbind_ok in H as (text & Ht & H).
      inversion H as [E]. apply b64decode_length in Hb.
      apply (@utf8_decode_length (length bytes)) in Ht; [|lia].
      rewrite E in Ht. simpl in Ht. lia. }
    destruct (c =? 84) eqn:ET.
    { cbn [orb]. split; [|intros [_ H]; discriminate].
      intros H. apply unpack_booleans_array in H as (items & H). discriminate. }
    cbn [orb]. rewrite !orb_false_r.
    destruct ((c =? 66) || ((c =? 72) || ((c =? 73) || (c =? 68)))) eqn:EN.
    + split; [|intros [_ H]; discriminate].
      intros H. apply unpack_numbers_array in H as (items & H). discriminate.
    + split; [intros _; split; [discriminate|reflexivity]|reflexivity].
  - intros ->. reflexivity.
Qed.

Section StringTagRuns.
#[local] Existing Instance IntegerOnly.

(** [alice] comes back; [Bob], [David] and [Sam] do not; [] raises. *)
Lemma string_round_trip_witness :
  CompressedReadable._decompress_value 1 (JStr (py "alice")) [] = Ok (JStr (py "alice")) /\
  CompressedReadable._decompress_value 1 (JStr (py "Bob")) [] <> Ok (JStr (py "Bob")) /\
  CompressedReadable._decompress_value 1 (JStr (py "David")) [] <> Ok (JStr (py "David")) /\
  CompressedReadable._decompress_value 1 (JStr (py "Sam")) [] <> Ok (JStr (py "Sam")) /\
  CompressedReadable._decompress_value 1 (JStr []) [] = Raise IndexError.
Proof.
  assert (H : forall s, valid_text s ->
            (CompressedReadable._decompress_value 1 (JStr s) [] = Ok (JStr s)
             <-> s <> [] /\ char_in (hd 0 s) (py "STBHID") = false) /\
            (s = [] -> CompressedReadable._decompress_value 1 (JStr s) [] = Raise IndexError)).
  { intros s Hs.
    exact (proj2 (@string_round_trip IntegerOnly s 0 0 CompressedReadable.init [] Hs)). }
  split; [|split; [|split; [|split]]].
  - apply (proj1 (H (py "alice") eq_refl)). split; [discriminate|reflexivity].
  - intros E. apply (proj1 (H (py "Bob") eq_refl)) in E as [_ E]. discriminate.
  - intros E. apply (proj1 (H (py "David") eq_refl)) in E as [_ E]. discriminate.
  - intros E. apply (proj1 (H (py "Sam") eq_refl)) in E as [_ E]. discriminate.
  - apply (proj2 (H [] eq_refl)). reflexivity.
Defined.

End StringTagRuns.

(** *** What [_unpack_booleans] reads *)

Lemma range_split m n : 0 <= m < n -> exists rest, range n = range m ++ m :: rest.
Proof.
  intros H. unfold range.
  replace (Z.to_nat n) with (Z.to_nat m + S (Z.to_nat n - S (Z.to_nat m)))%nat by lia.
  rewrite seq_app, map_app. cbn [seq map Nat.add]. rewrite Z2Nat.id by lia.
  eexists. reflexivity.
Qed.

Lemma rmap_raise_at A B (f : A -> result B) (g : A -> B) l1 a l2 e :
  (forall x, In x l1 -> f x = Ok (g x)) -> f a = Raise e ->
  rmap f (l1 ++ a :: l2) = Raise e.
Proof.
  intros H Ha. induction l1 as [|x l1 IH]; cbn [app rmap].
  - rewrite Ha. reflexivity.
  - rewrite (H x) by (left; auto). cbn [rbind]. rewrite IH; [reflexivity|].
    intros y Hy. apply H. right; auto.
Qed.

(** X12: what [_unpack_booleans] reads.  On the text [T], base64 of a byte
    buffer, a colon and a count [n], it returns the first [n] bits of the
    buffer, eight per byte and least significant first, when the buffer
    holds that many bits (nothing at all when [n] is negative), and raises
    [IndexError] as soon as [n] exceeds eight times the number of bytes. *)
Theorem unpack_booleans_count {F : PyFloat} (bytes : list Z) (n : Z) :
  Forall is_byte bytes ->
  CompressedReadable._unpack_booleans (ch "T" :: b64encode bytes ++ ch ":" :: str_int n)
  = if n <=? 8 * len bytes
    then Ok (JArr (map (fun j => JBool (bit_of bytes j)) (range n)))
    else Raise IndexError.
Proof.
  intros Hb. unfold CompressedReadable._unpack_booleans. cbn [tl].
  rewrite split_colon_b64 by (apply b64encode_chars; auto).
  rewrite b64decode_b64encode by auto. cbn [rbind of_option].
  rewrite int_of_str_str_int. cbn [rbind].
  assert (Hbit : forall i, 0 <= i < 8 * len bytes ->
            (byte <~ of_option IndexError (nth_error bytes (Z.to_nat (i / 8))) ;;
             Ok (JBool (negb (Z.land byte (Z.shiftl 1 (i mod 8)) =? 0))))
            = Ok (JBool (bit_of bytes i))).
  { intros i Hi.
    pose proof (Z.mod_pos_bound i 8 ltac:(lia)) as Hm.
    pose proof (Z.div_mod i 8 ltac:(lia)) as Hdm.
    assert (0 <= i / 8) by (apply Z.div_pos; lia).
    assert (Hidx : (Z.to_nat (i / 8) < length bytes)%nat) by (unfold len in *; lia).
    rewrite (nth_error_nth' bytes 0 Hidx). cbn [rbind of_option].
    destruct (@byte_bit_ops (nth (Z.to_nat (i / 8)) bytes 0) (i mod 8)) as [_ ->]; auto.
    apply is_byte_nth; auto. }
  destruct (n <=? 8 * len bytes) eqn:En.
  - apply Z.leb_le in En.
    rewrite (@rmap_pointwise _ _ _ (fun j => JBool (bit_of bytes j))); [reflexivity|].
    intros i Hi. apply in_range_iff in Hi. cbv zeta. apply Hbit. lia.
  - apply Z.leb_gt in En.
    assert (Hlen : 0 <= 8 * len bytes) by (unfold len; lia).
    destruct (@range_split (8 * len bytes) n) as (rest & ->); [lia|].
    rewrite (@rmap_raise_at _ _ _ (fun j => JBool (bit_of bytes j)) _ _ _ IndexError);
      [reflexivity| |].
    + intros i Hi. apply in_range_iff in Hi. cbv zeta. apply Hbit. lia.
    + cbv zeta. replace (8 * len bytes / 8) with (len bytes)
        by (symmetry; rewrite Z.mul_comm; apply Z.div_mul; lia).
      unfold len. rewrite Nat2Z.id.
      replace (nth_error bytes (length bytes)) with (@None Z)
        by (symmetry; apply nth_error_None; lia).
      reflexivity.
Qed.

Section UnpackBooleansRuns.
#[local] Existing Instance IntegerOnly.

(** One byte, [0b00000101]: nine bits are one too many. *)
Lemma unpack_booleans_count_witness :
  CompressedReadable._unpack_booleans (ch "T" :: b64encode [5] ++ ch ":" :: str_int 3)
  = Ok (JArr [JBool true; JBool false; JBool true]) /\
  CompressedReadable._unpack_booleans (ch "T" :: b64encode [5] ++ ch ":" :: str_int 9)
  = Raise IndexError.
Proof.
  assert (Hb : Forall is_byte [5]) by (repeat constructor; lia).
  split.
  - exact (@unpack_booleans_count IntegerOnly [5] 3 Hb).
  - exact (@unpack_booleans_count IntegerOnly [5] 9 Hb).
Defined.

End UnpackBooleansRuns.

(** *** compressed_readable.py: data the encoder always accepts *)






Section PlainDataAccepted.
Context {F : PyFloat}.











End PlainDataAccepted.


Section PlainDataRuns.
#[local] Existing Instance IntegerOnly.


End PlainDataRuns.

(** *** versions/v26.py: the common prefix *)

Lemma v26_startswith_iff s prefix :
  V26.startswith s prefix = true <-> exists t, s = prefix ++ t.
Proof.
  revert s. induction prefix as [|a p IH]; intros s; cbn [V26.startswith].
  - split; [intros _; exists s; reflexivity|reflexivity].
  - destruct s as [|b s].
    + split; [discriminate|intros (t & H); discriminate].
    + rewrite andb_true_iff, Z.eqb_eq, IH. split.
      * intros (-> & t & ->). exists t. reflexivity.
      * intros (t & H). inversion H; subst. eauto.
Qed.

Lemma v26_startswith_skipn s prefix :
  V26.startswith s prefix = true -> prefix ++ skipn (length prefix) s = s.
Proof.
  intros H. apply v26_startswith_iff in H as (t & ->).
  rewrite skipn_app, Nat.sub_diag, skipn_all. reflexivity.
Qed.

Lemma v26_startswith_trans s p q :
  V26.startswith s p = true -> V26.startswith p q = true -> V26.startswith s q = true.
Proof.
  rewrite !v26_startswith_iff. intros (t & ->) (u & ->). exists (u ++ t).
  rewrite app_assoc. reflexivity.
Qed.

Lemma v26_startswith_refl s : V26.startswith s s = true.
Proof. apply v26_startswith_iff. exists []. rewrite List.app_nil_r. reflexivity. Qed.

Lemma v26_removelast_prefix p : V26.startswith p (removelast p) = true.
Proof.
  apply v26_startswith_iff. destruct p as [|a p]; [exists []; reflexivity|].
  exists [last (a :: p) 0]. apply app_removelast_last. discriminate.
Qed.

(** A proper prefix of [p] is a prefix of [p] without its last character. *)
Lemma v26_prefix_of_removelast p q :
  V26.startswith p q = true -> q <> p -> V26.startswith (removelast p) q = true.
Proof.
  intros H Hne. apply v26_startswith_iff in H as (t & ->).
  apply v26_startswith_iff.
  destruct t as [|c t] using rev_ind; [rewrite List.app_nil_r in Hne; congruence|].
  exists t. rewrite app_assoc. rewrite removelast_last. reflexivity.
Qed.

Lemma v26_shrink_some fuel : forall s prefix p,
  V26.shrink fuel s prefix = Some p ->
  V26.startswith s p = true /\ V26.startswith prefix p = true /\
  forall q, V26.startswith prefix q = true -> V26.startswith s q = true ->
            V26.startswith p q = true.
Proof.
  induction fuel as [|fuel IH]; intros s prefix p H; cbn [V26.shrink] in H.
  - destruct (V26.startswith s prefix) eqn:E; [|discriminate]. inversion H; subst.
    split; auto. split; [apply v26_startswith_refl|auto].
  - destruct (V26.startswith s prefix) eqn:E.
    { inversion H; subst. split; auto. split; [apply v26_startswith_refl|auto]. }
    cbv zeta in H. destruct (removelast prefix) as [|c r] eqn:Er; [discriminate|].
    rewrite <- Er in H. apply IH in H as (H1 & H2 & H3).
    split; auto. split.
    + eapply v26_startswith_trans; [apply v26_removelast_prefix|exact H2].
    + intros q Hq Hs. apply H3; auto. apply v26_prefix_of_removelast; auto.
      intros ->. congruence.
Qed.

Lemma v26_shrink_none fuel : forall s prefix,
  (length prefix <= fuel)%nat -> V26.shrink fuel s prefix = None ->
  forall q, V26.startswith prefix q = true -> V26.startswith s q = true -> q = [].
Proof.
  induction fuel as [|fuel IH]; intros s prefix Hf H q Hq Hs; cbn [V26.shrink] in H.
  - destruct prefix; [|simpl in Hf; lia]. discriminate.
  - destruct (V26.startswith s prefix) eqn:E; [discriminate|].
    cbv zeta in H.
    assert (Hq' : V26.startswith (removelast prefix) q = true).
    { apply v26_prefix_of_removelast; auto. intros ->. congruence. }
    destruct (removelast prefix) as [|c r] eqn:Er.
    + destruct q; [reflexivity|discriminate].
    + rewrite <- Er in *. apply (IH s (removelast prefix)); auto.
      destruct prefix as [|a prefix]; [discriminate|].
      pose proof (@app_removelast_last _ (a :: prefix) 0 ltac:(discriminate)) as Hl.
      apply (f_equal (@length Z)) in Hl. rewrite length_app in Hl. simpl in *. lia.
Qed.

Lemma v26_scan_some rest : forall prefix p,
  V26.scan rest prefix = Some p ->
  V26.startswith prefix p = true /\
  Forall (fun s => V26.startswith s p = true) rest /\
  forall q, V26.startswith prefix q = true ->
            Forall (fun s => V26.startswith s q = true) rest ->
            V26.startswith p q = true.
Proof.
  induction rest as [|s rest IH]; intros prefix p H; cbn [V26.scan] in H.
  - inversion H; subst. split; [apply v26_startswith_refl|]. split; [constructor|auto].
  - destruct (V26.shrink (length prefix) s prefix) as [p1|] eqn:E; [|discriminate].
    apply v26_shrink_some in E as (E1 & E2 & E3). apply IH in H as (H1 & H2 & H3).
    split; [eapply v26_startswith_trans; eauto|]. split.
    + constructor; auto. eapply v26_startswith_trans; eauto.
    + intros q Hq Hall. inversion Hall; subst. apply H3; auto.
Qed.

Lemma v26_scan_none rest : forall prefix,
  V26.scan rest prefix = None ->
  forall q, V26.startswith prefix q = true ->
            Forall (fun s => V26.startswith s q = true) rest -> q = [].
Proof.
  induction rest as [|s rest IH]; intros prefix H q Hq Hall; cbn [V26.scan] in H;
    [discriminate|].
  inversion Hall; subst.
  destruct (V26.shrink (length prefix) s prefix) as [p1|] eqn:E.
  - pose proof (@v26_shrink_some _ _ _ _ E) as (E1 & E2 & E3).
    apply (IH p1 H q); auto.
  - eapply v26_shrink_none; eauto.
Qed.

Lemma v26_total_len_expand p x :
  V26.total_len (V26.expand_prefix p x) = len x * len p + V26.total_len x.
Proof.
  unfold V26.expand_prefix. induction x as [|s x IH]; [reflexivity|].
  cbn [map V26.total_len fold_right]. fold (V26.total_len (map (fun suffix => p ++ suffix) x)).
  fold (V26.total_len x). rewrite IH. unfold len. rewrite length_app. cbn [length]. lia.
Qed.

Lemma v26_common_prefix_expand strings :
  let (prefix, suffixes) := V26._common_prefix strings in
  V26.expand_prefix prefix suffixes = strings /\
  Forall (fun s => V26.startswith s prefix = true) strings /\
  (prefix = [] \/ (3 <= len prefix /\ 2 <= len strings)).
Proof.
  unfold V26._common_prefix.
  assert (Hid : V26.expand_prefix [] strings = strings).
  { unfold V26.expand_prefix. apply map_id. }
  assert (Htriv : Forall (fun s => V26.startswith s [] = true) strings).
  { apply Forall_forall. reflexivity. }
  destruct ((len strings =? 0) || (len strings <? 2)) eqn:E0; [auto|].
  apply orb_false_iff in E0 as [_ E0]. apply Z.ltb_ge in E0.
  destruct (V26.scan (tl strings) (hd [] strings)) as [p|] eqn:Es; [|auto].
  destruct (3 <=? len p) eqn:E3; [|auto].
  apply v26_scan_some in Es as (H1 & H2 & _).
  assert (Hall : Forall (fun s => V26.startswith s p = true) strings).
  { destruct strings as [|s0 rest]; [constructor|]. constructor; auto. }
  split; [|split; auto].
  - unfold V26.expand_prefix. rewrite map_map. rewrite <- (map_id strings) at 2.
    apply map_ext_in. intros s Hs. rewrite Forall_forall in Hall.
    apply v26_startswith_skipn. auto.
  - right. apply Z.leb_le in E3. auto.
Qed.

(** X16: [_common_prefix] of [versions/v26.py] loses nothing.  The prefix it
    returns is a prefix of every string; it is empty or at least three
    characters long, and non-empty only for two or more strings; and
    putting it back in front of the suffixes, as the decoder does, gives
    the original strings.  With an empty prefix the suffixes are the
    strings themselves. *)
Theorem common_prefix_lossless (strings : list pystr) :
  let (prefix, suffixes) := V26._common_prefix strings in
  V26.expand_prefix prefix suffixes = strings /\
  Forall (fun s => V26.startswith s prefix = true) strings /\
  (prefix = [] \/ (3 <= len prefix /\ 2 <= len strings)) /\
  (prefix = [] -> suffixes = strings).
Proof.
  pose proof (v26_common_prefix_expand strings) as H.
  destruct (V26._common_prefix strings) as [prefix suffixes].
  destruct H as (H1 & H2 & H3). repeat split; auto.
  intros ->. unfold V26.expand_prefix in H1. rewrite <- H1. symmetry. apply map_id.
Qed.

(** X17: [_common_prefix] of [versions/v26.py] finds the longest common
    prefix.  Among two or more strings, when some common prefix has three
    characters or more, the returned prefix is non-empty and every common
    prefix of the strings is a prefix of it; when none has, the returned
    prefix is empty. *)
Theorem common_prefix_longest (strings : list pystr) (q : pystr) :
  2 <= len strings ->
  Forall (fun s => V26.startswith s q = true) strings ->
  let prefix := fst (V26._common_prefix strings) in
  (3 <= len q -> 3 <= len prefix /\ V26.startswith prefix q = true) /\
  (prefix <> [] -> V26.startswith prefix q = true).
Proof.
  intros Hlen Hall prefix. subst prefix. unfold V26._common_prefix.
  replace ((len strings =? 0) || (len strings <? 2)) with false.
  2:{ symmetry. apply orb_false_iff. split; [apply Z.eqb_neq|apply Z.ltb_ge]; lia. }
  destruct strings as [|s0 rest]; [unfold len in Hlen; simpl in Hlen; lia|].
  cbn [hd tl]. inversion Hall as [|? ? Hs0 Hrest]; subst.
  destruct (V26.scan rest s0) as [p|] eqn:Es.
  - pose proof (@v26_scan_some _ _ _ Es) as (H1 & H2 & H3).
    specialize (H3 q Hs0 Hrest).
    assert (Hq : len q <= len p).
    { apply v26_startswith_iff in H3 as (t & ->). unfold len. rewrite length_app. lia. }
    destruct (3 <=? len p) eqn:E3; cbn [fst].
    + apply Z.leb_le in E3. split; auto.
    + apply Z.leb_gt in E3. split; [lia|congruence].
  - pose proof (@v26_scan_none _ _ Es q Hs0 Hrest) as ->. cbn [fst].
    split; [unfold len; simpl; lia|congruence].
Qed.

Lemma common_prefix_longest_witness :
  let strings := [py "user_1@example.com"; py "user_22@example.com"; py "user_3@x.org"] in
  fst (V26._common_prefix strings) = py "user_" /\
  V26.startswith (fst (V26._common_prefix strings)) (py "use") = true.
Proof.
  intros strings. split; [reflexivity|].
  refine (proj2 (proj1 (@common_prefix_longest strings (py "use") _ _) _)).
  - vm_compute. discriminate.
  - repeat constructor.
  - vm_compute. discriminate.
Defined.

(** X18: the size test of the prefix step in [versions/v26.py] never rejects
    a prefix.  Whenever [_common_prefix] returns a non-empty prefix, the
    record [{"p": prefix, "x": suffixes}] is emitted (a prefix of three or
    more characters shared by two or more strings always pays), and the
    decoder's expansion of the record is the original array; with an empty
    prefix no record is emitted. *)
Theorem prefix_record_round_trip (arr : list pystr) :
  match V26.prefix_record arr with
  | Some (p, x) =>
      V26._common_prefix arr = (p, x) /\ p <> [] /\ V26.expand_prefix p x = arr
  | None => fst (V26._common_prefix arr) = []
  end.
Proof.
  unfold V26.prefix_record. pose proof (v26_common_prefix_expand arr) as H.
  destruct (V26._common_prefix arr) as [p x]. destruct H as (H1 & _ & H3).
  destruct H3 as [->|[Hp Hn]]; [reflexivity|].
  assert (Hx : len x = len arr).
  { rewrite <- H1. unfold V26.expand_prefix, len. rewrite length_map. reflexivity. }
  assert (Ht : V26.total_len arr = len x * len p + V26.total_len x).
  { rewrite <- H1 at 1. apply v26_total_len_expand. }
  replace (len p =? 0) with false by (symmetry; apply Z.eqb_neq; lia).
  replace (V26.total_len x + len p <? V26.total_len arr) with true
    by (symmetry; apply Z.ltb_lt; nia).
  cbn [negb andb]. split; [reflexivity|]. split; auto.
  intros ->. unfold len in Hp. simpl in Hp. lia.
Qed.

(** *** compressed_readable.py: tables of ints *)

Lemma mapM_stateless S A B (P : A -> B -> Prop) (f : A -> M S B) l st :
  (forall a, In a l -> exists b, f a st = Ok (b, st) /\ P a b) ->
  exists bs, mapM f l st = Ok (bs, st) /\ Forall2 P l bs.
Proof.
  induction l as [|a l IH]; intros H; cbn [mapM].
  - exists []. split; [reflexivity|constructor].
  - destruct (H a (or_introl eq_refl)) as (b & Hb & Pb).
    destruct IH as (bs & Hbs & Pbs); [intros; apply H; right; auto|].
    exists (b :: bs). split; [|constructor; auto].
    rewrite (bind_run _ Hb), (bind_run _ Hbs). reflexivity.
Qed.

Lemma keyset_eqb_refl ks : keyset_eqb ks ks = true.
Proof.
  unfold keyset_eqb. rewrite andb_diag. apply forallb_forall. intros k Hk.
  apply str_mem_In. exact Hk.
Qed.

Lemma repeat_map_const A B (f : A -> B) (x : A) l :
  Forall (eq x) l -> repeat (f x) (length l) = map f l.
Proof. induction 1; simpl; congruence. Qed.

Section IntTableCodec.
Context {F : PyFloat}.

Lemma int_row_fields ks item :
  int_row ks item = true ->
  exists fs, item = JObj fs /\ keys fs = ks /\
    forall k, In k ks -> exists z, dict_get k fs = Some (JInt z) /\ fits 4 z.
Proof.
  destruct item as [| | | | | |fs]; try discriminate. cbn [int_row]. intros H.
  apply andb_true_iff in H as [Hk Hv]. apply strs_eqb_eq in Hk.
  exists fs. split; [reflexivity|]. split; [exact Hk|]. intros k Hin. rewrite <- Hk in Hin.
  apply in_keys_get in Hin as (v & Hget). pose proof (dict_get_In _ _ Hget) as Hin.
  rewrite forallb_forall in Hv. specialize (Hv (k, v) Hin). cbn [snd] in Hv.
  destruct v; try discriminate. exists n. split; [exact Hget|].
  apply andb_true_iff in Hv as [H1 H2]. apply Z.leb_le in H1, H2.
  unfold fits. change (2 ^ (8 * Z.of_nat 4 - 1)) with 2147483648. lia.
Qed.

Lemma int_column ks arr k :
  forallb (int_row ks) arr = true -> In k ks ->
  rmap (fun item => of_option KeyError (dict_get k (fields_of item))) arr
  = Ok (map JInt (map (cell_int k) arr)) /\
  Forall (fits 4) (map (cell_int k) arr).
Proof.
  intros Hrows Hk. rewrite forallb_forall in Hrows.
  induction arr as [|item arr IH]; [split; [reflexivity|constructor]|].
  destruct IH as [IH1 IH2]; [intros; apply Hrows; right; auto|].
  destruct (int_row_fields _ _ (Hrows item (or_introl eq_refl))) as (fs & -> & _ & Hv).
  destruct (Hv k Hk) as (z & Hz & Hfit).
  cbn [rmap map fields_of]. unfold cell_int at 1 3. cbn [fields_of]. rewrite Hz.
  cbn [of_option rbind]. rewrite IH1. cbn [rbind]. split; [reflexivity|constructor; auto].
Qed.

(** One column of ints: whichever of the four forms the encoder picks, the
    decoder's expansion is the column. *)
Lemma compress_column_ints cv zs st :
  zs <> [] -> Forall (fits 4) zs ->
  (forall z st0, cv (JInt z) st0 = Ok (JInt z, st0)) ->
  exists c,
    CompressedReadable.compress_column cv (map JInt zs) st = Ok (c, st) /\
    forall fuel key_map,
      CompressedReadable.expand_column
        (fun v => CompressedReadable._decompress_value (S fuel) v key_map) c
      = Ok [JArr (map JInt zs)].
Proof.
  intros Hne Hfit Hcv. destruct zs as [|z0 rest]; [congruence|]. clear Hne.
  unfold CompressedReadable.compress_column.
  rewrite is_constant_ints.
  destruct (forallb (fun z => z =? z0) rest) eqn:Ec.
  { cbn [map hd]. rewrite (bind_run _ (Hcv z0 st)). cbn [ret].
    eexists. split; [reflexivity|]. intros fuel key_map.
    cbn [CompressedReadable.expand_column CompressedReadable.constant_record].
    replace (dict_mem (py "c") _) with true by reflexivity.
    replace (dict_get (py "c") _) with (Some (JInt z0)) by reflexivity.
    replace (dict_get (py "n") [(py "c", JInt z0); (py "n", JInt (len (JInt z0 :: map JInt rest)))])
      with (Some (JInt (len (JInt z0 :: map JInt rest)))) by reflexivity.
    cbn [of_option rbind CompressedReadable._decompress_value py_repeat py_index].
    f_equal. f_equal. f_equal. unfold len. rewrite Nat2Z.id.
    cbn [length]. rewrite length_map. cbn [repeat]. f_equal.
    apply repeat_map_const. apply Forall_forall. intros z Hz.
    rewrite forallb_forall in Ec. specialize (Ec z Hz). apply Z.eqb_eq in Ec. auto. }
  set (zs := z0 :: rest) in *.
  assert (Hlenmap : len (map JInt zs) = len zs) by (unfold len; rewrite length_map; reflexivity).
  assert (Helem : exists st', mapM cv (map JInt zs) st = Ok (map JInt zs, st) /\ st' = st).
  { exists st. split; auto. clear -Hcv. induction zs as [|z zs IH]; [reflexivity|].
    cbn [map mapM]. rewrite (bind_run _ (Hcv z st)), (bind_run _ IH). reflexivity. }
  destruct Helem as (_ & Helem & _).
  destruct (3 <=? len zs) eqn:E3.
  - apply Z.leb_le in E3.
    unfold bind at 1. unfold lift at 1. rewrite is_sequential_ints by auto. cbn [rbind].
    destruct (is_progression zs) eqn:Ep.
    + destruct rest as [|z1 rest']; [unfold len in E3; simpl in E3; lia|].
      eexists. split; [reflexivity|]. intros fuel key_map.
      cbn [CompressedReadable.expand_column].
      replace (dict_mem (py "c") _) with false by reflexivity.
      replace (dict_mem (py "s") _) with true by reflexivity.
      replace (dict_get (py "s") _) with (Some (JInt z0)) by reflexivity.
      replace (dict_get (py "d") _) with (Some (JInt (z1 - z0))) by reflexivity.
      replace (dict_get (py "n") _) with (Some (JInt (len (map JInt (z0 :: z1 :: rest')))))
        by reflexivity.
      cbn [of_option rbind]. rewrite delta_run_ints. cbn [rbind].
      fold zs. rewrite Hlenmap. unfold zs. rewrite progression_rebuilt by auto. reflexivity.
    + change (map JInt zs) with (JInt z0 :: map JInt rest) at 1.
      cbn [CompressedReadable.as_bools]. rewrite as_nums_ints. rewrite Hlenmap.
      replace (3 <=? len zs) with true by (symmetry; apply Z.leb_le; auto).
      rewrite pack_numbers_ints.
      destruct (unpack_numbers_packed zs) as (U1 & U2 & U4).
      assert (Hexp : forall tag bytes fuel key_map,
                char_in tag (py "BHI") = true ->
                CompressedReadable.expand_column
                  (fun v => CompressedReadable._decompress_value (S fuel) v key_map)
                  (JStr (tag :: bytes))
                = (column <~ CompressedReadable._unpack_numbers (tag :: bytes) ;; Ok [column])).
      { intros tag bytes fuel key_map Ht. cbn [CompressedReadable.expand_column nth_error
          of_option rbind].
        replace (char_in tag (py "BHIDT")) with true.
        - rewrite decompress_packed_ints by auto. reflexivity.
        - symmetry. unfold char_in in *. cbn [py map list_ascii_of_string existsb] in *.
          apply orb_true_iff in Ht as [Ht|Ht]; [rewrite Ht; reflexivity|].
          apply orb_true_iff in Ht as [Ht|Ht]; [rewrite Ht, orb_true_r; reflexivity|].
          apply orb_true_iff in Ht as [Ht|Ht]; [|discriminate].
          rewrite Ht, !orb_true_r. reflexivity. }
      destruct (fits_dec 1 zs) as [F1|F1]; [|destruct (fits_dec 2 zs) as [F2|F2];
        [|destruct (fits_dec 4 zs) as [F4|F4]; [|contradiction]]];
        (eexists; split; [reflexivity|]; intros fuel key_map;
         rewrite Hexp by reflexivity).
      * rewrite U1 by auto. reflexivity.
      * rewrite U2 by auto. reflexivity.
      * rewrite U4 by auto. reflexivity.
  - apply Z.leb_gt in E3.
    assert (Hseq : CompressedReadable._is_sequential (map JInt zs) = Ok false).
    { unfold CompressedReadable._is_sequential. rewrite Hlenmap.
      replace (len zs <? 3) with true by (symmetry; apply Z.ltb_lt; auto). reflexivity. }
    unfold bind at 1. unfold lift at 1. rewrite Hseq. cbn [rbind].
    change (map JInt zs) with (JInt z0 :: map JInt rest) at 1.
    cbn [CompressedReadable.as_bools]. rewrite as_nums_ints. rewrite Hlenmap.
    replace (3 <=? len zs) with false by (symmetry; apply Z.leb_gt; auto).
    rewrite (bind_run _ Helem). cbn [ret].
    eexists. split; [reflexivity|]. intros fuel key_map. reflexivity.
Qed.

Lemma cr_get_short_key_grows k st code st' :
  CompressedReadable._get_short_key k st = Ok (code, st') ->
  dict_get k (CompressedReadable.key_map st') = Some code /\
  forall k' c, dict_get k' (CompressedReadable.key_map st) = Some c ->
               dict_get k' (CompressedReadable.key_map st') = Some c.
Proof.
  unfold CompressedReadable._get_short_key, dict_mem. intros H.
  destruct (dict_get k (CompressedReadable.key_map st)) as [c0|] eqn:E;
    cbv beta zeta iota in H.
  - rewrite E in H. inversion H; subst. auto.
  - cbn [CompressedReadable.key_map] in H. rewrite dict_get_set_same in H.
    inversion H; subst; clear H. cbn [CompressedReadable.key_map].
    split; [apply dict_get_set_same|]. intros k' c Hk'.
    rewrite dict_get_set_other; auto. congruence.
Qed.

Lemma cr_mapM_keys ks : forall st sks st1,
  mapM CompressedReadable._get_short_key ks st = Ok (sks, st1) ->
  Forall2 (fun k sk => dict_get k (CompressedReadable.key_map st1) = Some sk) ks sks /\
  forall k' c, dict_get k' (CompressedReadable.key_map st) = Some c ->
               dict_get k' (CompressedReadable.key_map st1) = Some c.
Proof.
  induction ks as [|k ks IH]; intros st sks st1 H; cbn [mapM] in H.
  - inversion H; subst. split; [constructor|auto].
  - apply bind_ok in H as (sk & sa & Hsk & H). apply bind_ok in H as (sks' & sb & Hsks & H).
    inversion H; subst; clear H. apply cr_get_short_key_grows in Hsk as [Hk Hmono].
    apply IH in Hsks as [Hall Hmono']. split; [constructor; auto|auto].
Qed.

Lemma cr_row_decode (dv : json -> result json) (rev : list (pystr * pystr))
  (i : Z) (item : json) :
  (forall z, dv (JInt z) = Ok (JInt z)) ->
  forall ks sks cols' cols_pre (acc : list (pystr * json)),
  Forall2 (fun k sk => original_key rev (JStr sk) = Ok k) ks sks ->
  Forall2 (fun k col => exists cells,
             col = JArr cells /\
             nth_error cells (Z.to_nat i) = Some (JInt (cell_int k item))) ks cols' ->
  fold_left (fun acc (js : Z * json) =>
      obj <~ acc ;;
      let (j, short_key) := js in
      original_key <~ original_key rev short_key ;;
      column <~ of_option IndexError (nth_error (cols_pre ++ cols') (Z.to_nat j)) ;;
      cell <~ py_getitem column i ;;
      value <~ dv cell ;;
      Ok (dict_set original_key value obj))
    (combine (map Z.of_nat (seq (length cols_pre) (length sks))) (map JStr sks)) (Ok acc)
  = Ok (fold_left (fun acc k => dict_set k (JInt (cell_int k item)) acc) ks acc).
Proof.
  intros Hdv ks sks cols' cols_pre acc Hn. revert cols' cols_pre acc.
  induction Hn as [|k sk ks sks Hk Hrest IH]; intros cols' cols_pre acc Hc.
  - reflexivity.
  - inversion Hc as [|k0 col ks0 cols'' (cells & Ecol & Hcell) Hc' E1 E2].
    subst k0 ks0 cols' col.
    cbn [length seq map combine fold_left rbind].
    rewrite Hk. cbn [rbind].
    match goal with
    | |- fold_left _ _ ?x = _ =>
        replace x with (Ok (dict_set k (JInt (cell_int k item)) acc))
    end.
    2:{ rewrite Nat2Z.id.
        rewrite nth_error_app2 by lia. rewrite Nat.sub_diag. cbn [nth_error of_option rbind].
        cbn [py_getitem]. rewrite Hcell. cbn [of_option rbind]. rewrite Hdv. reflexivity. }
    specialize (IH cols'' (cols_pre ++ [JArr cells]) (dict_set k (JInt (cell_int k item)) acc) Hc').
    rewrite <- app_assoc in IH. cbn [app] in IH.
    rewrite length_app in IH. cbn [length] in IH. rewrite Nat.add_1_r in IH.
    exact IH.
Qed.

Lemma int_row_rebuilt ks fs :
  int_row ks (JObj fs) = true -> NoDup ks ->
  fold_left (fun acc k => dict_set k (JInt (cell_int k (JObj fs))) acc) ks [] = fs.
Proof.
  intros Hrow Hnd. destruct (int_row_fields _ _ Hrow) as (fs' & E & Hkeys & Hv).
  inversion E; subst fs'. subst ks.
  assert (Hext : forall l acc, incl l (keys fs) ->
            fold_left (fun acc k => dict_set k (JInt (cell_int k (JObj fs))) acc) l acc
            = fold_left (fun acc k => dict_set k (match dict_get k fs with
                                                   | Some v => v
                                                   | None => JNull
                                                   end) acc) l acc).
  { induction l as [|k l IH]; intros acc Hincl; [reflexivity|]. cbn [fold_left].
    destruct (Hv k (Hincl k (or_introl eq_refl))) as (z & Hz & _).
    replace (cell_int k (JObj fs)) with z
      by (unfold cell_int; cbn [fields_of]; rewrite Hz; reflexivity).
    rewrite Hz. apply IH.
    intros x Hx. apply Hincl. right; auto. }
  rewrite Hext by apply incl_refl.
  exact (@fields_rebuild _ fs Hnd fs [] (@incl_refl _ fs) Hnd).
Qed.

Lemma expand_fold (dv : json -> result json) (E : pystr -> json) ks cols :
  Forall2 (fun k c => CompressedReadable.expand_column dv c = Ok [E k]) ks cols ->
  forall acc,
    fold_left (fun acc col =>
        expanded <~ acc ;;
        more <~ CompressedReadable.expand_column dv col ;;
        Ok (expanded ++ more)) cols (Ok acc)
    = Ok (acc ++ map E ks).
Proof.
  induction 1 as [|k c ks cols Hc Hrest IH]; intros acc; cbn [fold_left map rbind].
  - rewrite List.app_nil_r. reflexivity.
  - rewrite Hc. cbn [rbind]. rewrite IH. rewrite <- app_assoc. reflexivity.
Qed.

Lemma int_table_rows arr :
  int_table arr = true ->
  let ks := keys (fields_of (hd JNull arr)) in
  arr <> [] /\ ks <> [] /\ NoDup ks /\ forallb (int_row ks) arr = true.
Proof.
  unfold int_table. cbv zeta. intros H.
  apply andb_true_iff in H as [H Hrows]. apply andb_true_iff in H as [H Hnd].
  apply andb_true_iff in H as [Ha Hk]. apply negb_true_iff in Ha, Hk.
  split; [intros ->; discriminate|]. split; [intros E; rewrite E in Hk; discriminate|].
  split; [apply nodupb_NoDup; auto|auto].
Qed.

Lemma cr_compress_int_table cv arr st :
  int_table arr = true ->
  (forall z st0, cv (JInt z) st0 = Ok (JInt z, st0)) ->
  let ks := keys (fields_of (hd JNull arr)) in
  exists sks cols st1,
    CompressedReadable._compress_array cv arr st
    = Ok (JObj [(py "a", JInt 1); (py "k", JArr (map JStr sks)); (py "d", JArr cols)], st1) /\
    Forall2 (fun k sk => dict_get k (CompressedReadable.key_map st1) = Some sk) ks sks /\
    (cr_numbered st -> cr_numbered st1) /\
    Forall2 (fun k c => forall fuel key_map,
               CompressedReadable.expand_column
                 (fun v => CompressedReadable._decompress_value (S fuel) v key_map) c
               = Ok [JArr (map JInt (map (cell_int k) arr))]) ks cols.
Proof.
  intros Ht Hcv ks. destruct (int_table_rows _ Ht) as (Hne & Hks & Hnd & Hrows).
  fold ks in Hks, Hnd, Hrows.
  unfold CompressedReadable._compress_array.
  destruct arr as [|first rest]; [congruence|]. cbv beta zeta iota.
  set (arr := first :: rest) in *.
  assert (Hfirst : exists fs, first = JObj fs).
  { rewrite forallb_forall in Hrows.
    destruct (int_row_fields _ _ (Hrows first (or_introl eq_refl))) as (fs & -> & _). eauto. }
  destruct Hfirst as (fs0 & Efirst).
  assert (Hb : CompressedReadable.as_bools arr = None) by (unfold arr; rewrite Efirst; reflexivity).
  assert (Hn : CompressedReadable.as_nums arr = None) by (unfold arr; rewrite Efirst; reflexivity).
  rewrite Hb, Hn.
  assert (Hd : forallb is_dict arr = true).
  { apply forallb_forall. intros item Hitem. rewrite forallb_forall in Hrows.
    destruct (int_row_fields _ _ (Hrows item Hitem)) as (fs & -> & _). reflexivity. }
  assert (Hk : forallb (fun item => keyset_eqb (keys (fields_of item))
                                     (keys (fields_of (hd JNull arr)))) arr = true).
  { apply forallb_forall. intros item Hitem. rewrite forallb_forall in Hrows.
    destruct (int_row_fields _ _ (Hrows item Hitem)) as (fs & -> & Hkeys & _).
    cbn [fields_of]. rewrite Hkeys. apply keyset_eqb_refl. }
  rewrite Hd, Hk. fold ks.
  destruct (@mapM_total _ _ _ CompressedReadable._get_short_key ks) with (st := st)
    as (sks & st1 & Hsks & _).
  { intros k st0 _. destruct (cr_get_short_key_assigns k st0) as (c & s & H & _). eauto. }
  rewrite (bind_run _ Hsks).
  destruct (@mapM_stateless _ _ _
              (fun k c => forall fuel key_map,
                 CompressedReadable.expand_column
                   (fun v => CompressedReadable._decompress_value (S fuel) v key_map) c
                 = Ok [JArr (map JInt (map (cell_int k) arr))])
              (fun orig_key =>
                 col_values <- lift (rmap (fun item => of_option KeyError
                                             (dict_get orig_key (fields_of item))) arr) ;;
                 CompressedReadable.compress_column cv col_values) ks st1)
    as (cols & Hcols & Hexp).
  { intros k Hkin. destruct (int_column ks arr k Hrows Hkin) as [Hcol Hfit].
    unfold bind at 1. unfold lift at 1. rewrite Hcol. cbn [rbind].
    apply compress_column_ints; auto.
    unfold arr. discriminate. }
  rewrite (bind_run _ Hcols). cbn [ret].
  exists sks, cols, st1. split; [reflexivity|]. split; [|split; auto].
  - apply (cr_mapM_keys _ _ Hsks).
  - intros Hnum. eapply (@preserves_mapM _ _ _ cr_numbered); [| |exact Hsks]; auto.
    intros k _. apply cr_get_short_key_numbered.
Qed.

Lemma cr_decompress_int_table fuel rev arr sks cols :
  int_table arr = true ->
  let ks := keys (fields_of (hd JNull arr)) in
  Forall2 (fun k sk => original_key rev (JStr sk) = Ok k) ks sks ->
  Forall2 (fun k c =>
             CompressedReadable.expand_column
               (fun v => CompressedReadable._decompress_value (S fuel) v rev) c
             = Ok [JArr (map JInt (map (cell_int k) arr))]) ks cols ->
  CompressedReadable._decompress_value (S (S fuel))
    (JObj [(py "a", JInt 1); (py "k", JArr (map JStr sks)); (py "d", JArr cols)]) rev
  = Ok (JArr arr).
Proof.
  intros Ht ks Hsks Hcols. destruct (int_table_rows _ Ht) as (Hne & Hks & Hnd & Hrows).
  fold ks in Hks, Hnd, Hrows. clearbody ks.
  assert (Hdv : forall z, CompressedReadable._decompress_value (S fuel) (JInt z) rev
                          = Ok (JInt z)) by reflexivity.
  remember (S fuel) as fuel1 eqn:Efuel. clear Efuel.
  cbn [CompressedReadable._decompress_value].
  replace (dict_mem (py "c") _) with false by reflexivity.
  replace (dict_mem (py "s") _) with false by reflexivity.
  cbn [andb].
  replace (dict_get (py "a") _) with (Some (JInt 1)) by reflexivity.
  replace (py_eq (JInt 1) (JInt 1)) with true by reflexivity.
  unfold CompressedReadable._decompress_array.
  replace (dict_get (py "k") _) with (Some (JArr (map JStr sks))) by reflexivity.
  replace (dict_get (py "d") _) with (Some (JArr cols)) by reflexivity.
  cbn [of_option rbind py_iter].
  rewrite (@expand_fold _ (fun k => JArr (map JInt (map (cell_int k) arr))) _ _ Hcols).
  cbn [app rbind].
  assert (Hnum : match map (fun k => JArr (map JInt (map (cell_int k) arr))) ks with
                 | [] => Ok 0
                 | first :: _ => py_len first
                 end = Ok (len arr)).
  { destruct ks as [|k0 ks0]; [congruence|]. cbn [map py_len]. f_equal.
    unfold len. rewrite !length_map. reflexivity. }
  rewrite Hnum. cbn [rbind].
  erewrite rmap_pointwise with (g := fun i => nth (Z.to_nat i) arr JNull).
  { cbn [rbind]. f_equal. f_equal.
    rewrite (@map_nth_range _ _ (fun x => x) JNull arr). apply map_id. }
  intros i Hi. apply in_range_iff in Hi.
  assert (Hi' : (Z.to_nat i < length arr)%nat) by (unfold len in Hi; lia).
  set (item := nth (Z.to_nat i) arr JNull).
  assert (Hitem : In item arr) by (apply nth_In; auto).
  assert (Hnth : nth_error arr (Z.to_nat i) = Some item) by (apply nth_error_nth'; auto).
  clearbody item.
  rewrite forallb_forall in Hrows. pose proof (Hrows item Hitem) as Hrow.
  destruct (int_row_fields _ _ Hrow) as (fs & Efs & Hkeys & _).
  replace (len (map JStr sks)) with (Z.of_nat (length sks))
    by (unfold len; rewrite length_map; reflexivity).
  unfold range. rewrite Nat2Z.id.
  pose proof (@cr_row_decode (fun v => CompressedReadable._decompress_value fuel1 v rev)
                rev i item Hdv ks sks
                (map (fun k => JArr (map JInt (map (cell_int k) arr))) ks) [] [] Hsks) as Hdec.
  cbn [app length] in Hdec. rewrite Hdec; clear Hdec.
  - cbn [rbind]. f_equal. rewrite Efs. f_equal. rewrite Efs in Hrow.
    apply int_row_rebuilt; auto.
  - clear -Hnth. induction ks as [|k ks IH]; constructor; auto.
    eexists. split; [reflexivity|]. rewrite !nth_error_map, Hnth. reflexivity.
Qed.

End IntTableCodec.

(** X14: tables of ints survive [compressed_readable.py].  An array of one or
    more objects that all list the same keys in the same order (at least
    one key, none twice) and hold ints of the signed 32-bit range is sent
    to the columnar form, each column as a constant record, a delta record,
    a packed string or a plain list, and [decompress] rebuilds exactly the
    original rows from the envelope. *)
Theorem int_table_round_trip {F : PyFloat} (arr : list json) :
  int_table arr = true ->
  exists env st,
    CompressedReadable.compress (JArr arr) CompressedReadable.init = Ok (JObj env, st) /\
    columnar_a (match dict_get (py "d") env with Some d => d | None => JNull end) /\
    forall fuel, CompressedReadable.decompress (S (S fuel)) env = Ok (JArr arr).
Proof.
  intros Ht.
  set (m := fold_right (fun x m => Nat.max (depth x) m) O arr).
  destruct (@cr_compress_int_table _ (CompressedReadable._compress_value (S m))
              arr CompressedReadable.init Ht (fun z st0 => eq_refl))
    as (sks & cols & st & Hc & Hkeys & _ & Hexp).
  assert (Ecomp : exists env,
            CompressedReadable.compress (JArr arr) CompressedReadable.init = Ok (JObj env, st) /\
            env = match CompressedReadable.key_map st with
                  | [] => [(py "d", JObj [(py "a", JInt 1); (py "k", JArr (map JStr sks));
                                          (py "d", JArr cols)])]
                  | _ => [(py "d", JObj [(py "a", JInt 1); (py "k", JArr (map JStr sks));
                                         (py "d", JArr cols)])]
                         ++ [(py "m", JObj (map (fun kv => (fst kv, JStr (snd kv)))
                                              (CompressedReadable.key_map st)))]
                  end).
  { eexists. split; [|reflexivity]. unfold CompressedReadable.compress.
    change (CompressedReadable._compress_value (S (depth (JArr arr))) (JArr arr)
              CompressedReadable.init)
      with (CompressedReadable._compress_array (CompressedReadable._compress_value (S m))
              arr CompressedReadable.init).
    rewrite Hc. reflexivity. }
  destruct Ecomp as (env & Ecomp & Eenv).
  pose proof (cr_compress_numbered _ _ Ecomp) as [Hnum Hrev].
  exists env, st. split; [exact Ecomp|].
  set (node := JObj [(py "a", JInt 1); (py "k", JArr (map JStr sks)); (py "d", JArr cols)]) in *.
  assert (Hget : dict_get (py "d") env = Some node)
    by (rewrite Eenv; destruct (CompressedReadable.key_map st); reflexivity).
  split.
  { rewrite Hget. unfold columnar_a, node. eexists; split; reflexivity. }
  intros fuel. unfold CompressedReadable.decompress.
  unfold reverse_of in Hrev. cbn [fields_of] in Hrev. rewrite Hrev. cbn [rbind].
  rewrite Hget.
  cbn [of_option rbind]. unfold node. apply cr_decompress_int_table; auto.
  - eapply Forall2_impl; [|exact Hkeys]. intros k sk Hk. cbn beta in Hk.
    unfold original_key. erewrite reverse_lookup; eauto.
  - eapply Forall2_impl; [|exact Hexp]. intros k c Hk. apply Hk.
Qed.

Section IntTableRuns.
#[local] Existing Instance IntegerOnly.

(** Four rows; the columns take the delta, the constant and the packed
    form. *)
Lemma int_table_round_trip_witness :
  let row (i q : Z) := JObj [(py "id", JInt i); (py "page", JInt 1); (py "qty", JInt q)] in
  let arr := [row 1 7; row 2 300; row 3 2; row 4 70000] in
  exists env st,
    CompressedReadable.compress (JArr arr) CompressedReadable.init = Ok (JObj env, st) /\
    forall fuel, CompressedReadable.decompress (S (S fuel)) env = Ok (JArr arr).
Proof.
  intros row arr.
  destruct (@int_table_round_trip IntegerOnly arr) as (env & st & H1 & _ & H2).
  - vm_compute. reflexivity.
  - exists env, st. split; [exact H1|exact H2].
Defined.

End IntTableRuns.

(** *** compressed_readable.py: objects with many keys *)

Section WideObjects.
Context {F : PyFloat}.

Lemma cr_leaf_state fuel v st c st' :
  is_leaf v = true ->
  CompressedReadable._compress_value fuel v st = Ok (c, st') -> st' = st.
Proof.
  destruct fuel as [|fuel]; [discriminate|].
  destruct v; cbn [is_leaf CompressedReadable._compress_value]; intros Hl H;
    try discriminate; try (inversion H; reflexivity).
  apply lift_ok in H as [_ ->]. reflexivity.
Qed.

(** The codes of a flat object are the next numerals, in the order of its
    fields. *)
Lemma cr_flat_fold cv :
  forall (l : list (pystr * json)) st (acc cfs : list (pystr * json)) st',
  (forall v st0 c st1, is_leaf v = true -> cv v st0 = Ok (c, st1) -> st1 = st0) ->
  cr_numbered st ->
  NoDup (keys l) ->
  (forall k, In k (keys l) -> dict_get k (CompressedReadable.key_map st) = None) ->
  forallb (fun kv => is_leaf (snd kv)) l = true ->
  keys acc = map _encode_base62 (range (CompressedReadable.key_counter st)) ->
  foldM (fun compressed (kv : pystr * json) =>
           let (key, value) := kv in
           short_key <- CompressedReadable._get_short_key key ;;
           v <- cv value ;;
           ret (dict_set short_key v compressed)) l acc st = Ok (cfs, st') ->
  keys cfs = map _encode_base62 (range (CompressedReadable.key_counter st + len l)).
Proof.
  induction l as [|[k v] l IH]; intros st acc cfs st' Hcv Hnum Hnd Hfresh Hleaf Hacc H.
  - cbn [foldM ret] in H. inversion H; subst. change (len (@nil (pystr * json))) with 0.
    rewrite Z.add_0_r. exact Hacc.
  - cbn [foldM] in H. apply bind_ok in H as (acc1 & s1 & Hstep & H).
    apply bind_ok in Hstep as (sk & sa & Hsk & Hstep).
    apply bind_ok in Hstep as (v' & sb & Hv & Hstep).
    cbn [ret] in Hstep. inversion Hstep; subst acc1 s1; clear Hstep.
    cbn [forallb snd] in Hleaf. apply andb_true_iff in Hleaf as [Hlv Hleaf].
    apply (Hcv _ _ _ _ Hlv) in Hv. subst sb.
    cbn [keys map fst] in Hnd, Hfresh. apply NoDup_cons_iff in Hnd as [Hk Hnd].
    pose proof (Hfresh k (or_introl eq_refl)) as Hnew.
    pose proof Hnum as (Hcount & _ & _).
    assert (Hc0 : 0 <= CompressedReadable.key_counter st)
      by (rewrite Hcount; apply len_nonneg).
    unfold CompressedReadable._get_short_key, dict_mem in Hsk. rewrite Hnew in Hsk.
    cbv beta zeta iota in Hsk. cbn [CompressedReadable.key_map] in Hsk.
    rewrite dict_get_set_same in Hsk. inversion Hsk; subst sk sa; clear Hsk.
    assert (Hcode : dict_get (_encode_base62 (CompressedReadable.key_counter st)) acc = None).
    { apply dict_get_none. rewrite Hacc. intros Hin.
      apply in_map_iff in Hin as (i & Ei & Hi). apply in_range_iff in Hi.
      apply base62_inj in Ei; lia. }
    rewrite dict_set_fresh in H by exact Hcode.
    apply IH in H; auto.
    + cbn [CompressedReadable.key_counter] in H. rewrite H. f_equal. f_equal.
      unfold len. cbn [length]. lia.
    + apply numbered_add; auto.
    + intros k' Hk'. cbn [CompressedReadable.key_map].
      rewrite dict_get_set_other; [apply Hfresh; right; auto|].
      intros ->. contradiction.
    + cbn [CompressedReadable.key_counter]. unfold keys. rewrite map_app.
      fold (keys acc). rewrite Hacc. rewrite range_S by auto. rewrite map_app. reflexivity.
Qed.

Lemma cr_flat_object_codes fuel fs c st :
  flat_object fs = true ->
  CompressedReadable._compress_value fuel (JObj fs) CompressedReadable.init = Ok (c, st) ->
  exists cfs, c = JObj cfs /\ keys cfs = map _encode_base62 (range (len fs)).
Proof.
  intros Hflat H. destruct fuel as [|fuel]; [discriminate|].
  apply andb_true_iff in Hflat as [Hnd Hleaf]. apply nodupb_NoDup in Hnd.
  cbn [CompressedReadable._compress_value] in H.
  unfold CompressedReadable._compress_object in H.
  apply bind_ok in H as (cfs & s1 & Hfold & H). cbn [ret] in H. inversion H; subst; clear H.
  exists cfs. split; [reflexivity|].
  apply cr_flat_fold in Hfold; auto.
  - intros v st0 c st1. apply cr_leaf_state.
  - apply numbered_empty.
Qed.

Lemma constant_record_gives_list fuel fields key_map v :
  dict_mem (py "c") fields = true -> dict_mem (py "n") fields = true ->
  CompressedReadable._decompress_value fuel (JObj fields) key_map = Ok v ->
  exists items, v = JArr items.
Proof.
  intros Hc Hn H. destruct fuel as [|fuel]; [discriminate|].
  cbn [CompressedReadable._decompress_value] in H. rewrite Hc, Hn in H. cbn [andb] in H.
  apply rbind_ok in H as (c & _ & H). apply rbind_ok in H as (n & _ & H).
  apply rbind_ok in H as (indices & _ & H). apply rbind_ok in H as (items & _ & H).
  inversion H. eauto.
Qed.

End WideObjects.

(** X15: objects with fifty or more keys do not survive
    [compressed_readable.py].  The fields of a flat object receive the
    base62 numerals of 0, 1, 2, ... in order, so with fifty fields or more
    the compressed object has the fields [c] (numeral of 38) and [n]
    (numeral of 49); [_decompress_value] takes it for a constant record,
    and [decompress] returns a list or raises, never the object. *)
Theorem wide_object_not_restored {F : PyFloat}
  (fs env : list (pystr * json)) (st : CompressedReadable.state) (fuel : nat) :
  flat_object fs = true ->
  50 <= len fs ->
  CompressedReadable.compress (JObj fs) CompressedReadable.init = Ok (JObj env, st) ->
  (forall v, CompressedReadable.decompress fuel env = Ok v -> exists items, v = JArr items) /\
  CompressedReadable.decompress fuel env <> Ok (JObj fs).
Proof.
  intros Hflat Hlen Hcomp.
  assert (Hlist : forall v, CompressedReadable.decompress fuel env = Ok v ->
                            exists items, v = JArr items).
  { unfold CompressedReadable.compress in Hcomp.
    destruct (CompressedReadable._compress_value _ (JObj fs) _) as [[c st1]| | |] eqn:Ec;
      try discriminate.
    destruct (@cr_flat_object_codes _ _ _ _ _ Hflat Ec) as (cfs & -> & Hkeys).
    assert (Hd : dict_get (py "d") env = Some (JObj cfs)).
    { inversion Hcomp; subst. destruct (CompressedReadable.key_map st); reflexivity. }
    assert (Hin : forall i, 0 <= i < 50 -> dict_mem (_encode_base62 i) cfs = true).
    { intros i Hi. unfold dict_mem.
      destruct (@in_keys_get _ (_encode_base62 i) cfs) as (x & ->); [|reflexivity].
      rewrite Hkeys. apply in_map. apply in_range_iff. lia. }
    intros v Hv. unfold CompressedReadable.decompress in Hv.
    apply rbind_ok in Hv as (rev & _ & Hv). rewrite Hd in Hv. cbn [of_option rbind] in Hv.
    apply constant_record_gives_list in Hv; auto.
    - apply (Hin 38). lia.
    - apply (Hin 49). lia. }
  split; [exact Hlist|]. intros Hv. apply Hlist in Hv as (items & Hv). discriminate.
Qed.

Section WideObjectRuns.
#[local] Existing Instance IntegerOnly.

(** Fifty fields [k0 .. k49] holding 0 .. 49: compression succeeds, and
    decoding does not give an object. *)
Lemma wide_object_not_restored_witness :
  let fs := map (fun i => (py "k" ++ str_int i, JInt i)) (range 50) in
  exists env st,
    CompressedReadable.compress (JObj fs) CompressedReadable.init = Ok (JObj env, st) /\
    CompressedReadable.decompress 3 env <> Ok (JObj fs).
Proof.
  intros fs.
  destruct (CompressedReadable.compress (JObj fs) CompressedReadable.init)
    as [[[| | | | | |env] st]| | |] eqn:E; try (vm_compute in E; discriminate).
  exists env, st. split; [reflexivity|].
  refine (proj2 (@wide_object_not_restored IntegerOnly fs env st 3%nat _ _ E)).
  - vm_compute. reflexivity.
  - vm_compute. discriminate.
Defined.

End WideObjectRuns.
